(** * ClassDocs icon manager: [static/js/icons.js]

    A shallow embedding of the [IconManager] class and of the part of the
    DOM it talks to, followed by the properties of the specification.

    - Strings are byte strings holding the UTF-8 encoding of the script's
      strings; on well-formed text a substring test on the encoding agrees
      with [String.prototype.includes].  [toLowerCase], whose case tables
      belong to the host, is a parameter.
    - The document is a tree of element and text nodes (comments carry no
      text and no attribute and are left out), an HTML document in
      no-quirks mode: class names and ids are compared exactly.  An
      element is designated by its path from the root element; the script
      never moves a node, so a path keeps designating the same element
      for as long as that element is in the document.
    - Elements are HTML elements, known by their local name; namespaces
      are not modelled.  The script depends on the kind of an element at
      one place only: the markup assigned to [innerHTML] on line 109 is
      parsed for the element it is assigned to.
    - An exception is a completion that is handed on together with the
      document as it stands at that point.
    - What [lucide.createIcons()] draws is outside the development; its
      calls are counted. *)

From Stdlib Require Import String Ascii List Bool Arith Lia.
Import ListNotations.
Open Scope string_scope.
Open Scope list_scope.

(** ** Strings *)

(** [hay.includes(needle)] *)
Fixpoint includes (needle hay : string) : bool :=
  if prefix needle hay then true
  else match hay with
       | EmptyString => false
       | String _ rest => includes needle rest
       end.

Definition byte (c : ascii) (n : nat) : bool := Nat.eqb (nat_of_ascii c) n.

(** The code points [String.prototype.trim] strips (WhiteSpace and
    LineTerminator of ECMA-262), by the length of their UTF-8 encoding:
    TAB LF VT FF CR SP; U+00A0; U+1680, U+2000..U+200A, U+2028, U+2029,
    U+202F, U+205F, U+3000, U+FEFF. *)
Definition ws1 (a : ascii) : bool :=
  let n := nat_of_ascii a in (Nat.leb 9 n && Nat.leb n 13) || Nat.eqb n 32.

Definition ws2 (a b : ascii) : bool := byte a 194 && byte b 160.

Definition ws3 (a b c : ascii) : bool :=
  let k := nat_of_ascii c in
  (byte a 225 && byte b 154 && byte c 128)
  || (byte a 226 && byte b 128
      && ((Nat.leb 128 k && Nat.leb k 138) || byte c 168 || byte c 169 || byte c 175))
  || (byte a 226 && byte b 129 && byte c 159)
  || (byte a 227 && byte b 128 && byte c 128)
  || (byte a 239 && byte b 187 && byte c 191).

(** Strips the whitespace code points at the front of [s]; the three tests
    are parameters so that the same scan serves both ends. *)
Fixpoint strip (t1 : ascii -> bool) (t2 : ascii -> ascii -> bool)
    (t3 : ascii -> ascii -> ascii -> bool) (s : string) : string :=
  match s with
  | String a r1 =>
      if t1 a then strip t1 t2 t3 r1
      else match r1 with
           | String b r2 =>
               if t2 a b then strip t1 t2 t3 r2
               else match r2 with
                    | String c r3 => if t3 a b c then strip t1 t2 t3 r3 else s
                    | EmptyString => s
                    end
           | EmptyString => s
           end
  | EmptyString => s
  end.

Definition reverse (s : string) : string :=
  string_of_list_ascii (rev (list_ascii_of_string s)).

Definition trimStart (s : string) : string := strip ws1 ws2 ws3 s.

Definition trimEnd (s : string) : string :=
  reverse (strip ws1 (fun a b => ws2 b a) (fun a b c => ws3 c b a) (reverse s)).

(** [s.trim()] *)
Definition trim (s : string) : string := trimEnd (trimStart s).

(** ** Attributes *)

(** An element's attribute list, in source order. *)
Definition attrs := list (string * string).

(** [getAttribute]: [None] is JavaScript's [null]. *)
Fixpoint getAttribute (k : string) (a : attrs) : option string :=
  match a with
  | [] => None
  | (k', v) :: rest => if k' =? k then Some v else getAttribute k rest
  end.

Definition hasAttribute (k : string) (a : attrs) : bool :=
  match getAttribute k a with Some _ => true | None => false end.

(** [setAttribute]: changes the value in place, or appends the attribute. *)
Fixpoint setAttribute (k v : string) (a : attrs) : attrs :=
  match a with
  | [] => [(k, v)]
  | (k', v') :: rest =>
      if k' =? k then (k', v) :: rest else (k', v') :: setAttribute k v rest
  end.

(** The class attribute is a set of tokens separated by ASCII whitespace. *)
Definition is_space (c : ascii) : bool :=
  let n := nat_of_ascii c in
  Nat.eqb n 32 || Nat.eqb n 9 || Nat.eqb n 10 || Nat.eqb n 12 || Nat.eqb n 13.

Fixpoint tokens_from (cur : string) (s : string) : list string :=
  let flush := match cur with EmptyString => [] | _ => [reverse cur] end in
  match s with
  | EmptyString => flush
  | String c rest =>
      if is_space c then flush ++ tokens_from EmptyString rest
      else tokens_from (String c cur) rest
  end.

Definition tokens (s : string) : list string := tokens_from EmptyString s.

Definition mem (x : string) (l : list string) : bool :=
  existsb (String.eqb x) l.

Definition classList (a : attrs) : list string :=
  match getAttribute "class" a with Some c => tokens c | None => [] end.

(** ** The document tree *)

#[local] Unset Elimination Schemes.
Inductive node : Type :=
| Elem (tag : string) (a : attrs) (children : list node)
| Text (data : string).
#[local] Set Elimination Schemes.

Definition path := list nat.

Section NodeInduction.
Variable P : node -> Prop.
Hypothesis HText : forall s, P (Text s).
Hypothesis HElem : forall t a ks, Forall P ks -> P (Elem t a ks).

Fixpoint node_ind' (n : node) : P n :=
  match n with
  | Text s => HText s
  | Elem t a ks =>
      HElem t a ks
        ((fix all (l : list node) : Forall P l :=
            match l with
            | [] => Forall_nil P
            | k :: l' => Forall_cons k (node_ind' k) (all l')
            end) ks)
  end.
End NodeInduction.

(** [alter f i l] applies [f] to the [i]-th entry; past the end it changes
    nothing. *)
Fixpoint alter {A} (f : A -> A) (i : nat) (l : list A) : list A :=
  match l, i with
  | [], _ => []
  | x :: l', 0 => f x :: l'
  | x :: l', S j => x :: alter f j l'
  end.

(** The node a path designates. *)
Fixpoint lookup (p : path) (n : node) : option node :=
  match p with
  | [] => Some n
  | i :: q =>
      match n with
      | Elem _ _ ks =>
          match nth_error ks i with
          | Some k => lookup q k
          | None => None
          end
      | Text _ => None
      end
  end.

(** In-place change of the node a path designates. *)
Fixpoint update (p : path) (f : node -> node) (n : node) : node :=
  match p with
  | [] => f n
  | i :: q =>
      match n with
      | Elem t a ks => Elem t a (alter (update q f) i ks)
      | Text _ => n
      end
  end.

(** [textContent] of a node: the text of its descendants in tree order. *)
Fixpoint textContent (n : node) : string :=
  match n with
  | Text s => s
  | Elem _ _ ks => String.concat "" (map textContent ks)
  end.

(** The paths of the [i]-th, [i+1]-th, ... child, given those inside each. *)
Fixpoint number (i : nat) (ls : list (list path)) : list path :=
  match ls with
  | [] => []
  | l :: rest => map (cons i) l ++ number (S i) rest
  end.

(** The elements of a subtree in tree order, as paths from its root; the
    root comes first. *)
Fixpoint elements (n : node) : list path :=
  match n with
  | Text _ => []
  | Elem _ _ ks => [] :: number 0 (map elements ks)
  end.

(** ** Selectors *)

Inductive simple : Type :=
| Class (c : string)
| Id (i : string)
| Tag (t : string)
| HasAttr (k : string).

(** A compound selector is a conjunction of simple ones, a selector list a
    disjunction of compounds. *)
Definition compound := list simple.
Definition selector := list compound.

Definition matches_simple (s : simple) (n : node) : bool :=
  match n with
  | Text _ => false
  | Elem t a _ =>
      match s with
      | Class c => mem c (classList a)
      | Id i => match getAttribute "id" a with Some v => v =? i | None => false end
      | Tag t' => t =? t'
      | HasAttr k => hasAttribute k a
      end
  end.

Definition is_element (n : node) : bool :=
  match n with Elem _ _ _ => true | Text _ => false end.

Definition matches (sel : selector) (n : node) : bool :=
  is_element n && existsb (fun c => forallb (fun s => matches_simple s n) c) sel.

Definition matches_at (sel : selector) (d : node) (p : path) : bool :=
  match lookup p d with Some n => matches sel n | None => false end.

(** [document.querySelectorAll(sel)]: a static list, in tree order. *)
Definition querySelectorAll (sel : selector) (d : node) : list path :=
  filter (matches_at sel d) (elements d).

(** [el.querySelector(sel)] for the element at [p]: its first proper
    descendant that matches, as a path from the document root. *)
Definition querySelector (sel : selector) (d : node) (p : path) : option path :=
  match lookup p d with
  | Some n =>
      match filter (fun q => matches_at sel n q) (tl (elements n)) with
      | q :: _ => Some (p ++ q)
      | [] => None
      end
  | None => None
  end.

(** The inclusive ancestors of [p], nearest first. *)
Fixpoint ancestors (p : path) : list path :=
  match p with
  | [] => [[]]
  | i :: q => map (cons i) (ancestors q) ++ [[]]
  end.

(** [el.closest(sel)] *)
Definition closest (sel : selector) (d : node) (p : path) : option path :=
  find (matches_at sel d) (ancestors p).

Definition attrs_of (n : node) : attrs :=
  match n with Elem _ a _ => a | Text _ => [] end.

Definition getAttribute_at (k : string) (d : node) (p : path) : option string :=
  match lookup p d with
  | Some n => getAttribute k (attrs_of n)
  | None => None
  end.

Definition hasAttribute_at (k : string) (d : node) (p : path) : bool :=
  match getAttribute_at k d p with Some _ => true | None => false end.

Definition textContent_at (d : node) (p : path) : string :=
  match lookup p d with Some n => textContent n | None => "" end.

Definition set_attr (k v : string) (n : node) : node :=
  match n with
  | Elem t a ks => Elem t (setAttribute k v a) ks
  | Text _ => n
  end.

(** [el.setAttribute(k, v)] for the element at [p]. *)
Definition setAttribute_at (p : path) (k v : string) (d : node) : node :=
  update p (set_attr k v) d.

(** [el.innerHTML = markup], with [kids] the nodes the markup parses to. *)
Definition set_innerHTML (p : path) (kids : list node) (d : node) : node :=
  update p (fun n => match n with
                     | Elem t a _ => Elem t a kids
                     | Text _ => n
                     end) d.

(** [el.outerHTML = markup] for markup that parses to the single node
    [new]: the node at [p] gives way to [new], its siblings keep their
    places. *)
Definition set_outerHTML (p : path) (new : node) (d : node) : node :=
  update p (fun _ => new) d.

(** ** JavaScript values and the lookup table *)

Inductive value : Type :=
| Undefined
| Str (s : string)
| Inherited (name : string).

(** The table of the constructor, lines 7 to 45. *)
Definition iconMap : list (string * string) :=
  [ ("home", "home"); ("teacher", "graduation-cap"); ("student", "user");
    ("analytics", "bar-chart-3"); ("bot", "bot"); ("reports", "file-text");
    ("documents", "folder");
    ("menu", "menu"); ("send", "send"); ("upload", "upload");
    ("download", "download"); ("delete", "trash-2"); ("edit", "edit-2");
    ("search", "search"); ("settings", "settings"); ("close", "x");
    ("check", "check"); ("plus", "plus"); ("minus", "minus");
    ("chart", "bar-chart-3"); ("pie-chart", "pie-chart");
    ("trending-up", "trending-up"); ("trending-down", "trending-down");
    ("users", "users"); ("clock", "clock"); ("calendar", "calendar");
    ("success", "check-circle"); ("error", "x-circle");
    ("warning", "alert-triangle"); ("info", "info") ].

(** The table is an object literal, so a property that is not its own is
    looked up on [Object.prototype]; these are the properties ECMA-262
    (with its annex B) puts there.  Each is a function, or for [__proto__]
    the prototype object itself. *)
Definition Object_prototype : list string :=
  [ "constructor"; "hasOwnProperty"; "isPrototypeOf"; "propertyIsEnumerable";
    "toLocaleString"; "toString"; "valueOf"; "__proto__";
    "__defineGetter__"; "__defineSetter__"; "__lookupGetter__";
    "__lookupSetter__" ].

(** [o[k]] for an object literal [o] *)
Definition get (o : list (string * string)) (k : string) : value :=
  match getAttribute k o with
  | Some v => Str v
  | None => if mem k Object_prototype then Inherited k else Undefined
  end.

(** ToBoolean *)
Definition truthy (v : value) : bool :=
  match v with
  | Undefined => false
  | Str s => negb (s =? "")
  | Inherited _ => true
  end.

(** ToString; the text of a built-in function is the engine's, the usual
    one is given. *)
Definition ToString (v : value) : string :=
  match v with
  | Undefined => "undefined"
  | Str s => s
  | Inherited name =>
      if name =? "__proto__" then "[object Object]"
      else if name =? "constructor" then "function Object() { [native code] }"
      else "function " ++ name ++ "() { [native code] }"
  end.

Definition table_values : list string := map snd iconMap.

(** ** Completions *)

Inductive exn : Type := TypeError.

Inductive completion (A : Type) : Type :=
| Normal (a : A)
| Throw (e : exn).
Arguments Normal {A} a.
Arguments Throw {A} e.

Definition bindc {A B} (c : completion A) (k : A -> completion B) : completion B :=
  match c with
  | Normal a => k a
  | Throw e => Throw e
  end.

Notation "x <- c ;; k" := (bindc c (fun x => k))
  (at level 61, c at next level, right associativity).

(** [href === s] where [href] may be [null] *)
Definition strictEq (v : option string) (s : string) : bool :=
  match v with Some x => x =? s | None => false end.

(** [href.includes(s)]: a property read on [null] is a [TypeError]. *)
Definition call_includes (v : option string) (s : string) : completion bool :=
  match v with
  | Some x => Normal (includes s x)
  | None => Throw TypeError
  end.

(** [a || b] with [b] evaluated only when [a] is false *)
Definition orElse (a : bool) (b : completion bool) : completion bool :=
  if a then Normal true else b.

(** ** The navigation pass *)

Definition sel_nav_item : selector := [[Class "nav-item"]].
Definition sel_nav_item_icon : selector := [[Class "nav-item-icon"]].
Definition sel_data_lucide : selector := [[HasAttr "data-lucide"]].

(** Lines 75 to 91: the cascade that chooses [iconName]. *)
Definition navIconName (href : option string) (text : string) : completion value :=
  if strictEq href "/" || strictEq href "/index" then
    Normal (get iconMap "home")
  else
    teacher <- orElse (strictEq href "/teacher") (call_includes href "teacher") ;;
    if teacher then Normal (get iconMap "teacher")
    else
      student <- orElse (strictEq href "/student") (call_includes href "student") ;;
      if student then Normal (get iconMap "student")
      else
        analytics <- orElse (strictEq href "/analytics") (call_includes href "analytics") ;;
        if analytics then Normal (get iconMap "analytics")
        else if includes "Tutor IA" text then Normal (get iconMap "bot")
        else if includes "Relatório" text then Normal (get iconMap "reports")
        else if includes "Documento" text then Normal (get iconMap "documents")
        else Normal (Str "").

Section Host.

(** [String.prototype.toLowerCase], whose case tables are the host's. *)
Variable toLowerCase : string -> string.

(** Whether the host's [Element.tagName] is the getter-only accessor of
    the DOM standard.  A class body is strict code, so the assignment of
    line 95 then raises a [TypeError]; on a host whose elements accept
    the write the statement has no effect on the tree (an element's tag
    cannot change). *)
Variable tagNameReadOnly : bool.

Definition assign_tagName : completion unit :=
  if tagNameReadOnly then Throw TypeError else Normal tt.

(** The callback of lines 70 to 98, on the navigation item at [item]. *)
Definition navItem (item : path) (d : node) : node * completion unit :=
  let href := getAttribute_at "href" d item in
  match querySelector sel_nav_item_icon d item with
  | Some iconElement =>
      if negb (hasAttribute_at "data-lucide" d iconElement) then
        match navIconName href (textContent_at d item) with
        | Throw e => (d, Throw e)
        | Normal iconName =>
            if truthy iconName then
              (setAttribute_at iconElement "data-lucide" (ToString iconName) d,
               assign_tagName)
            else (d, Normal tt)
        end
      else (d, Normal tt)
  | None => (d, Normal tt)
  end.

(** [NodeList.prototype.forEach] with a callback that may throw. *)
Fixpoint forEach (f : path -> node -> node * completion unit)
    (l : list path) (d : node) : node * completion unit :=
  match l with
  | [] => (d, Normal tt)
  | x :: rest =>
      match f x d with
      | (d', Normal _) => forEach f rest d'
      | (d', Throw e) => (d', Throw e)
      end
  end.

Definition applyNavigationIcons (d : node) : node * completion unit :=
  forEach navItem (querySelectorAll sel_nav_item d) d.

(** ** The interface pass *)

Definition sel_menu_toggle : selector := [[Class "mobile-menu-toggle"]].
Definition sel_send_button : selector := [[Id "sendButton"]; [Class "send-button"]].
Definition sel_send_svg : selector := [[Tag "svg"; Class "send-icon"]].
Definition sel_file_icon : selector := [[Class "file-icon"]].
Definition sel_metric_icon : selector := [[Class "metric-icon"]].
Definition sel_file_parent : selector := [[Class "document-item"]; [Class "metric-card"]].
Definition sel_metric_parent : selector := [[Class "metric-card"]].

(** What the markup literals of lines 109 and 118 parse to where the
    parser builds an element from them. *)
Definition menu_markup : node := Elem "i" [("data-lucide", "menu")] [].
Definition send_markup : node := Elem "i" [("data-lucide", "send")] [].

(** The literal of line 109, as text. *)
Definition quote : string := String (ascii_of_nat 34) "".
Definition menu_text : string :=
  "<i data-lucide=" ++ quote ++ "menu" ++ quote ++ "></i>".

(** The elements whose content the fragment parser reads as text (the
    RCDATA, RAWTEXT, script data and PLAINTEXT states of the tokenizer;
    [noscript] is among them because scripting is enabled, the script being
    run), and those in which it drops an [i] tag (the insertion modes
    [in column group] and [in frameset]). *)
Definition text_contexts : list string :=
  [ "title"; "textarea"; "style"; "xmp"; "iframe"; "noembed"; "noframes";
    "script"; "noscript"; "plaintext" ].

Definition dropping_contexts : list string := [ "colgroup"; "frameset" ].

(** Hosts differ on [select]: a parser that has the insertion mode
    [in select] drops an [i] tag there, one that accepts markup in a
    customizable [select] keeps it.  [relaxedSelect] says that the host's
    parser keeps it. *)
Variable relaxedSelect : bool.

(** The children an element of local name [t] has after
    [el.innerHTML = '<i data-lucide="menu"></i>'] (HTML Standard, parsing
    HTML fragments): the markup as one text node, nothing, a [head] and a
    [body] around the icon element for the root element, which the parser
    completes, and otherwise the icon element.  [None] is for [template]:
    the setter fills the template's contents, a fragment of its own that
    is not among the children of the element, and these stay as they
    are. *)
Definition menu_fragment (t : string) : option (list node) :=
  if t =? "template" then None
  else if mem t text_contexts then Some [Text menu_text]
  else if mem t dropping_contexts || ((t =? "select") && negb relaxedSelect) then Some []
  else if t =? "html" then Some [Elem "head" [] []; Elem "body" [] [menu_markup]]
  else Some [menu_markup].

Definition localName (n : node) : string :=
  match n with Elem t _ _ => t | Text _ => "" end.

Definition localName_at (d : node) (p : path) : string :=
  match lookup p d with Some n => localName n | None => "" end.

(** [p] is an inclusive ancestor of [q] *)
Fixpoint is_prefix (p q : path) : bool :=
  match p, q with
  | [], _ => true
  | i :: p', j :: q' => Nat.eqb i j && is_prefix p' q'
  | _ :: _, [] => false
  end.

Definition strictly_inside (p q : path) : bool :=
  is_prefix p q && negb (is_prefix q p).

(** Lines 107 to 111.  The list is static: a button that sat inside
    markup replaced earlier in the loop is still visited, but it is then
    out of the document, and so is everything its callback reads or
    writes.  [gone] holds the buttons whose content has been replaced. *)
Fixpoint menuButtons (gone : list path) (l : list path) (d : node) : node :=
  match l with
  | [] => d
  | btn :: rest =>
      if existsb (fun g => strictly_inside g btn) gone then menuButtons gone rest d
      else match querySelector sel_data_lucide d btn with
           | None =>
               match menu_fragment (localName_at d btn) with
               | Some kids => menuButtons (btn :: gone) rest (set_innerHTML btn kids d)
               | None => menuButtons gone rest d
               end
           | Some _ => menuButtons gone rest d
           end
  end.

(** Lines 115 to 120; [gone] holds the places of the replaced svg
    elements, whose old content is out of the document.  The markup of
    line 118 is parsed for the parent of the [svg]; a parent for which it
    would parse to something else than the one element (one that reads
    its content as text or drops the tag, or the root element) has no
    [svg] child in a document the parser has built. *)
Fixpoint sendButtons (gone : list path) (l : list path) (d : node) : node :=
  match l with
  | [] => d
  | btn :: rest =>
      if existsb (fun g => is_prefix g btn) gone then sendButtons gone rest d
      else match querySelector sel_send_svg d btn with
           | Some svg => sendButtons (svg :: gone) rest (set_outerHTML svg send_markup d)
           | None => sendButtons gone rest d
           end
  end.

(** [this.iconMap.name] as an attribute value *)
Definition iconOf (name : string) : string := ToString (get iconMap name).

(** Lines 128 to 137, on the lowercased text of the container. *)
Definition fileIconName (text : string) : string :=
  if includes "professor" text || includes "teacher" text then iconOf "teacher"
  else if includes "estudante" text || includes "student" text then iconOf "student"
  else if includes "analytics" text || includes "métricas" text then iconOf "analytics"
  else iconOf "documents".

(** Lines 148 to 159. *)
Definition metricIconName (text : string) : string :=
  if includes "pergunta" text || includes "questão" text then "message-circle"
  else if includes "estudante" text || includes "usuário" text then "users"
  else if includes "disciplina" text || includes "matéria" text then "book"
  else if includes "tempo" text || includes "resposta" text then "clock"
  else "bar-chart-3".

(** The callback shared by lines 124 to 140 and 144 to 162: [parents] is
    the selector given to [closest], [name] the cascade. *)
Definition contextIcon (parents : selector) (name : string -> string)
    (icon : path) (d : node) : node :=
  if negb (hasAttribute_at "data-lucide" d icon)
     && (trim (textContent_at d icon) =? "") then
    match closest parents d icon with
    | Some parent =>
        let text := toLowerCase (textContent_at d parent) in
        setAttribute_at icon "data-lucide" (name text) d
    | None => d
    end
  else d.

Definition fileIcon : path -> node -> node := contextIcon sel_file_parent fileIconName.
Definition metricIcon : path -> node -> node := contextIcon sel_metric_parent metricIconName.

(** [forEach] with a callback that cannot throw *)
Definition each (f : path -> node -> node) (l : list path) (d : node) : node :=
  fold_left (fun d' x => f x d') l d.

Definition fileIcons (d : node) : node := each fileIcon (querySelectorAll sel_file_icon d) d.
Definition metricIcons (d : node) : node := each metricIcon (querySelectorAll sel_metric_icon d) d.

Definition applyInterfaceIcons (d : node) : node :=
  let d1 := menuButtons [] (querySelectorAll sel_menu_toggle d) d in
  let d2 := sendButtons [] (querySelectorAll sel_send_button d1) d1 in
  let d3 := fileIcons d2 in
  metricIcons d3.

(** ** The page *)

Inductive readiness : Type := loading | interactive | complete.

(** What a registered listener does when its event fires. *)
Inductive handler : Type := run_applyIcons.

(** [lucide] is [None] when the global is undefined, and otherwise counts
    the calls of [lucide.createIcons()]; what the library then draws is
    outside this development. *)
Record world : Type := World {
  document : node;
  readyState : readiness;
  listeners : list (string * handler);
  lucide : option nat
}.

Definition with_document (w : world) (d : node) : world :=
  World d (readyState w) (listeners w) (lucide w).

(** Lines 59 to 61 and 171 to 173. *)
Definition createIcons (w : world) : world :=
  match lucide w with
  | Some calls => World (document w) (readyState w) (listeners w) (Some (S calls))
  | None => w
  end.

(** Lines 51 to 62. *)
Definition applyIcons (w : world) : world * completion unit :=
  match applyNavigationIcons (document w) with
  | (d1, Throw e) => (with_document w d1, Throw e)
  | (d1, Normal _) =>
      (createIcons (with_document w (applyInterfaceIcons d1)), Normal tt)
  end.

(** Lines 168 to 175, for the node at [element].  A text node has no
    [setAttribute] method, and a path that designates nothing stands for
    [null]: the call is a [TypeError] for both. *)
Definition addIcon (element : path) (iconName : string) (w : world)
    : world * completion unit :=
  if truthy (get iconMap iconName) then
    match lookup element (document w) with
    | Some (Elem _ _ _) =>
        (createIcons
           (with_document w
              (setAttribute_at element "data-lucide"
                 (ToString (get iconMap iconName)) (document w))),
         Normal tt)
    | _ => (w, Throw TypeError)
    end
  else (w, Normal tt).

(** Lines 180 to 193. *)
Definition init (w : world) : world * completion unit :=
  match readyState w with
  | loading =>
      (World (document w) (readyState w)
         (listeners w ++ [("DOMContentLoaded", run_applyIcons)]) (lucide w),
       Normal tt)
  | _ => applyIcons w
  end.

Definition run (h : handler) (w : world) : world * completion unit :=
  match h with run_applyIcons => applyIcons w end.

End Host.

(** ** Notions used in the statements *)

(** A node without its children: what an element is by itself. *)
Definition own (n : node) : node :=
  match n with
  | Elem t a _ => Elem t a []
  | Text s => Text s
  end.

Definition own_at (d : node) (p : path) : option node := option_map own (lookup p d).

Definition children_of (n : node) : list node :=
  match n with Elem _ _ ks => ks | Text _ => [] end.

Definition removeAttribute (k : string) (a : attrs) : attrs :=
  filter (fun kv => negb (fst kv =? k)) a.

(** The document with every [data-lucide] attribute taken off: tags, text,
    children and all other attributes. *)
Fixpoint skeleton (n : node) : node :=
  match n with
  | Text s => Text s
  | Elem t a ks => Elem t (removeAttribute "data-lucide" a) (map skeleton ks)
  end.

(** Every [data-lucide] attribute of [d] is in [d'], at the same element
    and with the same value. *)
Definition keeps (d d' : node) : Prop :=
  forall q v, getAttribute_at "data-lucide" d q = Some v ->
              getAttribute_at "data-lucide" d' q = Some v.

(** [d'] is [d] with some icon attributes added. *)
Definition grows (d d' : node) : Prop := skeleton d = skeleton d' /\ keeps d d'.

(** A selector that does not look at the icon attribute. *)
Definition icon_blind (sel : selector) : bool :=
  forallb (forallb (fun s => match s with
                             | HasAttr k => negb (k =? "data-lucide")
                             | _ => true
                             end)) sel.

(** The icon identifiers the document shows. *)
Fixpoint lucideValues (n : node) : list string :=
  match n with
  | Text _ => []
  | Elem _ a ks =>
      match getAttribute "data-lucide" a with
      | Some v => [v]
      | None => []
      end ++ flat_map lucideValues ks
  end.

(** The interface pass finds no markup to replace: every menu toggle
    already holds an icon, and no send button holds an [svg.send-icon]. *)
Definition nothing_to_replace (d : node) : bool :=
  forallb (fun btn => match querySelector sel_data_lucide d btn with
                      | Some _ => true
                      | None => false
                      end) (querySelectorAll sel_menu_toggle d)
  && forallb (fun btn => match querySelector sel_send_svg d btn with
                         | Some _ => false
                         | None => true
                         end) (querySelectorAll sel_send_button d).

(** The identifiers the metric-icon loop writes (lines 150 to 158). *)
Definition metric_values : list string :=
  ["message-circle"; "users"; "book"; "clock"; "bar-chart-3"].

(** [applyIcons()] called twice, the second call on the page as the first
    one left it.  Each call is a statement of its own, as when the first
    is the one of [init] and the second is made later by the page: the
    second runs whatever the first did, and its completion is the one
    returned. *)
Definition applyIconsTwice (toLowerCase : string -> string)
    (tagNameReadOnly relaxedSelect : bool) (w : world) : world * completion unit :=
  applyIcons toLowerCase tagNameReadOnly relaxedSelect
    (fst (applyIcons toLowerCase tagNameReadOnly relaxedSelect w)).

(** [el.querySelectorAll(sel)] for the element at [p]: its proper
    descendants that match, in tree order. *)
Definition querySelectorAll_in (sel : selector) (d : node) (p : path) : list path :=
  match lookup p d with
  | Some n => map (app p) (filter (fun q => matches_at sel n q) (tl (elements n)))
  | None => []
  end.

(** Every send button holds at most one [svg.send-icon]. *)
Definition one_svg_each (d : node) : bool :=
  forallb (fun btn => Nat.leb (length (querySelectorAll_in sel_send_svg d btn)) 1)
    (querySelectorAll sel_send_button d).

(** The markup the interface pass may replace: the content of a menu
    toggle that holds no icon, and an [svg.send-icon] inside a send
    button. *)
Definition bare_toggle (d : node) (p : path) : bool :=
  matches_at sel_menu_toggle d p
  && match querySelector sel_data_lucide d p with Some _ => false | None => true end.

Definition send_svg (d : node) (p : path) : bool :=
  matches_at sel_send_svg d p
  && existsb (matches_at sel_send_button d) (tl (ancestors p)).

(** The element at [p] and its descendants. *)
Definition subtree (d : node) (p : path) : list path :=
  match lookup p d with
  | Some n => map (app p) (elements n)
  | None => []
  end.

(** No navigation item is, or holds, a menu toggle without icon or an
    [svg.send-icon] of a send button: the markup the interface pass
    replaces is no part of a navigation item. *)
Definition nav_items_whole (d : node) : bool :=
  forallb (fun item => forallb (fun q => negb (bare_toggle d q) && negb (send_svg d q))
                         (subtree d item))
    (querySelectorAll sel_nav_item d).

(** Nodes that are all text. *)
Definition plain (ks : list node) : bool := forallb (fun k => negb (is_element k)) ks.

(** The elements the fragment parser can build from the literal of line
    109, and a selector that matches none of them nor the element of line
    118: every selector of the script but [[data-lucide]] is one. *)
Definition fragment_nodes : list node :=
  [ menu_markup; Elem "head" [] []; Elem "body" [] [menu_markup] ].

Definition markup_blind (sel : selector) : bool :=
  forallb (fun n => negb (matches sel n)) (send_markup :: fragment_nodes).

(** ** The navigation rules, as the specification words them *)

(** One rule: a test on the link target and the text, and the category it
    selects. *)
Definition rule : Type := (option string -> string -> bool) * string.

Definition href_equals (s : string) (href : option string) (_ : string) : bool :=
  strictEq href s.

Definition href_contains (s : string) (href : option string) (_ : string) : bool :=
  match href with Some h => includes s h | None => false end.

Definition text_contains (s : string) (_ : option string) (text : string) : bool :=
  includes s text.

Definition either (f g : option string -> string -> bool) (href : option string)
    (text : string) : bool :=
  f href text || g href text.

(** The rules in the priority order the specification gives: home, teacher,
    student, analytics, then the text fallbacks. *)
Definition nav_rules : list rule :=
  [ (either (href_equals "/") (href_equals "/index"), "home");
    (either (href_equals "/teacher") (href_contains "teacher"), "teacher");
    (either (href_equals "/student") (href_contains "student"), "student");
    (either (href_equals "/analytics") (href_contains "analytics"), "analytics");
    (text_contains "Tutor IA", "bot");
    (text_contains "Relatório", "reports");
    (text_contains "Documento", "documents") ].

(** The category of the first rule that matches, if any. *)
Definition first_match (href : option string) (text : string) : option string :=
  option_map snd (find (fun r : rule => fst r href text) nav_rules).

(** ** Sample pages *)

Definition page (body : list node) : node :=
  Elem "html" [] [Elem "head" [] []; Elem "body" [] body].

(** A navigation entry that is not a link: no [href], an icon placeholder
    and a label. *)
Definition tutor_entry : node :=
  Elem "button" [("class", "nav-item")]
    [Elem "span" [("class", "nav-item-icon")] []; Text "Tutor IA"].

Definition tutor_page : node := page [tutor_entry].

Definition teacher_link : node :=
  Elem "a" [("class", "nav-item"); ("href", "/teacher")]
    [Elem "span" [("class", "nav-item-icon")] []; Text "Professores"].

Definition teacher_page : node := page [teacher_link].

(** An element that already carries an icon. *)
Definition starred_page : node :=
  page [Elem "span" [("class", "badge"); ("data-lucide", "star")] []].

(** A send button that holds two [svg.send-icon] elements. *)
Definition two_svg_page : node :=
  page [Elem "button" [("id", "sendButton")]
          [Elem "svg" [("class", "send-icon")] [];
           Elem "svg" [("class", "send-icon")] []]].

(** A page with a link, a document entry and two metric cards, and no
    markup for the interface pass to replace. *)
Definition sample_page : node :=
  page [teacher_link;
        Elem "div" [("class", "document-item")]
          [Elem "span" [("class", "file-icon")] []; Text "Lista de Estudantes"];
        Elem "div" [("class", "document-item")]
          [Elem "span" [("class", "file-icon")] [Text "  "]; Text "Ata da reunião"];
        Elem "div" [("class", "metric-card")]
          [Elem "span" [("class", "metric-icon")] []; Text "Perguntas hoje"];
        Elem "div" [("class", "metric-card")]
          [Elem "span" [("class", "metric-icon")] []; Text "Disciplinas"]].

(** A metric card about questions. *)
Definition questions_page : node :=
  page [Elem "div" [("class", "metric-card")]
          [Elem "span" [("class", "metric-icon")] []; Text "Perguntas hoje"]].

(** A navigation entry whose label is split by a menu toggle. *)
Definition split_label_page : node :=
  page [Elem "a" [("class", "nav-item"); ("href", "/chat")]
          [Elem "span" [("class", "nav-item-icon")] [];
           Text "Tutor ";
           Elem "button" [("class", "mobile-menu-toggle")] [Text "+"];
           Text "IA"]].

(** A navigation entry nested in another one; the only icon placeholder is
    in the inner entry. *)
Definition nested_nav_page : node :=
  page [Elem "li" [("class", "nav-item"); ("href", "/student")]
          [Text "Alunos";
           Elem "a" [("class", "nav-item"); ("href", "/teacher")]
             [Elem "i" [("class", "nav-item-icon")] []; Text "Professores"]]].

(** The same nesting, with an inner entry that no rule matches. *)
Definition nested_plain_page : node :=
  page [Elem "li" [("class", "nav-item"); ("href", "/analytics")]
          [Text "Painel";
           Elem "a" [("class", "nav-item"); ("href", "/perfil")]
             [Elem "i" [("class", "nav-item-icon")] []; Text "Perfil"]]].

(** A link whose icon placeholder is labelled in the markup. *)
Definition labelled_link_page : node :=
  page [Elem "a" [("class", "nav-item"); ("href", "/teacher")]
          [Elem "i" [("class", "nav-item-icon"); ("data-lucide", "star")] [];
           Text "Professores"]].

(** A lowercasing of the ASCII letters, to instantiate [toLowerCase] on the
    sample pages. *)
Definition lower_ascii (c : ascii) : ascii :=
  let n := nat_of_ascii c in
  if Nat.leb 65 n && Nat.leb n 90 then ascii_of_nat (n + 32) else c.

Fixpoint lower (s : string) : string :=
  match s with
  | EmptyString => EmptyString
  | String c rest => String (lower_ascii c) (lower rest)
  end.


(** ** The script as loaded *)

(** The page together with what line 200 publishes: whether
    [window.IconManager] has been assigned. *)
Record browser : Type := Browser {
  page_world : world;
  exported : bool
}.

(** Lines 196 to 200, the statements of the script after the class: the
    call of [init] and then the assignment to [window.IconManager].  An
    exception of the first statement ends the script. *)
Definition load (toLowerCase : string -> string) (tagNameReadOnly relaxedSelect : bool)
    (b : browser) : browser * completion unit :=
  match init toLowerCase tagNameReadOnly relaxedSelect (page_world b) with
  | (w, Normal _) => (Browser w true, Normal tt)
  | (w, Throw e) => (Browser w (exported b), Throw e)
  end.

(** ** Where a node lies *)

(** The node at [q] lies inside an element that matches [sel]. *)
Definition inside (sel : selector) (d : node) (q : path) : bool :=
  existsb (matches_at sel d) (tl (ancestors q)).

(** The node at [q] matches [sel] or lies inside an element that does. *)
Definition at_or_inside (sel : selector) (d : node) (q : path) : bool :=
  existsb (matches_at sel d) (ancestors q).

(** ** The state the replacement loops leave *)

Definition children_at (d : node) (p : path) : option (list node) :=
  option_map children_of (lookup p d).

(** Whether the markup of line 109, assigned to the [innerHTML] of an
    element of local name [t], gives it an icon element. *)
Definition takes_icon (relaxedSelect : bool) (t : string) : bool :=
  match menu_fragment relaxedSelect t with
  | Some kids => negb (plain kids)
  | None => false
  end.

(** A toggle the menu step has nothing more to do on: it holds an icon,
    or it is one of the elements the markup gives no icon, and holds what
    the markup gives it. *)
Definition menu_done (relaxedSelect : bool) (d : node) (T : path) : Prop :=
  querySelector sel_data_lucide d T <> None
  \/ match menu_fragment relaxedSelect (localName_at d T) with
     | Some kids => children_at d T = Some kids /\ plain kids = true
     | None => True
     end.

(** No send button has two [svg.send-icon] descendants. *)
Definition one_svg_below (d : node) : Prop :=
  forall B r1 r2,
    matches_at sel_send_button d B = true -> r1 <> [] -> r2 <> [] ->
    matches_at sel_send_svg d (B ++ r1) = true ->
    matches_at sel_send_svg d (B ++ r2) = true -> r1 = r2.

(** The guards of lines 74 and 93, read on the item at [item]: the
    callback of the navigation pass has nothing to set. *)
Definition nav_settled (d : node) (item : path) : bool :=
  match querySelector sel_nav_item_icon d item with
  | Some iconElement =>
      hasAttribute_at "data-lucide" d iconElement
      || match navIconName (getAttribute_at "href" d item) (textContent_at d item) with
         | Normal iconName => negb (truthy iconName)
         | Throw _ => false
         end
  | None => true
  end.

(** ** More sample pages *)

(** A page with two links; on a host with the read-only [tagName] only the
    first is labelled. *)
Definition two_links_page : node :=
  page [teacher_link;
        Elem "a" [("class", "nav-item"); ("href", "/student")]
          [Elem "span" [("class", "nav-item-icon")] []; Text "Alunos"]].

(** A menu toggle nested in another one, and a send button. *)
Definition toolbar_page : node :=
  page [Elem "button" [("class", "mobile-menu-toggle")]
          [Text "menu";
           Elem "button" [("class", "mobile-menu-toggle")] [Text "more"]];
        Elem "button" [("class", "send-button"); ("title", "Enviar")]
          [Elem "svg" [("class", "send-icon")] [Elem "path" [] []]; Text "Enviar"]].

(** A navigation entry without [href] whose placeholder is labelled in the
    markup. *)
Definition labelled_button_page : node :=
  page [Elem "button" [("class", "nav-item")]
          [Elem "i" [("class", "nav-item-icon"); ("data-lucide", "bot")] [];
           Text "Tutor IA"]].


(** A menu toggle that reads its content as text. *)
Definition textarea_toggle_page : node :=
  page [Elem "textarea" [("class", "mobile-menu-toggle")] [Text "Menu"]].

(** A page on which the interface pass replaces markup: a bare menu
    toggle and a send button with its [svg], beside a link that no rule
    matches, a link labelled in the markup, a document entry and a metric
    card. *)
Definition chat_page : node :=
  page [Elem "a" [("class", "nav-item"); ("href", "/perfil")]
          [Elem "span" [("class", "nav-item-icon")] []; Text "Perfil"];
        Elem "a" [("class", "nav-item"); ("href", "/teacher")]
          [Elem "i" [("class", "nav-item-icon"); ("data-lucide", "star")] [];
           Text "Professores"];
        Elem "button" [("class", "mobile-menu-toggle")] [Text "Menu"];
        Elem "button" [("id", "sendButton")]
          [Elem "svg" [("class", "send-icon")] [Elem "path" [] []]; Text "Enviar"];
        Elem "div" [("class", "document-item")]
          [Elem "span" [("class", "file-icon")] []; Text "Lista de Estudantes"];
        Elem "div" [("class", "metric-card")]
          [Elem "span" [("class", "metric-icon")] []; Text "Perguntas hoje"]].

(** The same interface markup beside a link the navigation pass labels. *)
Definition teacher_chat_page : node :=
  page [teacher_link;
        Elem "button" [("class", "mobile-menu-toggle")] [Text "Menu"];
        Elem "button" [("class", "send-button")]
          [Elem "svg" [("class", "send-icon")] []]].
(** * Properties *)

(** ** Strings *)

Lemma prefix_spec (n h : string) :
  prefix n h = true <-> exists post, h = (n ++ post)%string.
Proof.
  revert h. induction n as [|a n IH]; intros h.
  - split; [intros _; now exists h | intros _; now destruct h].
  - destruct h as [|b h]; simpl;
      [split; [discriminate | intros [post H]; discriminate]|].
    destruct (ascii_dec a b) as [->|Hne].
    + rewrite IH. split; intros [post H]; exists post; [now rewrite H | now injection H].
    + split; [discriminate | intros [post H]; injection H as H _; congruence].
Qed.

Lemma includes_unfold (n h : string) :
  includes n h = if prefix n h then true
                 else match h with
                      | EmptyString => false
                      | String _ rest => includes n rest
                      end.
Proof. now destruct h. Qed.

(** [includes] is the substring test. *)
Lemma includes_spec (n h : string) :
  includes n h = true <-> exists pre post, h = (pre ++ n ++ post)%string.
Proof.
  split.
  - induction h as [|c h IH]; rewrite includes_unfold;
      destruct (prefix n _) eqn:E; try discriminate.
    + intros _. apply prefix_spec in E. destruct E as [post E]. now exists "", post.
    + intros _. apply prefix_spec in E. destruct E as [post E]. now exists "", post.
    + intros H. destruct (IH H) as (pre & post & ->). now exists (String c pre), post.
  - intros (pre & post & ->). induction pre as [|c pre IH]; rewrite includes_unfold.
    + assert (E : prefix n (n ++ post)%string = true)
        by (apply prefix_spec; now exists post).
      simpl. now rewrite E.
    + simpl. rewrite IH. now destruct (match n with EmptyString => _ | String _ _ => _ end).
Qed.

Example includes_accented : includes "métricas" "painel de métricas" = true.
Proof. reflexivity. Qed.

Example trim_inner_space_kept : trim "  Tutor IA  " = "Tutor IA".
Proof. reflexivity. Qed.

Example tokens_of_class : tokens " nav-item  active " = ["nav-item"; "active"].
Proof. reflexivity. Qed.

(** ** Attribute lists *)

Lemma getAttribute_setAttribute (k v : string) (a : attrs) :
  getAttribute k (setAttribute k v a) = Some v.
Proof.
  induction a as [|[k' v'] a IH]; simpl.
  - now rewrite String.eqb_refl.
  - destruct (k' =? k) eqn:E; simpl; now rewrite E.
Qed.

Lemma getAttribute_setAttribute_other (k k' v : string) (a : attrs) :
  k' <> k -> getAttribute k' (setAttribute k v a) = getAttribute k' a.
Proof.
  intros Hne. induction a as [|[k0 v0] a IH]; simpl.
  - destruct (String.eqb_spec k k'); congruence.
  - destruct (String.eqb_spec k0 k) as [->|]; simpl.
    + destruct (String.eqb_spec k k'); congruence.
    + now rewrite IH.
Qed.

(** ** Paths *)

Lemma nth_error_alter {A} (f : A -> A) (i j : nat) (l : list A) :
  nth_error (alter f i l) j
  = if Nat.eqb i j then option_map f (nth_error l j) else nth_error l j.
Proof.
  revert i j. induction l as [|x l IH]; intros i j.
  - destruct i, j; simpl; try reflexivity. now destruct (Nat.eqb i j).
  - destruct i, j; simpl; try reflexivity. apply IH.
Qed.

Lemma alter_ext_at {A} (f : A -> A) (i : nat) (l : list A) :
  (forall x, nth_error l i = Some x -> f x = x) -> alter f i l = l.
Proof.
  revert i. induction l as [|x l IH]; intros [|i] H; simpl; try reflexivity.
  - now rewrite (H x).
  - now rewrite IH.
Qed.

Lemma map_alter {A B} (g : A -> B) (f : A -> A) (i : nat) (l : list A) :
  (forall x, nth_error l i = Some x -> g (f x) = g x) ->
  map g (alter f i l) = map g l.
Proof.
  revert i. induction l as [|x l IH]; intros [|i] H; simpl; try reflexivity.
  - now rewrite (H x).
  - now rewrite IH.
Qed.

Lemma lookup_update (p : path) (f : node -> node) (d : node) :
  lookup p (update p f d) = option_map f (lookup p d).
Proof.
  revert d. induction p as [|i p IH]; intros d; simpl; [reflexivity|].
  destruct d as [t a ks|s]; simpl; [|reflexivity].
  rewrite nth_error_alter, Nat.eqb_refl.
  destruct (nth_error ks i); simpl; [apply IH | reflexivity].
Qed.

Lemma update_fixed (p : path) (f : node -> node) (d : node) :
  (forall n, lookup p d = Some n -> f n = n) -> update p f d = d.
Proof.
  revert d. induction p as [|i p IH]; intros d; simpl; [intros H; now apply H|].
  destruct d as [t a ks|s]; [|reflexivity].
  intros H. f_equal. apply alter_ext_at. intros x Hx. rewrite Hx in H. now apply IH.
Qed.


(** A change of the node at [p] that keeps its children is invisible at
    every other path. *)
Lemma own_at_update (f : node -> node) (p q : path) (d : node) :
  (forall n, children_of (f n) = children_of n) ->
  (forall s, exists s', f (Text s) = Text s') ->
  q <> p -> own_at (update p f d) q = own_at d q.
Proof.
  intros Hc Ht. unfold own_at. revert q d.
  induction p as [|i p IH]; intros q d Hne; simpl.
  - destruct q as [|j q]; [congruence|]. simpl.
    destruct d as [t a ks|s].
    + specialize (Hc (Elem t a ks)). destruct (f (Elem t a ks)); simpl in *; subst;
        [reflexivity | now destruct j].
    + destruct (Ht s) as [s' ->]. reflexivity.
  - destruct d as [t a ks|s]; [|reflexivity].
    destruct q as [|j q]; [reflexivity|]. simpl.
    rewrite nth_error_alter. destruct (Nat.eqb_spec i j) as [->|]; [|reflexivity].
    destruct (nth_error ks j) as [k|]; simpl; [|reflexivity].
    apply IH. congruence.
Qed.

Lemma set_attr_children (k v : string) (n : node) :
  children_of (set_attr k v n) = children_of n.
Proof. now destruct n. Qed.

Lemma set_attr_text (k v s : string) : exists s', set_attr k v (Text s) = Text s'.
Proof. now exists s. Qed.

Lemma getAttribute_at_own (k : string) (d : node) (p : path) :
  getAttribute_at k d p = match own_at d p with
                          | Some n => getAttribute k (attrs_of n)
                          | None => None
                          end.
Proof.
  unfold getAttribute_at, own_at. destruct (lookup p d) as [[| ]|]; reflexivity.
Qed.

(** Setting an attribute of one element leaves the others as they were. *)
Lemma own_at_setAttribute_at (p q : path) (k v : string) (d : node) :
  q <> p -> own_at (setAttribute_at p k v d) q = own_at d q.
Proof.
  apply own_at_update; [apply set_attr_children | apply set_attr_text].
Qed.

Lemma getAttribute_at_setAttribute_at_other (p q : path) (k k' v : string) (d : node) :
  q <> p -> getAttribute_at k' (setAttribute_at p k v d) q = getAttribute_at k' d q.
Proof.
  intros H. now rewrite !getAttribute_at_own, own_at_setAttribute_at.
Qed.

Lemma lookup_setAttribute_at (p : path) (k v : string) (d : node) :
  lookup p (setAttribute_at p k v d) = option_map (set_attr k v) (lookup p d).
Proof. apply lookup_update. Qed.

Lemma getAttribute_at_setAttribute_at (p : path) (k v t : string) (a : attrs)
    (ks : list node) (d : node) :
  lookup p d = Some (Elem t a ks) ->
  getAttribute_at k (setAttribute_at p k v d) p = Some v.
Proof.
  intros H. unfold getAttribute_at. rewrite lookup_setAttribute_at, H. simpl.
  apply getAttribute_setAttribute.
Qed.

Lemma getAttribute_at_setAttribute_at_key (p q : path) (k k' v : string) (d : node) :
  k' <> k -> getAttribute_at k' (setAttribute_at p k v d) q = getAttribute_at k' d q.
Proof.
  intros Hk. destruct (list_eq_dec Nat.eq_dec q p) as [->|Hq].
  - unfold getAttribute_at. rewrite lookup_setAttribute_at.
    destruct (lookup p d) as [[t a ks|s]|]; simpl; try reflexivity.
    now apply getAttribute_setAttribute_other.
  - now apply getAttribute_at_setAttribute_at_other.
Qed.

Lemma lookup_app (p r : path) (d : node) :
  lookup (p ++ r) d = match lookup p d with
                      | Some n => lookup r n
                      | None => None
                      end.
Proof.
  revert d. induction p as [|i p IH]; intros d; simpl; [reflexivity|].
  destruct d as [t a ks|s]; [|reflexivity].
  destruct (nth_error ks i); [apply IH | reflexivity].
Qed.

Lemma matches_element (sel : selector) (n : node) :
  matches sel n = true -> exists t a ks, n = Elem t a ks.
Proof. destruct n as [t a ks|s]; [now exists t, a, ks | discriminate]. Qed.

Lemma matches_at_element (sel : selector) (d : node) (p : path) :
  matches_at sel d p = true ->
  exists t a ks, lookup p d = Some (Elem t a ks) /\ matches sel (Elem t a ks) = true.
Proof.
  unfold matches_at. destruct (lookup p d) as [n|]; [|discriminate].
  intros H. destruct (matches_element _ _ H) as (t & a & ks & ->). now exists t, a, ks.
Qed.

(** What [querySelector] returns is an element that matches, below [p]. *)
Lemma querySelector_Some (sel : selector) (d : node) (p q : path) :
  querySelector sel d p = Some q ->
  exists r, q = p ++ r /\ r <> [] /\ matches_at sel d q = true.
Proof.
  unfold querySelector. destruct (lookup p d) as [n|] eqn:Hn; [|discriminate].
  destruct (filter _ _) as [|r l] eqn:Hf; [discriminate|]. intros [= <-].
  assert (Hr : In r (filter (fun q => matches_at sel n q) (tl (elements n))))
    by (rewrite Hf; now left).
  apply filter_In in Hr. destruct Hr as [Hin Hm].
  exists r. split; [reflexivity|]. split.
  - intros ->. destruct n as [t a ks|s]; simpl in Hin; [|contradiction].
    clear -Hin. revert Hin. generalize 0. induction (map elements ks) as [|l ls IH];
      simpl; intros i H; [assumption|].
    apply in_app_or in H. destruct H as [H|H]; [|now apply IH in H].
    apply in_map_iff in H. now destruct H as (? & ? & _).
  - unfold matches_at in *. now rewrite lookup_app, Hn.
Qed.

Lemma querySelector_element (sel : selector) (d : node) (p q : path) :
  querySelector sel d p = Some q -> exists t a ks, lookup q d = Some (Elem t a ks).
Proof.
  intros H. destruct (querySelector_Some _ _ _ _ H) as (r & _ & _ & Hm).
  destruct (matches_at_element _ _ _ Hm) as (t & a & ks & Hl & _). now exists t, a, ks.
Qed.

Lemma querySelectorAll_element (sel : selector) (d : node) (p : path) :
  In p (querySelectorAll sel d) -> exists t a ks, lookup p d = Some (Elem t a ks).
Proof.
  unfold querySelectorAll. rewrite filter_In. intros [_ Hm].
  destruct (matches_at_element _ _ _ Hm) as (t & a & ks & Hl & _). now exists t, a, ks.
Qed.

(** ** The lookup table *)

Lemma getAttribute_In (k v : string) (a : attrs) :
  getAttribute k a = Some v -> In (k, v) a.
Proof.
  induction a as [|[k' v'] a IH]; simpl; [discriminate|].
  destruct (String.eqb_spec k' k) as [->|]; [intros [= ->]; now left | auto].
Qed.

Lemma table_value (k v : string) :
  getAttribute k iconMap = Some v -> In v table_values.
Proof. intros H. apply (in_map snd _ _ (getAttribute_In _ _ _ H)). Qed.

Lemma table_values_truthy (v : string) : In v table_values -> truthy (Str v) = true.
Proof.
  assert (H : forallb (fun v => truthy (Str v)) table_values = true) by reflexivity.
  rewrite forallb_forall in H. apply H.
Qed.

Lemma get_known (k v : string) : getAttribute k iconMap = Some v -> get iconMap k = Str v.
Proof. unfold get. now intros ->. Qed.

Lemma mem_In (x : string) (l : list string) : mem x l = true <-> In x l.
Proof.
  unfold mem. rewrite existsb_exists. split.
  - intros [y [Hy E]]. apply String.eqb_eq in E. now subst.
  - intros H. exists x. split; [assumption | apply String.eqb_refl].
Qed.

(** No name of [Object.prototype] is a key of the table. *)
Lemma inherited_not_key (k : string) :
  mem k Object_prototype = true -> getAttribute k iconMap = None.
Proof.
  rewrite mem_In. unfold Object_prototype. simpl.
  intros H. repeat (destruct H as [<-|H]; [reflexivity|]). contradiction.
Qed.

(** ** The navigation cascade, against the ordered rules of the specification *)


(** On an item that has a link target the cascade of the code is the
    first-match reading of the rules. *)
Lemma navIconName_first_match (h text : string) :
  navIconName (Some h) text
  = Normal (match first_match (Some h) text with
            | Some category => get iconMap category
            | None => Str ""
            end).
Proof.
  unfold navIconName, first_match, nav_rules, either, href_equals, href_contains,
    text_contains, orElse, call_includes, strictEq. simpl.
  destruct (h =? "/"), (h =? "/index"); simpl; try reflexivity;
  destruct (h =? "/teacher"), (includes "teacher" h); simpl; try reflexivity;
  destruct (h =? "/student"), (includes "student" h); simpl; try reflexivity;
  destruct (h =? "/analytics"), (includes "analytics" h); simpl; try reflexivity;
  destruct (includes "Tutor IA" text); simpl; try reflexivity;
  destruct (includes "Relatório" text); simpl; try reflexivity;
  destruct (includes "Documento" text); reflexivity.
Qed.

(** Without a link target the cascade stops at its first [includes]. *)
Lemma navIconName_null (text : string) : navIconName None text = Throw TypeError.
Proof. reflexivity. Qed.

Lemma navItem_null_href (ro : bool) (d : node) (item iconElement : path) :
  getAttribute_at "href" d item = None ->
  querySelector sel_nav_item_icon d item = Some iconElement ->
  hasAttribute_at "data-lucide" d iconElement = false ->
  navItem ro item d = (d, Throw TypeError).
Proof. intros Hh Hq Ha. unfold navItem. now rewrite Hq, Ha, Hh. Qed.

(** The teacher rule, for an item that has a link target. *)
Lemma navItem_teacher (ro : bool) (d : node) (item iconElement : path) (h : string) :
  getAttribute_at "href" d item = Some h ->
  h = "/teacher" \/ includes "teacher" h = true ->
  querySelector sel_nav_item_icon d item = Some iconElement ->
  hasAttribute_at "data-lucide" d iconElement = false ->
  getAttribute_at "data-lucide" (fst (navItem ro item d)) iconElement
  = Some "graduation-cap".
Proof.
  intros Hh Ht Hq Ha. destruct (querySelector_element _ _ _ _ Hq) as (t & a & ks & Hl).
  unfold navItem. rewrite Hq, Ha, Hh. simpl.
  assert (E : navIconName (Some h) (textContent_at d item) = Normal (Str "graduation-cap")).
  { unfold navIconName, orElse, call_includes, strictEq.
    destruct Ht as [-> | Ht]; [reflexivity|].
    destruct (String.eqb_spec h "/") as [->|]; [discriminate|].
    destruct (String.eqb_spec h "/index") as [->|]; [discriminate|]. simpl.
    rewrite Ht. now destruct (h =? "/teacher"). }
  rewrite E. simpl. eapply getAttribute_at_setAttribute_at; eassumption.
Qed.

(** On a host with the standard read-only [tagName], the callback that
    labels an item ends with the [TypeError] of line 95, the attribute
    already set; the items after it are not visited. *)
Lemma navItem_read_only_tagName (d : node) (item iconElement : path) (name : value) :
  querySelector sel_nav_item_icon d item = Some iconElement ->
  hasAttribute_at "data-lucide" d iconElement = false ->
  navIconName (getAttribute_at "href" d item) (textContent_at d item) = Normal name ->
  truthy name = true ->
  navItem true item d
  = (setAttribute_at iconElement "data-lucide" (ToString name) d, Throw TypeError).
Proof. intros Hq Ha Hn Ht. unfold navItem. now rewrite Hq, Ha, Hn, Ht. Qed.

(** ** The page around the document *)

Lemma with_document_same (w : world) : with_document w (document w) = w.
Proof. now destruct w. Qed.

Lemma createIcons_document (w : world) : document (createIcons w) = document w.
Proof. unfold createIcons. now destruct (lucide w). Qed.

Lemma createIcons_listeners (w : world) : listeners (createIcons w) = listeners w.
Proof. unfold createIcons. now destruct (lucide w). Qed.

Lemma createIcons_readyState (w : world) : readyState (createIcons w) = readyState w.
Proof. unfold createIcons. now destruct (lucide w). Qed.

Lemma createIcons_lucide (w : world) : lucide (createIcons w) = option_map S (lucide w).
Proof. now destruct w as [d r l [n|]]. Qed.

Lemma applyIcons_listeners (lc : string -> string) (ro sr : bool) (w : world) :
  listeners (fst (applyIcons lc ro sr w)) = listeners w.
Proof.
  unfold applyIcons. destruct (applyNavigationIcons ro (document w)) as [d1 [[]|e]]; simpl.
  - now rewrite createIcons_listeners.
  - reflexivity.
Qed.

Lemma applyIcons_document (lc : string -> string) (ro sr : bool) (w : world) :
  document (fst (applyIcons lc ro sr w))
  = match applyNavigationIcons ro (document w) with
    | (d1, Normal _) => applyInterfaceIcons lc sr d1
    | (d1, Throw _) => d1
    end.
Proof.
  unfold applyIcons. destruct (applyNavigationIcons ro (document w)) as [d1 [[]|e]]; simpl.
  - now rewrite createIcons_document.
  - reflexivity.
Qed.

(** ** What goes wrong on an entry without a link target *)

(** C2.  The specification says that no document makes a pass throw, and
    that a navigation item without [href] is skipped.  The code: when the
    first navigation item of the document has no [href] attribute and its
    icon placeholder has no [data-lucide] attribute yet, line 79 calls
    [includes] on [null]; the navigation pass and [applyIcons] end with a
    [TypeError], the document as it was, the interface pass and the
    rendering call not reached. *)
Theorem applyIcons_throws_without_href (lc : string -> string) (ro sr : bool)
    (w : world) (item iconElement : path) (rest : list path) :
  querySelectorAll sel_nav_item (document w) = item :: rest ->
  getAttribute_at "href" (document w) item = None ->
  querySelector sel_nav_item_icon (document w) item = Some iconElement ->
  hasAttribute_at "data-lucide" (document w) iconElement = false ->
  applyNavigationIcons ro (document w) = (document w, Throw TypeError)
  /\ applyIcons lc ro sr w = (w, Throw TypeError).
Proof.
  intros Hl Hh Hq Ha.
  assert (E : applyNavigationIcons ro (document w) = (document w, Throw TypeError)).
  { unfold applyNavigationIcons. rewrite Hl. simpl.
    now rewrite (navItem_null_href ro _ _ _ Hh Hq Ha). }
  split; [exact E|]. unfold applyIcons. rewrite E. now rewrite with_document_same.
Qed.

Lemma applyIcons_throws_without_href_witness :
  applyNavigationIcons false tutor_page = (tutor_page, Throw TypeError)
  /\ applyIcons lower false false (World tutor_page complete [] (Some 0))
     = (World tutor_page complete [] (Some 0), Throw TypeError).
Proof.
  apply (applyIcons_throws_without_href lower false false
           (World tutor_page complete [] (Some 0)) [1; 0] [1; 0; 0] []); reflexivity.
Defined.

(** ** [addIcon] *)

Lemma addIcon_known (element : path) (iconName mapped t : string) (a : attrs)
    (ks : list node) (w : world) :
  getAttribute iconName iconMap = Some mapped ->
  lookup element (document w) = Some (Elem t a ks) ->
  addIcon element iconName w
  = (createIcons (with_document w
       (setAttribute_at element "data-lucide" mapped (document w))), Normal tt).
Proof.
  intros Hk Hl. unfold addIcon. rewrite (get_known _ _ Hk), Hl.
  now rewrite (table_values_truthy _ (table_value _ _ Hk)).
Qed.

(** A name that is neither a key nor inherited leaves everything as it was. *)
Lemma addIcon_unknown (element : path) (iconName : string) (w : world) :
  get iconMap iconName = Undefined -> addIcon element iconName w = (w, Normal tt).
Proof. intros H. unfold addIcon. now rewrite H. Qed.

Lemma addIcon_nonexistent (element : path) (w : world) :
  addIcon element "nonexistent" w = (w, Normal tt).
Proof. now apply addIcon_unknown. Qed.

Lemma addIcon_success (element : path) (t : string) (a : attrs) (ks : list node)
    (w : world) :
  lookup element (document w) = Some (Elem t a ks) ->
  getAttribute_at "data-lucide" (document (fst (addIcon element "success" w))) element
  = Some "check-circle".
Proof.
  intros Hl. rewrite (addIcon_known element "success" "check-circle" t a ks w eq_refl Hl).
  simpl. rewrite createIcons_document. simpl.
  eapply getAttribute_at_setAttribute_at; eassumption.
Qed.

(** C3.  The specification says that [addIcon] does nothing for a name that
    is not a key of the table.  The code tests [this.iconMap[iconName]],
    and the table is an object literal: for a name of [Object.prototype]
    ([constructor], [toString], ...), which is not a key of the table, the
    test reads the inherited member, which is truthy, and the element gets
    a [data-lucide] attribute holding that member's text.  (The two
    examples of the specification do hold: [addIcon_success],
    [addIcon_nonexistent]; so does the no-op for every name that is
    neither a key nor inherited: [addIcon_unknown].) *)
Theorem addIcon_inherited_name (element : path) (iconName t : string) (a : attrs)
    (ks : list node) (w : world) :
  mem iconName Object_prototype = true ->
  lookup element (document w) = Some (Elem t a ks) ->
  getAttribute iconName iconMap = None
  /\ getAttribute_at "data-lucide" (document (fst (addIcon element iconName w))) element
     = Some (ToString (Inherited iconName)).
Proof.
  intros Hm Hl. pose proof (inherited_not_key _ Hm) as Hk. split; [exact Hk|].
  unfold addIcon, get. rewrite Hk, Hm, Hl. simpl. rewrite createIcons_document. simpl.
  eapply getAttribute_at_setAttribute_at; eassumption.
Qed.

Lemma addIcon_inherited_name_witness :
  getAttribute "constructor" iconMap = None
  /\ getAttribute_at "data-lucide"
       (document (fst (addIcon [1; 0; 0] "constructor"
                         (World teacher_page complete [] None)))) [1; 0; 0]
     = Some "function Object() { [native code] }".
Proof.
  apply (addIcon_inherited_name [1; 0; 0] "constructor" "span"
           [("class", "nav-item-icon")] [] (World teacher_page complete [] None));
    reflexivity.
Defined.

(** C10.  For a name that is a key of the table and an element [element]
    of the document, [addIcon] completes normally and changes the
    [data-lucide] attribute of that element and nothing else in the
    document: the element keeps its tag and its children, every other
    attribute of it reads as before, and every other node of the document
    (its descendants included) keeps its tag, its attributes or its text.
    Outside the document the only effect is the rendering call, counted
    when the library is present; the listeners and the readiness state are
    untouched. *)
Theorem addIcon_frame (element : path) (iconName mapped t : string) (a : attrs)
    (ks : list node) (w : world) :
  getAttribute iconName iconMap = Some mapped ->
  lookup element (document w) = Some (Elem t a ks) ->
  let w' := fst (addIcon element iconName w) in
  snd (addIcon element iconName w) = Normal tt
  /\ lookup element (document w')
     = Some (Elem t (setAttribute "data-lucide" mapped a) ks)
  /\ (forall k, k <> "data-lucide" ->
        getAttribute k (setAttribute "data-lucide" mapped a) = getAttribute k a)
  /\ (forall q, q <> element -> own_at (document w') q = own_at (document w) q)
  /\ readyState w' = readyState w
  /\ listeners w' = listeners w
  /\ lucide w' = option_map S (lucide w).
Proof.
  intros Hk Hl. rewrite (addIcon_known element iconName mapped t a ks w Hk Hl). simpl.
  rewrite createIcons_document, createIcons_readyState, createIcons_listeners,
    createIcons_lucide. simpl.
  repeat split.
  - now rewrite lookup_setAttribute_at, Hl.
  - intros k Hne. now apply getAttribute_setAttribute_other.
  - intros q Hq. now apply own_at_setAttribute_at.
Qed.

Lemma addIcon_frame_witness :
  let w := World teacher_page complete [] (Some 0) in
  let w' := fst (addIcon [1; 0] "success" w) in
  snd (addIcon [1; 0] "success" w) = Normal tt
  /\ lookup [1; 0] (document w')
     = Some (Elem "a" (setAttribute "data-lucide" "check-circle"
                         [("class", "nav-item"); ("href", "/teacher")])
               [Elem "span" [("class", "nav-item-icon")] []; Text "Professores"])
  /\ (forall k, k <> "data-lucide" ->
        getAttribute k (setAttribute "data-lucide" "check-circle"
                          [("class", "nav-item"); ("href", "/teacher")])
        = getAttribute k [("class", "nav-item"); ("href", "/teacher")])
  /\ (forall q, q <> [1; 0] -> own_at (document w') q = own_at (document w) q)
  /\ readyState w' = readyState w
  /\ listeners w' = listeners w
  /\ lucide w' = option_map S (lucide w).
Proof.
  apply (addIcon_frame [1; 0] "success" "check-circle" "a"
           [("class", "nav-item"); ("href", "/teacher")]
           [Elem "span" [("class", "nav-item-icon")] []; Text "Professores"]
           (World teacher_page complete [] (Some 0))); reflexivity.
Defined.

(** ** [init] *)

(** C7.  Called when the document is no longer loading, [init] is
    [applyIcons] run on the spot, and the list of listeners is as before:
    nothing is deferred.  Called while the document is loading, it changes
    nothing but the list of listeners, to which it adds exactly one entry,
    for [DOMContentLoaded] (an event that fires once per document), and
    what that listener does when run is [applyIcons]. *)
Theorem init_ready_or_loading (lc : string -> string) (ro sr : bool) (w : world) :
  (readyState w <> loading ->
     init lc ro sr w = applyIcons lc ro sr w
     /\ listeners (fst (init lc ro sr w)) = listeners w)
  /\ (readyState w = loading ->
        init lc ro sr w
        = (World (document w) loading
             (listeners w ++ [("DOMContentLoaded", run_applyIcons)]) (lucide w),
           Normal tt)
        /\ forall w', run lc ro sr run_applyIcons w' = applyIcons lc ro sr w').
Proof.
  split.
  - intros Hr. assert (E : init lc ro sr w = applyIcons lc ro sr w).
    { unfold init. destruct (readyState w); congruence. }
    split; [exact E|]. rewrite E. apply applyIcons_listeners.
  - intros Hr. unfold init. rewrite Hr. split; reflexivity.
Qed.

Lemma init_ready_or_loading_witness :
  (init lower true false (World teacher_page complete [] (Some 0))
   = applyIcons lower true false (World teacher_page complete [] (Some 0))
   /\ listeners (fst (init lower true false (World teacher_page complete [] (Some 0)))) = [])
  /\ (init lower true false (World teacher_page loading [] (Some 0))
      = (World teacher_page loading [("DOMContentLoaded", run_applyIcons)] (Some 0),
         Normal tt)
      /\ forall w', run lower true false run_applyIcons w' = applyIcons lower true false w').
Proof.
  split.
  - apply (init_ready_or_loading lower true false (World teacher_page complete [] (Some 0))).
    discriminate.
  - apply (init_ready_or_loading lower true false (World teacher_page loading [] (Some 0))).
    reflexivity.
Defined.

(** ** The document up to its icon attributes *)

Lemma removeAttribute_setAttribute (k v : string) (a : attrs) :
  removeAttribute k (setAttribute k v a) = removeAttribute k a.
Proof.
  induction a as [|[k' v'] a IH]; simpl.
  - now rewrite String.eqb_refl.
  - destruct (k' =? k) eqn:E; simpl; rewrite E; simpl; [reflexivity | now rewrite IH].
Qed.

Lemma getAttribute_removeAttribute (k k' : string) (a : attrs) :
  k' <> k -> getAttribute k' (removeAttribute k a) = getAttribute k' a.
Proof.
  intros Hne. induction a as [|[k0 v0] a IH]; simpl; [reflexivity|].
  destruct (String.eqb_spec k0 k) as [->|]; simpl.
  - destruct (String.eqb_spec k k'); congruence.
  - now rewrite IH.
Qed.

Lemma skeleton_update (f : node -> node) (p : path) (d : node) :
  (forall n, skeleton (f n) = skeleton n) -> skeleton (update p f d) = skeleton d.
Proof.
  intros Hf. revert d. induction p as [|i p IH]; intros d; simpl; [apply Hf|].
  destruct d as [t a ks|s]; [|reflexivity]. simpl. f_equal.
  apply map_alter. intros x _. apply IH.
Qed.

Lemma skeleton_setAttribute_at (p : path) (v : string) (d : node) :
  skeleton (setAttribute_at p "data-lucide" v d) = skeleton d.
Proof.
  apply skeleton_update. intros [t a ks|s]; simpl; [|reflexivity].
  now rewrite removeAttribute_setAttribute.
Qed.

Lemma elements_skeleton (d : node) : elements (skeleton d) = elements d.
Proof.
  induction d as [s|t a ks IH] using node_ind'; simpl; [reflexivity|].
  do 2 f_equal. rewrite map_map. apply map_ext_Forall. exact IH.
Qed.

Lemma lookup_skeleton (p : path) (d : node) :
  lookup p (skeleton d) = option_map skeleton (lookup p d).
Proof.
  revert d. induction p as [|i p IH]; intros d; simpl; [reflexivity|].
  destruct d as [t a ks|s]; simpl; [|reflexivity].
  rewrite nth_error_map. destruct (nth_error ks i); simpl; [apply IH | reflexivity].
Qed.

Lemma textContent_skeleton (d : node) : textContent (skeleton d) = textContent d.
Proof.
  induction d as [s|t a ks IH] using node_ind'; simpl; [reflexivity|].
  f_equal. rewrite map_map. apply map_ext_Forall. exact IH.
Qed.

Lemma matches_skeleton (sel : selector) (n : node) :
  icon_blind sel = true -> matches sel (skeleton n) = matches sel n.
Proof.
  intros Hb. destruct n as [t a ks|s]; [|reflexivity].
  unfold matches. simpl. unfold icon_blind in Hb. rewrite forallb_forall in Hb.
  induction sel as [|c sel IH]; simpl; [reflexivity|].
  rewrite IH by (intros x Hx; apply Hb; now right). f_equal.
  specialize (Hb c (or_introl eq_refl)). rewrite forallb_forall in Hb.
  clear IH. induction c as [|s c IHc]; simpl; [reflexivity|].
  rewrite IHc by (intros x Hx; apply Hb; now right). f_equal.
  specialize (Hb s (or_introl eq_refl)).
  destruct s as [c'|i|t'|k]; simpl; try reflexivity.
  - unfold classList. now rewrite getAttribute_removeAttribute.
  - now rewrite getAttribute_removeAttribute.
  - unfold hasAttribute. rewrite getAttribute_removeAttribute; [reflexivity|].
    destruct (String.eqb_spec k "data-lucide"); [discriminate | assumption].
Qed.

Lemma matches_at_skeleton (sel : selector) (d : node) (p : path) :
  icon_blind sel = true -> matches_at sel (skeleton d) p = matches_at sel d p.
Proof.
  intros Hb. unfold matches_at. rewrite lookup_skeleton.
  destruct (lookup p d); simpl; [now apply matches_skeleton | reflexivity].
Qed.

Lemma querySelectorAll_skeleton (sel : selector) (d : node) :
  icon_blind sel = true ->
  querySelectorAll sel (skeleton d) = querySelectorAll sel d.
Proof.
  intros Hb. unfold querySelectorAll. rewrite elements_skeleton.
  apply filter_ext. intros p. now apply matches_at_skeleton.
Qed.

Lemma querySelector_skeleton (sel : selector) (d : node) (p : path) :
  icon_blind sel = true ->
  querySelector sel (skeleton d) p = querySelector sel d p.
Proof.
  intros Hb. unfold querySelector. rewrite lookup_skeleton.
  destruct (lookup p d) as [n|]; simpl; [|reflexivity].
  rewrite elements_skeleton.
  rewrite (filter_ext _ (fun q => matches_at sel n q)); [reflexivity|].
  intros q. now apply matches_at_skeleton.
Qed.

Lemma closest_skeleton (sel : selector) (d : node) (p : path) :
  icon_blind sel = true -> closest sel (skeleton d) p = closest sel d p.
Proof.
  intros Hb. unfold closest. induction (ancestors p) as [|q l IH]; simpl; [reflexivity|].
  now rewrite matches_at_skeleton, IH.
Qed.

Lemma textContent_at_skeleton (d : node) (p : path) :
  textContent_at (skeleton d) p = textContent_at d p.
Proof.
  unfold textContent_at. rewrite lookup_skeleton.
  destruct (lookup p d); simpl; [apply textContent_skeleton | reflexivity].
Qed.

Lemma getAttribute_at_skeleton (k : string) (d : node) (p : path) :
  k <> "data-lucide" -> getAttribute_at k (skeleton d) p = getAttribute_at k d p.
Proof.
  intros Hk. unfold getAttribute_at. rewrite lookup_skeleton.
  destruct (lookup p d) as [[t a ks|s]|]; simpl; try reflexivity.
  now apply getAttribute_removeAttribute.
Qed.

(** What the passes read, apart from the icon attribute itself, is the
    same in two documents with the same skeleton. *)
Section SameSkeleton.
Variables d d' : node.
Hypothesis Hs : skeleton d = skeleton d'.

Lemma same_querySelectorAll (sel : selector) :
  icon_blind sel = true -> querySelectorAll sel d = querySelectorAll sel d'.
Proof.
  intros Hb. rewrite <- (querySelectorAll_skeleton sel d Hb), Hs.
  now apply querySelectorAll_skeleton.
Qed.

Lemma same_querySelector (sel : selector) (p : path) :
  icon_blind sel = true -> querySelector sel d p = querySelector sel d' p.
Proof.
  intros Hb. rewrite <- (querySelector_skeleton sel d p Hb), Hs.
  now apply querySelector_skeleton.
Qed.

Lemma same_closest (sel : selector) (p : path) :
  icon_blind sel = true -> closest sel d p = closest sel d' p.
Proof.
  intros Hb. rewrite <- (closest_skeleton sel d p Hb), Hs. now apply closest_skeleton.
Qed.

Lemma same_textContent_at (p : path) : textContent_at d p = textContent_at d' p.
Proof. rewrite <- (textContent_at_skeleton d), Hs. apply textContent_at_skeleton. Qed.

Lemma same_getAttribute_at (k : string) (p : path) :
  k <> "data-lucide" -> getAttribute_at k d p = getAttribute_at k d' p.
Proof.
  intros Hk. rewrite <- (getAttribute_at_skeleton k d p Hk), Hs.
  now apply getAttribute_at_skeleton.
Qed.
End SameSkeleton.

Lemma keeps_refl (d : node) : keeps d d.
Proof. intros q v H. exact H. Qed.

Lemma grows_refl (d : node) : grows d d.
Proof. split; [reflexivity | apply keeps_refl]. Qed.

Lemma grows_trans (d1 d2 d3 : node) : grows d1 d2 -> grows d2 d3 -> grows d1 d3.
Proof.
  intros [S1 K1] [S2 K2]. split; [congruence|]. intros q v H. apply K2, K1, H.
Qed.

(** Giving an icon to an element that has none adds to the document. *)
Lemma grows_setAttribute_at (p : path) (v : string) (d : node) :
  hasAttribute_at "data-lucide" d p = false ->
  grows d (setAttribute_at p "data-lucide" v d).
Proof.
  intros Hn. split; [symmetry; apply skeleton_setAttribute_at|].
  intros q w Hq. destruct (list_eq_dec Nat.eq_dec q p) as [->|Hne].
  - unfold hasAttribute_at in Hn. rewrite Hq in Hn. discriminate.
  - now rewrite getAttribute_at_setAttribute_at_other.
Qed.

Lemma grows_hasAttribute_at (d d' : node) (p : path) :
  grows d d' -> hasAttribute_at "data-lucide" d p = true ->
  hasAttribute_at "data-lucide" d' p = true.
Proof.
  intros [_ K] H. unfold hasAttribute_at in *.
  destruct (getAttribute_at "data-lucide" d p) as [v|] eqn:E; [|discriminate].
  now rewrite (K _ _ E).
Qed.

(** ** The passes only add icon attributes *)

Lemma navItem_grows (ro : bool) (item : path) (d : node) :
  grows d (fst (navItem ro item d)).
Proof.
  unfold navItem. destruct (querySelector _ d item) as [ic|]; [|apply grows_refl].
  destruct (hasAttribute_at "data-lucide" d ic) eqn:Ha; simpl; [apply grows_refl|].
  destruct (navIconName _ _) as [name|e]; [|apply grows_refl].
  destruct (truthy name); simpl; [now apply grows_setAttribute_at | apply grows_refl].
Qed.

Lemma forEach_grows (f : path -> node -> node * completion unit) (l : list path) :
  (forall x d, grows d (fst (f x d))) -> forall d, grows d (fst (forEach f l d)).
Proof.
  intros Hf. induction l as [|x l IH]; intros d; simpl; [apply grows_refl|].
  specialize (Hf x d). destruct (f x d) as [d' [u|e]]; simpl in *; [|exact Hf].
  eapply grows_trans; [exact Hf | apply IH].
Qed.

Lemma applyNavigationIcons_grows (ro : bool) (d : node) :
  grows d (fst (applyNavigationIcons ro d)).
Proof. apply forEach_grows. apply navItem_grows. Qed.

Lemma contextIcon_grows (lc : string -> string) (parents : selector)
    (name : string -> string) (p : path) (d : node) :
  grows d (contextIcon lc parents name p d).
Proof.
  unfold contextIcon. destruct (hasAttribute_at "data-lucide" d p) eqn:Ha; simpl;
    [apply grows_refl|].
  destruct (trim _ =? ""); [|apply grows_refl].
  destruct (closest parents d p); [now apply grows_setAttribute_at | apply grows_refl].
Qed.

Lemma each_grows (f : path -> node -> node) (l : list path) :
  (forall x d, grows d (f x d)) -> forall d, grows d (each f l d).
Proof.
  intros Hf. unfold each. induction l as [|x l IH]; intros d; simpl; [apply grows_refl|].
  eapply grows_trans; [apply Hf | apply IH].
Qed.

Lemma fileIcons_grows (lc : string -> string) (d : node) : grows d (fileIcons lc d).
Proof. apply each_grows. intros x d'. apply contextIcon_grows. Qed.

Lemma metricIcons_grows (lc : string -> string) (d : node) : grows d (metricIcons lc d).
Proof. apply each_grows. intros x d'. apply contextIcon_grows. Qed.

Lemma matches_at_data_lucide (n : node) (r : path) :
  matches_at sel_data_lucide n r = hasAttribute_at "data-lucide" n r.
Proof.
  unfold matches_at, hasAttribute_at, getAttribute_at.
  destruct (lookup r n) as [[t a ks|s]|]; try reflexivity.
  unfold matches. simpl. now rewrite !andb_true_r, orb_false_r.
Qed.

Lemma hasAttribute_at_app (k : string) (d n : node) (p r : path) :
  lookup p d = Some n -> hasAttribute_at k d (p ++ r) = hasAttribute_at k n r.
Proof.
  intros H. unfold hasAttribute_at, getAttribute_at. now rewrite lookup_app, H.
Qed.

Lemma number_In (ls : list (list path)) (i j : nat) (l : list path) (q : path) :
  nth_error ls i = Some l -> In q l -> In ((j + i) :: q) (number j ls).
Proof.
  revert i j. induction ls as [|l0 ls IH]; intros i j Hn Hq; [now destruct i|].
  simpl. apply in_or_app. destruct i as [|i]; simpl in Hn.
  - injection Hn as ->. left. rewrite Nat.add_0_r. now apply in_map.
  - right. rewrite <- Nat.add_succ_comm. now apply IH.
Qed.

(** Every element of a subtree is among its [elements]. *)
Lemma elements_complete (n : node) :
  forall r t a ks, lookup r n = Some (Elem t a ks) -> In r (elements n).
Proof.
  induction n as [s|t0 a0 ks0 IH] using node_ind'; intros r t a ks H.
  - destruct r; simpl in H; discriminate.
  - destruct r as [|i q]; simpl; [now left|]. right. simpl in H.
    destruct (nth_error ks0 i) as [k|] eqn:Hk; [|discriminate].
    apply (number_In (map elements ks0) i 0 (elements k)).
    + now rewrite nth_error_map, Hk.
    + rewrite Forall_forall in IH. apply (IH k (nth_error_In _ _ Hk) q t a ks H).
Qed.

(** When [querySelector] finds nothing, no proper descendant matches. *)
Lemma querySelector_None (sel : selector) (d n : node) (p r : path) :
  querySelector sel d p = None -> lookup p d = Some n -> r <> [] ->
  matches_at sel n r = false.
Proof.
  unfold querySelector. intros H Hn Hr. rewrite Hn in H.
  destruct (matches_at sel n r) eqn:Hm; [|reflexivity]. exfalso.
  destruct (matches_at_element _ _ _ Hm) as (t & a & ks & Hl & _).
  pose proof (elements_complete n r t a ks Hl) as Hin.
  assert (Hin' : In r (filter (fun q => matches_at sel n q) (tl (elements n)))).
  { apply filter_In. split; [|exact Hm].
    destruct n as [t' a' ks'|s]; [|contradiction]. simpl in Hin |- *.
    destruct Hin as [E|Hin]; [congruence | exact Hin]. }
  destruct (filter _ _); [contradiction | discriminate].
Qed.

(** [querySelectorAll] lists exactly the elements that match. *)
Lemma querySelectorAll_spec (sel : selector) (d : node) (p : path) :
  In p (querySelectorAll sel d) <-> matches_at sel d p = true.
Proof.
  unfold querySelectorAll. rewrite filter_In. split; [now intros [_ H]|].
  intros H. split; [|exact H].
  destruct (matches_at_element _ _ _ H) as (t & a & ks & Hl & _).
  now apply (elements_complete d p t a ks).
Qed.

Lemma own_at_set_innerHTML (p q : path) (kids : list node) (d : node) :
  (forall r, r <> [] -> q <> p ++ r) ->
  own_at (set_innerHTML p kids d) q = own_at d q.
Proof.
  unfold own_at, set_innerHTML. revert q d.
  induction p as [|i p IH]; intros q d Hq; simpl.
  - destruct q as [|j q]; [|exfalso; now apply (Hq (j :: q))]. simpl.
    now destruct d.
  - destruct d as [t a ks|s]; [|reflexivity].
    destruct q as [|j q]; [reflexivity|]. simpl.
    rewrite nth_error_alter. destruct (Nat.eqb_spec i j) as [->|]; [|reflexivity].
    destruct (nth_error ks j) as [k|]; simpl; [|reflexivity].
    apply IH. intros r Hr E. apply (Hq r Hr). simpl. now f_equal.
Qed.

(** Replacing the content of a button that holds no icon removes no icon. *)
Lemma keeps_set_innerHTML (btn : path) (kids : list node) (d : node) :
  querySelector sel_data_lucide d btn = None ->
  keeps d (set_innerHTML btn kids d).
Proof.
  intros Hq q v H. rewrite getAttribute_at_own in *.
  rewrite own_at_set_innerHTML; [exact H|].
  intros r Hr ->. rewrite <- getAttribute_at_own in H.
  destruct (lookup btn d) as [n|] eqn:Hn.
  - pose proof (querySelector_None _ d n btn r Hq Hn Hr) as Hm.
    rewrite matches_at_data_lucide, <- (hasAttribute_at_app _ d n btn r Hn) in Hm.
    unfold hasAttribute_at in Hm. now rewrite H in Hm.
  - unfold getAttribute_at in H. rewrite lookup_app, Hn in H. discriminate.
Qed.

Lemma menuButtons_keeps (sr : bool) (l gone : list path) (d : node) :
  keeps d (menuButtons sr gone l d).
Proof.
  revert gone d. induction l as [|btn l IH]; intros gone d; simpl; [apply keeps_refl|].
  destruct (existsb _ gone); [apply IH|].
  destruct (querySelector sel_data_lucide d btn) eqn:Hq; [apply IH|].
  destruct (menu_fragment sr _) as [kids|]; [|apply IH].
  intros q v H. apply IH. now apply keeps_set_innerHTML.
Qed.

Lemma getAttribute_at_element (k v : string) (d : node) (p : path) :
  getAttribute_at k d p = Some v -> exists t a ks, lookup p d = Some (Elem t a ks).
Proof.
  unfold getAttribute_at. destruct (lookup p d) as [[t a ks|s]|]; try discriminate.
  intros _. now exists t, a, ks.
Qed.

(** The send step is different: the [svg.send-icon] it finds is swapped
    for the new markup whatever it carries. *)
Example sendButtons_replaces_labelled_svg :
  let d := page [Elem "button" [("class", "send-button")]
                   [Elem "svg" [("class", "send-icon"); ("data-lucide", "plane")] []]] in
  getAttribute_at "data-lucide" d [1; 0; 0] = Some "plane"
  /\ getAttribute_at "data-lucide"
       (sendButtons [] (querySelectorAll sel_send_button d) d) [1; 0; 0] = Some "send".
Proof. split; reflexivity. Qed.

(** C1, as the code has it.  An existing [data-lucide] attribute, on any
    element of the document, has the same value after the navigation pass
    and after the menu step, the file-icon loop and the metric-icon loop
    of the interface pass: these set the attribute only where it is
    absent, and replace a menu button's content only when nothing in it
    carries the attribute.  [addIcon] with a name that is a key of the
    table has no such guard: it sets the attribute of its element to the
    mapped identifier whatever the element carried.  (The send step swaps
    the [svg.send-icon] it finds for new markup without looking at its
    attributes; nothing is stated about it.) *)
Theorem existing_icon_kept (lc : string -> string) (ro sr : bool) (d : node)
    (q : path) (v : string) :
  getAttribute_at "data-lucide" d q = Some v ->
  getAttribute_at "data-lucide" (fst (applyNavigationIcons ro d)) q = Some v
  /\ getAttribute_at "data-lucide"
       (menuButtons sr [] (querySelectorAll sel_menu_toggle d) d) q = Some v
  /\ getAttribute_at "data-lucide" (fileIcons lc d) q = Some v
  /\ getAttribute_at "data-lucide" (metricIcons lc d) q = Some v
  /\ forall (w : world) (iconName mapped : string),
       document w = d ->
       getAttribute iconName iconMap = Some mapped ->
       getAttribute_at "data-lucide" (document (fst (addIcon q iconName w))) q
       = Some mapped.
Proof.
  intros H. repeat split.
  - now apply (applyNavigationIcons_grows ro d).
  - now apply menuButtons_keeps.
  - now apply (fileIcons_grows lc d).
  - now apply (metricIcons_grows lc d).
  - intros w iconName mapped <- Hk.
    destruct (getAttribute_at_element _ _ _ _ H) as (t & a & ks & Hl).
    rewrite (addIcon_known q iconName mapped t a ks w Hk Hl). simpl.
    rewrite createIcons_document. simpl.
    eapply getAttribute_at_setAttribute_at; eassumption.
Qed.

Lemma existing_icon_kept_witness :
  getAttribute_at "data-lucide" (fst (applyNavigationIcons true starred_page)) [1; 0]
    = Some "star"
  /\ getAttribute_at "data-lucide"
       (menuButtons false [] (querySelectorAll sel_menu_toggle starred_page) starred_page)
       [1; 0] = Some "star"
  /\ getAttribute_at "data-lucide" (fileIcons lower starred_page) [1; 0] = Some "star"
  /\ getAttribute_at "data-lucide" (metricIcons lower starred_page) [1; 0] = Some "star"
  /\ forall (w : world) (iconName mapped : string),
       document w = starred_page ->
       getAttribute iconName iconMap = Some mapped ->
       getAttribute_at "data-lucide" (document (fst (addIcon [1; 0] iconName w))) [1; 0]
       = Some mapped.
Proof.
  apply (existing_icon_kept lower true false starred_page [1; 0] "star"). reflexivity.
Defined.

(** C1, as the specification words it, fails for [addIcon]: an element
    that carries the icon [star] carries [home] after
    [addIcon(element, "home")]. *)
Lemma addIcon_overwrites :
  getAttribute "home" iconMap = Some "home"
  /\ getAttribute_at "data-lucide" starred_page [1; 0] = Some "star"
  /\ getAttribute_at "data-lucide"
       (document (fst (addIcon [1; 0] "home" (World starred_page complete [] None))))
       [1; 0]
     <> Some "star".
Proof. repeat split. discriminate. Qed.

(** ** The navigation callback on an entry with a link target *)

Lemma forEach_navItem_keeps (ro : bool) (l : list path) (d : node) :
  keeps d (fst (forEach (navItem ro) l d)).
Proof. apply (forEach_grows (navItem ro) l (navItem_grows ro) d). Qed.

(** What the callback does to the document, for an item with a link target
    whose icon placeholder has no icon yet. *)
Lemma navItem_with_href (ro : bool) (d : node) (item iconElement : path) (h : string) :
  getAttribute_at "href" d item = Some h ->
  querySelector sel_nav_item_icon d item = Some iconElement ->
  hasAttribute_at "data-lucide" d iconElement = false ->
  fst (navItem ro item d)
  = match first_match (Some h) (textContent_at d item) with
    | Some category => setAttribute_at iconElement "data-lucide" (iconOf category) d
    | None => d
    end.
Proof.
  intros Hh Hq Ha. unfold navItem. rewrite Hq, Ha, Hh. simpl.
  rewrite navIconName_first_match. unfold first_match.
  destruct (find _ nav_rules) as [[f c]|] eqn:E; simpl; [|reflexivity].
  apply find_some in E. destruct E as [Hin _]. unfold nav_rules in Hin. simpl in Hin.
  repeat (destruct Hin as [Hin|Hin]; [injection Hin as _ <-; reflexivity|]).
  contradiction.
Qed.

Lemma first_match_category (href : option string) (text category : string) :
  first_match href text = Some category ->
  exists mapped, getAttribute category iconMap = Some mapped
                 /\ iconOf category = mapped.
Proof.
  unfold first_match. destruct (find _ nav_rules) as [[f c]|] eqn:E; [|discriminate].
  simpl. intros [= <-]. apply find_some in E. destruct E as [Hin _].
  unfold nav_rules in Hin. simpl in Hin.
  repeat (destruct Hin as [Hin|Hin];
          [injection Hin as _ <-; eexists; split; reflexivity|]).
  contradiction.
Qed.

(** The missing link target is the only way for the pass to throw on a
    host that accepts the write of line 95: when every navigation item has
    an [href], the pass and [applyIcons] complete. *)
Lemma forEach_navItem_completes (d : node) (l : list path) :
  (forall item, In item l -> getAttribute_at "href" d item <> None) ->
  forall d', skeleton d = skeleton d' ->
             snd (forEach (navItem false) l d') = Normal tt.
Proof.
  induction l as [|x l IH]; intros Hh d' S; simpl; [reflexivity|].
  assert (Hx : exists dx, navItem false x d' = (dx, Normal tt)).
  { unfold navItem. rewrite <- (same_getAttribute_at d d' S) by discriminate.
    destruct (getAttribute_at "href" d x) as [h|] eqn:E;
      [|exfalso; now apply (Hh x (or_introl eq_refl))].
    destruct (querySelector _ d' x); [|now eexists].
    destruct (negb _); [|now eexists].
    rewrite navIconName_first_match.
    destruct (truthy _); now eexists. }
  destruct Hx as [dx Hx]. rewrite Hx. apply IH.
  - intros item Hin. apply Hh. now right.
  - pose proof (navItem_grows false x d') as [Sx _]. rewrite Hx in Sx. simpl in Sx.
    congruence.
Qed.

Lemma applyIcons_completes (lc : string -> string) (sr : bool) (w : world) :
  (forall item, In item (querySelectorAll sel_nav_item (document w)) ->
                getAttribute_at "href" (document w) item <> None) ->
  snd (applyIcons lc false sr w) = Normal tt.
Proof.
  intros Hh. unfold applyIcons.
  pose proof (forEach_navItem_completes (document w) _ Hh (document w) eq_refl) as E.
  unfold applyNavigationIcons.
  destruct (forEach (navItem false) _ (document w)) as [d1 [[]|e]];
    [reflexivity | discriminate].
Qed.

(** C4, as the code has it.  When the callback of the navigation pass runs
    on an item that has an [href] and whose icon placeholder has, at that
    moment, no [data-lucide] attribute: if the [href] is [/teacher] or
    contains [teacher], the placeholder gets [graduation-cap], the teacher
    entry of the table; in general, if some rule matches, it gets the
    identifier the table maps the category of the first matching rule to;
    and the remaining items of the pass leave that attribute as it is.
    (Nothing is stated for an item without [href].) *)
Theorem navItem_sets_mapped_icon (ro : bool) (d : node) (item iconElement : path)
    (h : string) :
  getAttribute_at "href" d item = Some h ->
  querySelector sel_nav_item_icon d item = Some iconElement ->
  hasAttribute_at "data-lucide" d iconElement = false ->
  (h = "/teacher" \/ includes "teacher" h = true ->
     getAttribute_at "data-lucide" (fst (navItem ro item d)) iconElement
       = Some "graduation-cap"
     /\ getAttribute "teacher" iconMap = Some "graduation-cap")
  /\ (forall category,
        first_match (Some h) (textContent_at d item) = Some category ->
        exists mapped,
          getAttribute category iconMap = Some mapped
          /\ getAttribute_at "data-lucide" (fst (navItem ro item d)) iconElement
             = Some mapped)
  /\ (forall v rest,
        getAttribute_at "data-lucide" (fst (navItem ro item d)) iconElement = Some v ->
        getAttribute_at "data-lucide"
          (fst (forEach (navItem ro) rest (fst (navItem ro item d)))) iconElement
        = Some v).
Proof.
  intros Hh Hq Ha. repeat split.
  - now apply (navItem_teacher ro d item iconElement h).
  - intros category Hc. destruct (first_match_category _ _ _ Hc) as (mapped & Hk & Hi).
    exists mapped. split; [exact Hk|].
    rewrite (navItem_with_href ro d item iconElement h Hh Hq Ha), Hc, Hi.
    destruct (querySelector_element _ _ _ _ Hq) as (t & a & ks & Hl).
    eapply getAttribute_at_setAttribute_at; eassumption.
  - intros v rest Hv. now apply forEach_navItem_keeps.
Qed.

Lemma navItem_sets_mapped_icon_witness :
  (getAttribute_at "data-lucide" (fst (navItem true [1; 0] teacher_page)) [1; 0; 0]
     = Some "graduation-cap"
   /\ getAttribute "teacher" iconMap = Some "graduation-cap")
  /\ (forall category,
        first_match (Some "/teacher") (textContent_at teacher_page [1; 0]) = Some category ->
        exists mapped,
          getAttribute category iconMap = Some mapped
          /\ getAttribute_at "data-lucide" (fst (navItem true [1; 0] teacher_page))
               [1; 0; 0] = Some mapped)
  /\ (forall v rest,
        getAttribute_at "data-lucide" (fst (navItem true [1; 0] teacher_page)) [1; 0; 0]
          = Some v ->
        getAttribute_at "data-lucide"
          (fst (forEach (navItem true) rest (fst (navItem true [1; 0] teacher_page))))
          [1; 0; 0] = Some v).
Proof.
  destruct (navItem_sets_mapped_icon true teacher_page [1; 0] [1; 0; 0] "/teacher"
              eq_refl eq_refl eq_refl) as (H1 & H2 & H3).
  split; [apply H1; now left | split; assumption].
Defined.

(** C4, as the specification words it, fails: in a navigation entry nested
    in another one, the inner entry links to [/teacher] and its icon
    placeholder has no icon in the markup, yet after the pass it carries
    [user], the icon of the outer entry, which the pass visits first and
    whose first [.nav-item-icon] descendant is the same placeholder. *)
Lemma nested_item_gets_outer_icon :
  getAttribute_at "href" nested_nav_page [1; 0; 1] = Some "/teacher"
  /\ querySelector sel_nav_item_icon nested_nav_page [1; 0; 1] = Some [1; 0; 1; 0]
  /\ hasAttribute_at "data-lucide" nested_nav_page [1; 0; 1; 0] = false
  /\ getAttribute_at "data-lucide" (fst (applyNavigationIcons false nested_nav_page))
       [1; 0; 1; 0] <> Some "graduation-cap"
  /\ getAttribute_at "data-lucide" (fst (applyNavigationIcons true nested_nav_page))
       [1; 0; 1; 0] <> Some "graduation-cap".
Proof. repeat split; discriminate. Qed.

(** C5, as the code has it.  The callback evaluates the rules only for an
    item whose icon placeholder exists and has no [data-lucide] attribute;
    for any other item it completes without a change.  For such an item
    that has an [href], what it does to the document is decided by the
    first rule that matches, in the order home, teacher, student,
    analytics, [Tutor IA], [Relatório], [Documento]: the placeholder gets
    the table's identifier for the category of that rule, and when no rule
    matches the document is left as it is.  (Nothing is stated for an item
    without [href].) *)
Theorem navItem_first_match (ro : bool) (d : node) (item : path) :
  map snd nav_rules
    = ["home"; "teacher"; "student"; "analytics"; "bot"; "reports"; "documents"]
  /\ (querySelector sel_nav_item_icon d item = None ->
      navItem ro item d = (d, Normal tt))
  /\ (forall iconElement,
        querySelector sel_nav_item_icon d item = Some iconElement ->
        hasAttribute_at "data-lucide" d iconElement = true ->
        navItem ro item d = (d, Normal tt))
  /\ (forall iconElement h,
        querySelector sel_nav_item_icon d item = Some iconElement ->
        hasAttribute_at "data-lucide" d iconElement = false ->
        getAttribute_at "href" d item = Some h ->
        fst (navItem ro item d)
        = match find (fun r : rule => fst r (Some h) (textContent_at d item))
                  nav_rules with
          | Some (_, category) =>
              setAttribute_at iconElement "data-lucide" (iconOf category) d
          | None => d
          end).
Proof.
  split; [reflexivity|]. repeat split.
  - intros Hq. unfold navItem. now rewrite Hq.
  - intros iconElement Hq Ha. unfold navItem. now rewrite Hq, Ha.
  - intros iconElement h Hq Ha Hh.
    rewrite (navItem_with_href ro d item iconElement h Hh Hq Ha). unfold first_match.
    now destruct (find _ nav_rules) as [[f c]|].
Qed.

Lemma navItem_first_match_witness :
  fst (navItem false [1; 0] teacher_page)
  = match find (fun r : rule => fst r (Some "/teacher")
                                  (textContent_at teacher_page [1; 0])) nav_rules with
    | Some (_, category) =>
        setAttribute_at [1; 0; 0] "data-lucide" (iconOf category) teacher_page
    | None => teacher_page
    end
  /\ navItem false [1; 0] labelled_link_page = (labelled_link_page, Normal tt).
Proof.
  split.
  - apply (navItem_first_match false teacher_page [1; 0]); reflexivity.
  - apply (navItem_first_match false labelled_link_page [1; 0]) with [1; 0; 0];
      reflexivity.
Defined.

(** C5, as the specification words it, fails.  For a link to [/teacher]
    whose icon placeholder is labelled [star] in the markup the first
    matching rule is the teacher rule, but the callback stops at its guard
    and the placeholder keeps [star].  And for an entry that no rule
    matches, nested in an entry for [/analytics], the placeholder, which
    has no icon in the markup, ends with the icon of the outer entry. *)
Lemma labelled_item_not_decided_by_rules :
  (first_match (getAttribute_at "href" labelled_link_page [1; 0])
     (textContent_at labelled_link_page [1; 0]) = Some "teacher"
   /\ getAttribute_at "data-lucide" (fst (applyNavigationIcons false labelled_link_page))
        [1; 0; 0] <> Some (iconOf "teacher"))
  /\ (first_match (getAttribute_at "href" nested_plain_page [1; 0; 1])
        (textContent_at nested_plain_page [1; 0; 1]) = None
      /\ querySelector sel_nav_item_icon nested_plain_page [1; 0; 1] = Some [1; 0; 1; 0]
      /\ hasAttribute_at "data-lucide" nested_plain_page [1; 0; 1; 0] = false
      /\ getAttribute_at "data-lucide" (fst (applyNavigationIcons false nested_plain_page))
           [1; 0; 1; 0] <> None).
Proof. repeat split; (reflexivity || discriminate). Qed.

(** ** A second run finds every guard satisfied *)

Lemma setAttribute_at_not_element (p : path) (k v : string) (d : node) :
  (forall t a ks, lookup p d <> Some (Elem t a ks)) -> setAttribute_at p k v d = d.
Proof.
  intros H. apply update_fixed. intros [t a ks|s] Hl; [now apply H in Hl | reflexivity].
Qed.

(** Once the callback has completed on an item, it changes nothing on that
    item again, however many icons have been added since. *)
Lemma navItem_settled (ro : bool) (item : path) (d d1 d2 : node) :
  navItem ro item d = (d1, Normal tt) -> grows d1 d2 ->
  navItem ro item d2 = (d2, Normal tt).
Proof.
  intros H G12.
  assert (G : grows d d2).
  { eapply grows_trans; [|exact G12]. pose proof (navItem_grows ro item d) as G.
    now rewrite H in G. }
  destruct G as [S K]. revert H. unfold navItem.
  rewrite <- (same_querySelector d d2 S) by reflexivity.
  rewrite <- (same_getAttribute_at d d2 S) by discriminate.
  rewrite <- (same_textContent_at d d2 S).
  destruct (querySelector _ d item) as [ic|] eqn:Hq; [|reflexivity].
  destruct (hasAttribute_at "data-lucide" d2 ic) eqn:A2; [reflexivity|]. simpl.
  destruct (hasAttribute_at "data-lucide" d ic) eqn:A; simpl.
  { rewrite (grows_hasAttribute_at d d2 ic (conj S K) A) in A2. discriminate. }
  destruct (navIconName _ _) as [name|e]; [|discriminate].
  destruct (truthy name); [|reflexivity].
  intros [= <- _]. exfalso.
  destruct (querySelector_element _ _ _ _ Hq) as (t & a & ks & Hl).
  assert (A1 : hasAttribute_at "data-lucide"
                 (setAttribute_at ic "data-lucide" (ToString name) d) ic = true).
  { unfold hasAttribute_at.
    now rewrite (getAttribute_at_setAttribute_at ic _ _ t a ks d Hl). }
  rewrite (grows_hasAttribute_at _ d2 ic G12 A1) in A2. discriminate.
Qed.

Lemma forEach_navItem_settled (ro : bool) (l : list path) (d d1 d2 : node) :
  forEach (navItem ro) l d = (d1, Normal tt) -> grows d1 d2 ->
  forEach (navItem ro) l d2 = (d2, Normal tt).
Proof.
  revert d. induction l as [|x l IH]; intros d H G; simpl in *; [reflexivity|].
  destruct (navItem ro x d) as [dx [[]|e]] eqn:Hx; [|discriminate].
  assert (Gx : grows dx d1).
  { pose proof (forEach_grows (navItem ro) l (navItem_grows ro) dx) as Gx.
    now rewrite H in Gx. }
  rewrite (navItem_settled ro x d dx d2 Hx (grows_trans _ _ _ Gx G)).
  now apply (IH dx).
Qed.

(** The same for the callback of the file and metric icons. *)
Lemma contextIcon_settled (lc : string -> string) (parents : selector)
    (name : string -> string) (p : path) (d d2 : node) :
  icon_blind parents = true ->
  grows (contextIcon lc parents name p d) d2 ->
  contextIcon lc parents name p d2 = d2.
Proof.
  intros Hb G12.
  assert (G : grows d d2) by (eapply grows_trans; [apply contextIcon_grows | exact G12]).
  destruct G as [S K]. revert G12. unfold contextIcon.
  rewrite <- (same_closest d d2 S) by assumption.
  rewrite <- !(same_textContent_at d d2 S).
  destruct (hasAttribute_at "data-lucide" d2 p) eqn:A2; [reflexivity|]. simpl.
  destruct (hasAttribute_at "data-lucide" d p) eqn:A; simpl.
  { rewrite (grows_hasAttribute_at d d2 p (conj S K) A) in A2. discriminate. }
  destruct (trim _ =? ""); [|reflexivity].
  destruct (closest parents d p) as [c|]; [|reflexivity].
  intros G12.
  destruct (hasAttribute_at "data-lucide"
              (setAttribute_at p "data-lucide" (name (lc (textContent_at d c))) d) p)
    eqn:A1.
  - rewrite (grows_hasAttribute_at _ d2 p G12 A1) in A2. discriminate.
  - apply setAttribute_at_not_element. intros t a ks Hl.
    assert (E : option_map skeleton (lookup p d) = option_map skeleton (lookup p d2))
      by (rewrite <- !lookup_skeleton; now rewrite S).
    rewrite Hl in E. destruct (lookup p d) as [[t' a' ks'|s']|] eqn:Hd; try discriminate.
    unfold hasAttribute_at in A1.
    now rewrite (getAttribute_at_setAttribute_at p _ _ t' a' ks' d Hd) in A1.
Qed.

Lemma each_contextIcon_settled (lc : string -> string) (parents : selector)
    (name : string -> string) (l : list path) (d d2 : node) :
  icon_blind parents = true ->
  grows (each (contextIcon lc parents name) l d) d2 ->
  each (contextIcon lc parents name) l d2 = d2.
Proof.
  intros Hb. unfold each. revert d. induction l as [|x l IH]; intros d G; simpl in *;
    [reflexivity|].
  assert (Gx : grows (contextIcon lc parents name x d) d2).
  { eapply grows_trans; [|exact G].
    apply (each_grows (contextIcon lc parents name) l
             (fun x d => contextIcon_grows lc parents name x d)). }
  rewrite (contextIcon_settled lc parents name x d d2 Hb Gx).
  now apply (IH (contextIcon lc parents name x d)).
Qed.

(** With nothing to replace, the menu and send loops are the identity. *)
Lemma menuButtons_nothing (sr : bool) (l gone : list path) (d : node) :
  (forall btn, In btn l -> querySelector sel_data_lucide d btn <> None) ->
  menuButtons sr gone l d = d.
Proof.
  revert gone. induction l as [|btn l IH]; intros gone H; simpl; [reflexivity|].
  destruct (existsb _ gone); [apply IH; intros; apply H; now right|].
  destruct (querySelector sel_data_lucide d btn) eqn:E.
  - apply IH. intros; apply H; now right.
  - exfalso. now apply (H btn (or_introl eq_refl)).
Qed.

Lemma sendButtons_nothing (l gone : list path) (d : node) :
  (forall btn, In btn l -> querySelector sel_send_svg d btn = None) ->
  sendButtons gone l d = d.
Proof.
  revert gone. induction l as [|btn l IH]; intros gone H; simpl; [reflexivity|].
  destruct (existsb _ gone); [apply IH; intros; apply H; now right|].
  rewrite (H btn (or_introl eq_refl)). apply IH. intros; apply H; now right.
Qed.

Lemma nothing_to_replace_spec (d : node) :
  nothing_to_replace d = true <->
  (forall btn, In btn (querySelectorAll sel_menu_toggle d) ->
               querySelector sel_data_lucide d btn <> None)
  /\ (forall btn, In btn (querySelectorAll sel_send_button d) ->
                  querySelector sel_send_svg d btn = None).
Proof.
  unfold nothing_to_replace. rewrite andb_true_iff, !forallb_forall. split.
  - intros [H1 H2]. split; intros btn Hin.
    + specialize (H1 btn Hin). now destruct (querySelector sel_data_lucide d btn).
    + specialize (H2 btn Hin). now destruct (querySelector sel_send_svg d btn).
  - intros [H1 H2]. split; intros btn Hin.
    + specialize (H1 btn Hin). now destruct (querySelector sel_data_lucide d btn).
    + now rewrite (H2 btn Hin).
Qed.

Lemma applyInterfaceIcons_nothing (lc : string -> string) (sr : bool) (d : node) :
  nothing_to_replace d = true ->
  applyInterfaceIcons lc sr d = metricIcons lc (fileIcons lc d).
Proof.
  rewrite nothing_to_replace_spec. intros [H1 H2]. unfold applyInterfaceIcons.
  rewrite (menuButtons_nothing sr _ [] d H1). now rewrite (sendButtons_nothing _ [] d H2).
Qed.

(** An element that holds an icon still holds one after icons are added. *)
Lemma querySelector_data_lucide_grows (d d' : node) (p : path) :
  grows d d' ->
  querySelector sel_data_lucide d p <> None ->
  querySelector sel_data_lucide d' p <> None.
Proof.
  intros [S K] H. unfold querySelector in *.
  assert (E : option_map skeleton (lookup p d) = option_map skeleton (lookup p d'))
    by (rewrite <- !lookup_skeleton; now rewrite S).
  destruct (lookup p d) as [n|] eqn:Hn; [|congruence].
  destruct (lookup p d') as [n'|] eqn:Hn'; [|discriminate]. simpl in E.
  injection E as E.
  destruct (filter _ (tl (elements n))) as [|r l] eqn:F; [congruence|].
  assert (Hr : In r (filter (fun q => matches_at sel_data_lucide n q) (tl (elements n))))
    by (rewrite F; now left).
  apply filter_In in Hr. destruct Hr as [Hin Hm].
  assert (Hr' : In r (filter (fun q => matches_at sel_data_lucide n' q)
                         (tl (elements n')))).
  { apply filter_In. split.
    - now rewrite <- (elements_skeleton n'), <- E, elements_skeleton.
    - rewrite matches_at_data_lucide in *.
      rewrite <- (hasAttribute_at_app _ d n p r Hn) in Hm.
      rewrite <- (hasAttribute_at_app _ d' n' p r Hn').
      now apply (grows_hasAttribute_at d d' _ (conj S K)). }
  destruct (filter _ (tl (elements n'))); [contradiction | discriminate].
Qed.

Lemma nothing_to_replace_grows (d d' : node) :
  grows d d' -> nothing_to_replace d = true -> nothing_to_replace d' = true.
Proof.
  intros G. rewrite !nothing_to_replace_spec. destruct G as [S K]. intros [H1 H2]. split.
  - intros btn Hin. rewrite <- (same_querySelectorAll d d' S) in Hin by reflexivity.
    now apply (querySelector_data_lucide_grows d d' btn (conj S K)), H1.
  - intros btn Hin. rewrite <- (same_querySelectorAll d d' S) in Hin by reflexivity.
    rewrite <- (same_querySelector d d' S) by reflexivity. now apply H2.
Qed.

(** The two loops that infer icons, run again, change nothing. *)
Lemma inference_settled (lc : string -> string) (d d2 : node) :
  grows (metricIcons lc (fileIcons lc d)) d2 ->
  metricIcons lc (fileIcons lc d2) = d2.
Proof.
  intros G. pose proof (fileIcons_grows lc d) as [Sf Kf].
  pose proof (metricIcons_grows lc (fileIcons lc d)) as Gm.
  destruct G as [S K]. pose proof Gm as [Sm Km].
  assert (Ef : fileIcons lc d2 = d2).
  { unfold fileIcons, fileIcon.
    rewrite <- (same_querySelectorAll d d2) by (congruence || reflexivity).
    apply (each_contextIcon_settled lc sel_file_parent fileIconName _ d d2 eq_refl).
    eapply grows_trans; [exact Gm | exact (conj S K)]. }
  rewrite Ef. unfold metricIcons, metricIcon.
  rewrite <- (same_querySelectorAll (fileIcons lc d) d2) by (congruence || reflexivity).
  apply (each_contextIcon_settled lc sel_metric_parent metricIconName _
           (fileIcons lc d) d2 eq_refl).
  exact (conj S K).
Qed.

(** ** Contextual inference *)

Lemma contextIcon_other (lc : string -> string) (parents : selector)
    (name : string -> string) (x p : path) (k : string) (d : node) :
  p <> x ->
  getAttribute_at k (contextIcon lc parents name x d) p = getAttribute_at k d p.
Proof.
  intros Hne. unfold contextIcon.
  destruct (_ && _); [|reflexivity].
  destruct (closest parents d x); [|reflexivity].
  now apply getAttribute_at_setAttribute_at_other.
Qed.

(** The icon the loop leaves on an element it has to label. *)
Lemma each_contextIcon_sets (lc : string -> string) (parents : selector)
    (name : string -> string) (d : node) (icon parent : path) :
  icon_blind parents = true ->
  (exists t a ks, lookup icon d = Some (Elem t a ks)) ->
  trim (textContent_at d icon) = "" ->
  closest parents d icon = Some parent ->
  forall (l : list path) (d' : node),
    skeleton d = skeleton d' ->
    In icon l ->
    getAttribute_at "data-lucide" d' icon = None
    \/ getAttribute_at "data-lucide" d' icon = Some (name (lc (textContent_at d parent))) ->
    getAttribute_at "data-lucide" (each (contextIcon lc parents name) l d') icon
    = Some (name (lc (textContent_at d parent))).
Proof.
  intros Hb (t & a & ks & Hl) Ht Hc. unfold each.
  induction l as [|x l IH]; intros d' S Hin Hd; simpl; [contradiction|].
  pose proof (contextIcon_grows lc parents name x d') as [Sx Kx].
  destruct (list_eq_dec Nat.eq_dec x icon) as [->|Hne].
  - assert (E : getAttribute_at "data-lucide" (contextIcon lc parents name icon d') icon
                = Some (name (lc (textContent_at d parent)))).
    { destruct Hd as [Hd|Hd]; [|now apply Kx].
      unfold contextIcon, hasAttribute_at. rewrite Hd. simpl.
      rewrite <- (same_textContent_at d d' S), Ht. simpl.
      rewrite <- (same_closest d d' S) by assumption. rewrite Hc.
      rewrite <- (same_textContent_at d d' S).
      assert (E : option_map skeleton (lookup icon d) = option_map skeleton (lookup icon d'))
        by (rewrite <- !lookup_skeleton; now rewrite S).
      rewrite Hl in E. destruct (lookup icon d') as [[t' a' ks'|s']|] eqn:Hl';
        try discriminate.
      eapply getAttribute_at_setAttribute_at; eassumption. }
    apply (each_grows (contextIcon lc parents name) l
             (fun x d => contextIcon_grows lc parents name x d)). exact E.
  - apply IH; [congruence | destruct Hin; congruence |].
    now rewrite (contextIcon_other lc parents name x icon) by congruence.
Qed.

Lemma hasAttribute_at_false (k : string) (d : node) (p : path) :
  hasAttribute_at k d p = false -> getAttribute_at k d p = None.
Proof. unfold hasAttribute_at. now destruct (getAttribute_at k d p). Qed.

(** C6.  Take a [.file-icon] element of the document that has no
    [data-lucide] attribute, whose text trims to the empty string, and for
    which [closest('.document-item, .metric-card')] finds a container.
    After the file-icon loop the element carries the student icon [user]
    when the lowercased text of the container contains [estudante] and
    neither [professor] nor [teacher], and the generic icon [folder] when
    it contains none of the six substrings the loop looks for; the
    metric-icon loop that ends the interface pass leaves that icon in
    place. *)
Theorem fileIcons_student_or_generic (lc : string -> string) (d : node)
    (icon parent : path) :
  In icon (querySelectorAll sel_file_icon d) ->
  hasAttribute_at "data-lucide" d icon = false ->
  trim (textContent_at d icon) = "" ->
  closest sel_file_parent d icon = Some parent ->
  (includes "estudante" (lc (textContent_at d parent)) = true ->
   includes "professor" (lc (textContent_at d parent)) = false ->
   includes "teacher" (lc (textContent_at d parent)) = false ->
   getAttribute_at "data-lucide" (fileIcons lc d) icon = Some "user"
   /\ getAttribute_at "data-lucide" (metricIcons lc (fileIcons lc d)) icon = Some "user"
   /\ get iconMap "student" = Str "user")
  /\ (includes "professor" (lc (textContent_at d parent)) = false ->
      includes "teacher" (lc (textContent_at d parent)) = false ->
      includes "estudante" (lc (textContent_at d parent)) = false ->
      includes "student" (lc (textContent_at d parent)) = false ->
      includes "analytics" (lc (textContent_at d parent)) = false ->
      includes "métricas" (lc (textContent_at d parent)) = false ->
      getAttribute_at "data-lucide" (fileIcons lc d) icon = Some "folder"
      /\ getAttribute_at "data-lucide" (metricIcons lc (fileIcons lc d)) icon
         = Some "folder"
      /\ get iconMap "documents" = Str "folder").
Proof.
  intros Hin Ha Ht Hc.
  assert (E : getAttribute_at "data-lucide" (fileIcons lc d) icon
              = Some (fileIconName (lc (textContent_at d parent)))).
  { unfold fileIcons, fileIcon.
    apply (each_contextIcon_sets lc sel_file_parent fileIconName d icon parent); trivial.
    - now apply (querySelectorAll_element sel_file_icon).
    - left. now apply hasAttribute_at_false. }
  pose proof (metricIcons_grows lc (fileIcons lc d)) as [_ K].
  apply K in E as E'. rewrite E, E'. unfold fileIconName. split.
  - intros -> -> ->. now repeat split.
  - intros -> -> -> -> -> ->. now repeat split.
Qed.

Lemma fileIcons_student_or_generic_witness :
  (getAttribute_at "data-lucide" (fileIcons lower sample_page) [1; 1; 0] = Some "user"
   /\ getAttribute_at "data-lucide" (metricIcons lower (fileIcons lower sample_page))
        [1; 1; 0] = Some "user"
   /\ get iconMap "student" = Str "user")
  /\ (getAttribute_at "data-lucide" (fileIcons lower sample_page) [1; 2; 0] = Some "folder"
      /\ getAttribute_at "data-lucide" (metricIcons lower (fileIcons lower sample_page))
           [1; 2; 0] = Some "folder"
      /\ get iconMap "documents" = Str "folder").
Proof.
  split.
  - apply (fileIcons_student_or_generic lower sample_page [1; 1; 0] [1; 1]);
      first [reflexivity | simpl; tauto].
  - apply (fileIcons_student_or_generic lower sample_page [1; 2; 0] [1; 2]);
      first [reflexivity | simpl; tauto].
Defined.

(** ** The identifiers the passes write *)

Lemma In_alter {A} (f : A -> A) (i : nat) (l : list A) (y : A) :
  In y (alter f i l) -> In y l \/ exists x, In x l /\ y = f x.
Proof.
  revert i. induction l as [|x l IH]; intros i H; [destruct i; contradiction|].
  destruct i as [|i]; simpl in H.
  - destruct H as [<-|H]; [right; exists x; split; [now left | reflexivity] | left; now right].
  - destruct H as [<-|H]; [left; now left|].
    destruct (IH i H) as [H'|(x0 & Hx & ->)]; [left; now right|].
    right. exists x0. split; [now right | reflexivity].
Qed.

(** A change of one node brings into the document only what it brings into
    that node. *)
Lemma lucideValues_update (P : string -> Prop) (f : node -> node) :
  (forall n v, In v (lucideValues (f n)) -> In v (lucideValues n) \/ P v) ->
  forall p d v, In v (lucideValues (update p f d)) -> In v (lucideValues d) \/ P v.
Proof.
  intros Hf. induction p as [|i p IH]; intros d v; simpl; [apply Hf|].
  destruct d as [t a ks|s]; [|now left]. simpl.
  rewrite !in_app_iff, !in_flat_map. intros [H|(k & Hk & Hv)]; [now left; left|].
  destruct (In_alter _ _ _ _ Hk) as [Hin|(k0 & Hin & ->)].
  - left; right. now exists k.
  - destruct (IH k0 v Hv) as [H|H]; [|now right]. left; right. now exists k0.
Qed.

Lemma lucideValues_setAttribute_at (p : path) (x : string) (d : node) (v : string) :
  In v (lucideValues (setAttribute_at p "data-lucide" x d)) ->
  In v (lucideValues d) \/ v = x.
Proof.
  apply (lucideValues_update (fun v => v = x)). clear. intros [t a ks|s] v; [|now left].
  simpl. rewrite getAttribute_setAttribute, !in_app_iff. simpl.
  intros [[<-|[]]|H]; [now right | left; now right].
Qed.

Lemma lucideValues_set_innerHTML (p : path) (kids : list node) (d : node) (v : string) :
  In v (lucideValues (set_innerHTML p kids d)) ->
  In v (lucideValues d) \/ In v (flat_map lucideValues kids).
Proof.
  apply (lucideValues_update (fun v => In v (flat_map lucideValues kids))). clear.
  intros [t a ks|s] v; [|now left]. simpl. rewrite !in_app_iff.
  intros [H|H]; [left; now left | now right].
Qed.

Lemma lucideValues_set_outerHTML (p : path) (new d : node) (v : string) :
  In v (lucideValues (set_outerHTML p new d)) ->
  In v (lucideValues d) \/ In v (lucideValues new).
Proof.
  apply (lucideValues_update (fun v => In v (lucideValues new))). intros n w H. now right.
Qed.

(** What the navigation cascade chooses is a value of the table. *)
Lemma navIconName_table (href : option string) (text : string) (name : value) :
  navIconName href text = Normal name -> truthy name = true ->
  In (ToString name) table_values.
Proof.
  destruct href as [h|]; [|discriminate]. rewrite navIconName_first_match.
  intros [= <-]. unfold first_match.
  destruct (find _ nav_rules) as [[f c]|] eqn:E; simpl; [|discriminate].
  intros _. apply find_some in E. destruct E as [Hin _].
  unfold nav_rules in Hin. simpl in Hin.
  repeat (destruct Hin as [Hin|Hin];
          [injection Hin as _ <-; vm_compute; tauto|]).
  contradiction.
Qed.

Lemma fileIconName_table (text : string) : In (fileIconName text) table_values.
Proof.
  unfold fileIconName.
  destruct (_ || _); [vm_compute; tauto|].
  destruct (_ || _); [vm_compute; tauto|].
  destruct (_ || _); vm_compute; tauto.
Qed.

Lemma metricIconName_values (text : string) : In (metricIconName text) metric_values.
Proof.
  unfold metricIconName, metric_values.
  destruct (_ || _); [simpl; tauto|].
  destruct (_ || _); [simpl; tauto|].
  destruct (_ || _); [simpl; tauto|].
  destruct (_ || _); simpl; tauto.
Qed.

Lemma navItem_values (ro : bool) (item : path) (d : node) (v : string) :
  In v (lucideValues (fst (navItem ro item d))) ->
  In v (lucideValues d) \/ In v table_values.
Proof.
  unfold navItem. destruct (querySelector _ d item) as [ic|]; [|now left].
  destruct (negb _); [|now left].
  destruct (navIconName _ _) as [name|e] eqn:E; [|now left].
  destruct (truthy name) eqn:T; [|now left]. simpl. intros H.
  apply lucideValues_setAttribute_at in H. destruct H as [H| ->]; [now left|].
  right. eapply navIconName_table; eassumption.
Qed.

Lemma forEach_values (P : string -> Prop) (f : path -> node -> node * completion unit) :
  (forall x d v, In v (lucideValues (fst (f x d))) -> In v (lucideValues d) \/ P v) ->
  forall l d v, In v (lucideValues (fst (forEach f l d))) -> In v (lucideValues d) \/ P v.
Proof.
  intros Hf. induction l as [|x l IH]; intros d v; simpl; [now left|].
  specialize (Hf x d). destruct (f x d) as [d' [u|e]]; simpl in *; [|apply Hf].
  intros H. destruct (IH d' v H) as [H'|H']; [now apply Hf | now right].
Qed.

Lemma each_values (P : string -> Prop) (f : path -> node -> node) :
  (forall x d v, In v (lucideValues (f x d)) -> In v (lucideValues d) \/ P v) ->
  forall l d v, In v (lucideValues (each f l d)) -> In v (lucideValues d) \/ P v.
Proof.
  intros Hf. unfold each. induction l as [|x l IH]; intros d v; simpl; [now left|].
  intros H. destruct (IH _ v H) as [H'|H']; [now apply (Hf x) | now right].
Qed.

Lemma contextIcon_values (lc : string -> string) (parents : selector)
    (name : string -> string) (P : string -> Prop) :
  (forall text, P (name text)) ->
  forall x d v, In v (lucideValues (contextIcon lc parents name x d)) ->
                In v (lucideValues d) \/ P v.
Proof.
  intros Hn x d v. unfold contextIcon.
  destruct (_ && _); [|now left].
  destruct (closest parents d x); [|now left].
  intros H. apply lucideValues_setAttribute_at in H.
  destruct H as [H| ->]; [now left | right; apply Hn].
Qed.

(** Whatever the markup of line 109 parses to, the only identifier in it
    is [menu]. *)
Lemma menu_fragment_values (sr : bool) (t : string) (kids : list node) (v : string) :
  menu_fragment sr t = Some kids -> In v (flat_map lucideValues kids) -> v = "menu".
Proof.
  unfold menu_fragment. destruct (t =? "template"); [discriminate|].
  destruct (mem t text_contexts); [intros [= <-] []|].
  destruct (_ || _); [intros [= <-] []|].
  destruct (t =? "html"); intros [= <-]; simpl; intros [H|[]]; now symmetry.
Qed.

Lemma menuButtons_values (sr : bool) (l gone : list path) (d : node) (v : string) :
  In v (lucideValues (menuButtons sr gone l d)) -> In v (lucideValues d) \/ v = "menu".
Proof.
  revert gone d. induction l as [|btn l IH]; intros gone d; simpl; [now left|].
  destruct (existsb _ gone); [apply IH|].
  destruct (querySelector sel_data_lucide d btn); [apply IH|].
  destruct (menu_fragment sr _) as [kids|] eqn:F; [|apply IH].
  intros H. destruct (IH _ _ H) as [H'|H']; [|now right].
  apply lucideValues_set_innerHTML in H'. destruct H' as [H'|H']; [now left|].
  right. eapply menu_fragment_values; eassumption.
Qed.

Lemma sendButtons_values (l gone : list path) (d : node) (v : string) :
  In v (lucideValues (sendButtons gone l d)) -> In v (lucideValues d) \/ v = "send".
Proof.
  revert gone d. induction l as [|btn l IH]; intros gone d; simpl; [now left|].
  destruct (existsb _ gone); [apply IH|].
  destruct (querySelector sel_send_svg d btn); [|apply IH].
  intros H. destruct (IH _ _ H) as [H'|H']; [|now right].
  apply lucideValues_set_outerHTML in H'. simpl in H'.
  destruct H' as [H'|[H'|[]]]; auto.
Qed.

Lemma applyInterfaceIcons_values (lc : string -> string) (sr : bool) (d : node) (v : string) :
  In v (lucideValues (applyInterfaceIcons lc sr d)) ->
  In v (lucideValues d) \/ In v table_values \/ In v metric_values.
Proof.
  unfold applyInterfaceIcons, metricIcons, fileIcons. intros H.
  apply (each_values (fun v => In v metric_values)) in H;
    [|apply contextIcon_values, metricIconName_values].
  destruct H as [H|H]; [|tauto].
  apply (each_values (fun v => In v table_values)) in H;
    [|apply contextIcon_values, fileIconName_table].
  destruct H as [H|H]; [|tauto].
  apply sendButtons_values in H. destruct H as [H| ->]; [|right; left; vm_compute; tauto].
  apply menuButtons_values in H. destruct H as [H| ->]; [|right; left; vm_compute; tauto].
  now left.
Qed.

(** C8, as the code has it.  The navigation pass, the menu and send
    replacements and the file-icon loop bring into the document only
    identifiers that are values of the table.  The metric-icon loop writes
    one of five literals of its own, [message-circle], [users], [book],
    [clock] and [bar-chart-3]; of these [message-circle] and [book] are not
    values of the table.  So after [applyIcons] every identifier in the
    document was there before, or is a value of the table, or is one of
    those two. *)
Theorem assigned_identifiers (lc : string -> string) (ro sr : bool) (d : node) :
  incl (lucideValues (fst (applyNavigationIcons ro d))) (lucideValues d ++ table_values)
  /\ incl (lucideValues (menuButtons sr [] (querySelectorAll sel_menu_toggle d) d))
       (lucideValues d ++ table_values)
  /\ incl (lucideValues (sendButtons [] (querySelectorAll sel_send_button d) d))
       (lucideValues d ++ table_values)
  /\ incl (lucideValues (fileIcons lc d)) (lucideValues d ++ table_values)
  /\ incl (lucideValues (metricIcons lc d)) (lucideValues d ++ metric_values)
  /\ (forall w, document w = d ->
        incl (lucideValues (document (fst (applyIcons lc ro sr w))))
          (lucideValues d ++ table_values ++ ["message-circle"; "book"]))
  /\ ~ In "message-circle" table_values
  /\ ~ In "book" table_values.
Proof.
  assert (Hnav : forall v, In v (lucideValues (fst (applyNavigationIcons ro d))) ->
                           In v (lucideValues d) \/ In v table_values).
  { intros v. apply (forEach_values (fun v => In v table_values)), navItem_values. }
  repeat split.
  - intros v H. apply in_or_app. now apply Hnav.
  - intros v H. apply in_or_app. apply menuButtons_values in H.
    destruct H as [H| ->]; [now left | right; vm_compute; tauto].
  - intros v H. apply in_or_app. apply sendButtons_values in H.
    destruct H as [H| ->]; [now left | right; vm_compute; tauto].
  - intros v H. apply in_or_app.
    apply (each_values (fun v => In v table_values)) in H;
      [exact H | apply contextIcon_values, fileIconName_table].
  - intros v H. apply in_or_app.
    apply (each_values (fun v => In v metric_values)) in H;
      [exact H | apply contextIcon_values, metricIconName_values].
  - intros w <- v. rewrite applyIcons_document.
    destruct (applyNavigationIcons ro (document w)) as [d1 [[]|e]] eqn:E;
      cbn [fst] in Hnav; intros H; rewrite !in_app_iff.
    + apply applyInterfaceIcons_values in H. destruct H as [H|[H|H]].
      * destruct (Hnav v H); tauto.
      * tauto.
      * unfold metric_values in H. simpl in H.
        destruct H as [<-|[<-|[<-|[<-|[<-|[]]]]]]; simpl;
          try tauto; right; left; vm_compute; tauto.
    + destruct (Hnav v H); tauto.
  - vm_compute. intros H. repeat (destruct H as [H|H]; [discriminate|]). contradiction.
  - vm_compute. intros H. repeat (destruct H as [H|H]; [discriminate|]). contradiction.
Qed.

(** C8, as the specification words it, fails: on a metric card about
    questions the metric-icon loop writes [message-circle], which is no
    value of the table and was not in the document. *)
Lemma metric_icon_outside_table :
  ~ incl (lucideValues
            (document (fst (applyIcons lower true false
                              (World questions_page complete [] None)))))
      (lucideValues questions_page ++ table_values).
Proof.
  intros H. specialize (H "message-circle"). vm_compute in H.
  assert (F : False); [|exact F].
  destruct H as [H|H]; [now left|..]; try discriminate.
  repeat (destruct H as [H|H]; [discriminate|]). contradiction.
Qed.

(** * Further properties of the code *)

(** ** The two inference loops *)

(** The loop leaves alone an element it has no reason to label. *)
Lemma each_contextIcon_skips (lc : string -> string) (parents : selector)
    (name : string -> string) (d : node) (icon : path) :
  icon_blind parents = true ->
  (trim (textContent_at d icon) =? "") = false \/ closest parents d icon = None ->
  forall (l : list path) (d' : node),
    skeleton d = skeleton d' ->
    getAttribute_at "data-lucide" d' icon = None ->
    getAttribute_at "data-lucide" (each (contextIcon lc parents name) l d') icon = None.
Proof.
  intros Hb Hwhy. unfold each.
  induction l as [|x l IH]; intros d' S Hd; simpl; [exact Hd|].
  pose proof (contextIcon_grows lc parents name x d') as [Sx _].
  apply IH; [congruence|].
  destruct (list_eq_dec Nat.eq_dec x icon) as [->|Hne].
  - unfold contextIcon, hasAttribute_at. rewrite Hd. simpl.
    rewrite <- (same_textContent_at d d' S).
    destruct Hwhy as [Ht|Hc]; [now rewrite Ht|].
    rewrite <- (same_closest d d' S) by assumption. rewrite Hc.
    now destruct (trim _ =? "").
  - now rewrite (contextIcon_other lc parents name x icon) by congruence.
Qed.

Lemma each_contextIcon_labels (lc : string -> string) (parents : selector)
    (name : string -> string) (d : node) (icon parent : path) (l : list path) :
  icon_blind parents = true ->
  In icon l ->
  (exists t a ks, lookup icon d = Some (Elem t a ks)) ->
  trim (textContent_at d icon) = "" ->
  closest parents d icon = Some parent ->
  hasAttribute_at "data-lucide" (each (contextIcon lc parents name) l d) icon = true.
Proof.
  intros Hb Hin He Ht Hc.
  destruct (getAttribute_at "data-lucide" d icon) as [v|] eqn:E.
  - pose proof (each_grows (contextIcon lc parents name) l
                  (fun x d => contextIcon_grows lc parents name x d) d) as [_ K].
    unfold hasAttribute_at. now rewrite (K _ _ E).
  - unfold hasAttribute_at.
    rewrite (each_contextIcon_sets lc parents name d icon parent Hb He Ht Hc l d
               eq_refl Hin); [reflexivity | now left].
Qed.

(** X1.  The file-icon loop, lines 123 to 140.  A [.file-icon] element
    without [data-lucide] attribute whose text trims to the empty string
    and for which [closest] finds a container is labelled from the
    lowercased text of that container, by the first test that succeeds:
    [professor] or [teacher] give [graduation-cap]; otherwise [estudante]
    or [student] give [user]; otherwise [analytics] or [métricas] give
    [bar-chart-3]; otherwise the label is [folder]. *)
Theorem fileIcons_cascade (lc : string -> string) (d : node) (icon parent : path) :
  In icon (querySelectorAll sel_file_icon d) ->
  hasAttribute_at "data-lucide" d icon = false ->
  trim (textContent_at d icon) = "" ->
  closest sel_file_parent d icon = Some parent ->
  getAttribute_at "data-lucide" (fileIcons lc d) icon
  = Some (let text := lc (textContent_at d parent) in
          if includes "professor" text || includes "teacher" text then "graduation-cap"
          else if includes "estudante" text || includes "student" text then "user"
          else if includes "analytics" text || includes "métricas" text then "bar-chart-3"
          else "folder").
Proof.
  intros Hin Ha Ht Hc. unfold fileIcons, fileIcon.
  rewrite (each_contextIcon_sets lc sel_file_parent fileIconName d icon parent eq_refl
             (querySelectorAll_element _ _ _ Hin) Ht Hc _ d eq_refl Hin
             (or_introl (hasAttribute_at_false _ _ _ Ha))).
  reflexivity.
Qed.

Lemma fileIcons_cascade_witness :
  getAttribute_at "data-lucide" (fileIcons lower sample_page) [1; 1; 0]
  = Some (let text := lower (textContent_at sample_page [1; 1]) in
          if includes "professor" text || includes "teacher" text then "graduation-cap"
          else if includes "estudante" text || includes "student" text then "user"
          else if includes "analytics" text || includes "métricas" text then "bar-chart-3"
          else "folder").
Proof.
  apply (fileIcons_cascade lower sample_page [1; 1; 0] [1; 1]);
    first [reflexivity | simpl; tauto].
Defined.

(** X2.  The metric-icon loop, lines 143 to 162.  A [.metric-icon] element
    without [data-lucide] attribute whose text trims to the empty string
    and that has a [.metric-card] around it (or is one) is labelled from
    the lowercased text of the card, by the first test that succeeds:
    [pergunta] or [questão] give [message-circle]; otherwise [estudante]
    or [usuário] give [users]; otherwise [disciplina] or [matéria] give
    [book]; otherwise [tempo] or [resposta] give [clock]; otherwise the
    label is [bar-chart-3]. *)
Theorem metricIcons_cascade (lc : string -> string) (d : node) (icon parent : path) :
  In icon (querySelectorAll sel_metric_icon d) ->
  hasAttribute_at "data-lucide" d icon = false ->
  trim (textContent_at d icon) = "" ->
  closest sel_metric_parent d icon = Some parent ->
  getAttribute_at "data-lucide" (metricIcons lc d) icon
  = Some (let text := lc (textContent_at d parent) in
          if includes "pergunta" text || includes "questão" text then "message-circle"
          else if includes "estudante" text || includes "usuário" text then "users"
          else if includes "disciplina" text || includes "matéria" text then "book"
          else if includes "tempo" text || includes "resposta" text then "clock"
          else "bar-chart-3").
Proof.
  intros Hin Ha Ht Hc. unfold metricIcons, metricIcon.
  rewrite (each_contextIcon_sets lc sel_metric_parent metricIconName d icon parent eq_refl
             (querySelectorAll_element _ _ _ Hin) Ht Hc _ d eq_refl Hin
             (or_introl (hasAttribute_at_false _ _ _ Ha))).
  reflexivity.
Qed.

Lemma metricIcons_cascade_witness :
  getAttribute_at "data-lucide" (metricIcons lower sample_page) [1; 4; 0]
  = Some (let text := lower (textContent_at sample_page [1; 4]) in
          if includes "pergunta" text || includes "questão" text then "message-circle"
          else if includes "estudante" text || includes "usuário" text then "users"
          else if includes "disciplina" text || includes "matéria" text then "book"
          else if includes "tempo" text || includes "resposta" text then "clock"
          else "bar-chart-3").
Proof.
  apply (metricIcons_cascade lower sample_page [1; 4; 0] [1; 4]);
    first [reflexivity | simpl; tauto].
Defined.

(** X3.  What the two loops leave alone.  An element without
    [data-lucide] attribute whose text does not trim to the empty string
    has none after either loop; neither has one for which [closest] finds
    no container of the loop. *)
Theorem inference_leaves_alone (lc : string -> string) (d : node) (icon : path) :
  hasAttribute_at "data-lucide" d icon = false ->
  ((trim (textContent_at d icon) =? "") = false ->
     getAttribute_at "data-lucide" (fileIcons lc d) icon = None
     /\ getAttribute_at "data-lucide" (metricIcons lc d) icon = None)
  /\ (closest sel_file_parent d icon = None ->
      getAttribute_at "data-lucide" (fileIcons lc d) icon = None)
  /\ (closest sel_metric_parent d icon = None ->
      getAttribute_at "data-lucide" (metricIcons lc d) icon = None).
Proof.
  intros Ha. apply hasAttribute_at_false in Ha.
  unfold fileIcons, metricIcons, fileIcon, metricIcon.
  split; [intros Ht; split | split; intros Hc].
  - now apply (each_contextIcon_skips lc sel_file_parent fileIconName d icon
                 eq_refl (or_introl Ht)).
  - now apply (each_contextIcon_skips lc sel_metric_parent metricIconName d icon
                 eq_refl (or_introl Ht)).
  - now apply (each_contextIcon_skips lc sel_file_parent fileIconName d icon
                 eq_refl (or_intror Hc)).
  - now apply (each_contextIcon_skips lc sel_metric_parent metricIconName d icon
                 eq_refl (or_intror Hc)).
Qed.

Lemma inference_leaves_alone_witness :
  (getAttribute_at "data-lucide" (fileIcons lower sample_page) [1; 0] = None
   /\ getAttribute_at "data-lucide" (metricIcons lower sample_page) [1; 0] = None)
  /\ getAttribute_at "data-lucide" (fileIcons lower sample_page) [1; 0] = None
  /\ getAttribute_at "data-lucide" (metricIcons lower sample_page) [1; 0] = None.
Proof.
  destruct (inference_leaves_alone lower sample_page [1; 0] eq_refl) as (H1 & H2 & H3).
  split; [apply H1 | split; [apply H2 | apply H3]]; reflexivity.
Defined.

(** X4.  After the file-icon loop every [.file-icon] element of the
    document whose text trims to the empty string and that has a
    container carries a [data-lucide] attribute, and likewise for the
    metric-icon loop and the [.metric-icon] elements inside a
    [.metric-card]: the fallback branch leaves no such element
    unlabelled. *)
Theorem inference_labels_all (lc : string -> string) (d : node) (icon parent : path) :
  trim (textContent_at d icon) = "" ->
  (In icon (querySelectorAll sel_file_icon d) ->
   closest sel_file_parent d icon = Some parent ->
   hasAttribute_at "data-lucide" (fileIcons lc d) icon = true)
  /\ (In icon (querySelectorAll sel_metric_icon d) ->
      closest sel_metric_parent d icon = Some parent ->
      hasAttribute_at "data-lucide" (metricIcons lc d) icon = true).
Proof.
  intros Ht. split; intros Hin Hc.
  - apply (each_contextIcon_labels lc sel_file_parent fileIconName d icon parent); trivial.
    now apply (querySelectorAll_element sel_file_icon).
  - apply (each_contextIcon_labels lc sel_metric_parent metricIconName d icon parent);
      trivial.
    now apply (querySelectorAll_element sel_metric_icon).
Qed.

Lemma inference_labels_all_witness :
  hasAttribute_at "data-lucide" (fileIcons lower sample_page) [1; 2; 0] = true
  /\ hasAttribute_at "data-lucide" (metricIcons lower sample_page) [1; 3; 0] = true.
Proof.
  split.
  - apply (inference_labels_all lower sample_page [1; 2; 0] [1; 2] eq_refl);
      first [reflexivity | simpl; tauto].
  - apply (inference_labels_all lower sample_page [1; 3; 0] [1; 3] eq_refl);
      first [reflexivity | simpl; tauto].
Defined.

(** ** What the attribute-setting loops change, and what they do when run again *)

(** X5.  The navigation pass, the file-icon loop and the metric-icon loop
    write nothing but [data-lucide] attributes: with those attributes
    taken off, the document after each of them is the document before
    (same nodes in the same places, same tags, same text, same other
    attributes), whether or not the navigation pass ends with an
    exception.  The same holds for the whole of [applyIcons] on a document
    in which the interface pass finds no markup to replace. *)
Theorem attribute_loops_keep_skeleton (lc : string -> string) (ro sr : bool) (d : node) :
  skeleton (fst (applyNavigationIcons ro d)) = skeleton d
  /\ skeleton (fileIcons lc d) = skeleton d
  /\ skeleton (metricIcons lc d) = skeleton d
  /\ forall w, document w = d -> nothing_to_replace d = true ->
               skeleton (document (fst (applyIcons lc ro sr w))) = skeleton d.
Proof.
  pose proof (applyNavigationIcons_grows ro d) as [Sn Kn].
  pose proof (fileIcons_grows lc d) as [Sf _].
  pose proof (metricIcons_grows lc d) as [Sm _].
  repeat split; try congruence.
  intros w <- Hn. rewrite applyIcons_document.
  destruct (applyNavigationIcons ro (document w)) as [d1 [[]|e]]; simpl in *;
    [|congruence].
  rewrite (applyInterfaceIcons_nothing lc sr d1
             (nothing_to_replace_grows _ _ (conj Sn Kn) Hn)).
  pose proof (fileIcons_grows lc d1) as [S1 _].
  pose proof (metricIcons_grows lc (fileIcons lc d1)) as [S2 _]. congruence.
Qed.

(** X6.  Each attribute-setting loop, run again on its own result, changes
    nothing, on every document: the file-icon loop and the metric-icon
    loop are idempotent, and a navigation pass that has completed
    completes again without a change. *)
Theorem attribute_loops_idempotent (lc : string -> string) (ro : bool) (d : node) :
  fileIcons lc (fileIcons lc d) = fileIcons lc d
  /\ metricIcons lc (metricIcons lc d) = metricIcons lc d
  /\ forall d1, applyNavigationIcons ro d = (d1, Normal tt) ->
                applyNavigationIcons ro d1 = (d1, Normal tt).
Proof.
  repeat split.
  - pose proof (fileIcons_grows lc d) as [S _]. unfold fileIcons at 1.
    rewrite <- (same_querySelectorAll d (fileIcons lc d) S) by reflexivity.
    apply (each_contextIcon_settled lc sel_file_parent fileIconName _ d _ eq_refl).
    apply grows_refl.
  - pose proof (metricIcons_grows lc d) as [S _]. unfold metricIcons at 1.
    rewrite <- (same_querySelectorAll d (metricIcons lc d) S) by reflexivity.
    apply (each_contextIcon_settled lc sel_metric_parent metricIconName _ d _ eq_refl).
    apply grows_refl.
  - intros d1 H. pose proof (applyNavigationIcons_grows ro d) as [S _].
    rewrite H in S. simpl in S. unfold applyNavigationIcons in *.
    rewrite <- (same_querySelectorAll d d1 S) by reflexivity.
    apply (forEach_navItem_settled ro _ d d1 d1 H). apply grows_refl.
Qed.

(** ** How the navigation pass ends *)

Lemma forEach_navItem_items_settled (ro : bool) (l : list path) (d d1 : node) :
  forEach (navItem ro) l d = (d1, Normal tt) ->
  forall x, In x l -> navItem ro x d1 = (d1, Normal tt).
Proof.
  revert d. induction l as [|y l IH]; intros d H x Hin; [contradiction|].
  simpl in H. destruct (navItem ro y d) as [dy [[]|e]] eqn:Hy; [|discriminate].
  destruct Hin as [<-|Hin]; [|now apply (IH dy)].
  apply (navItem_settled ro y d dy d1 Hy).
  pose proof (forEach_grows (navItem ro) l (navItem_grows ro) dy) as G.
  now rewrite H in G.
Qed.

(** X7.  When the navigation pass completes, every navigation item that
    has an icon placeholder is settled: in the resulting document the
    placeholder carries a [data-lucide] attribute, or else the item has an
    [href] and none of the seven rules matches its [href] and text. *)
Theorem navigation_pass_outcome (ro : bool) (d d1 : node) (item iconElement : path) :
  applyNavigationIcons ro d = (d1, Normal tt) ->
  In item (querySelectorAll sel_nav_item d) ->
  querySelector sel_nav_item_icon d item = Some iconElement ->
  hasAttribute_at "data-lucide" d1 iconElement = true
  \/ exists h, getAttribute_at "href" d item = Some h
               /\ first_match (Some h) (textContent_at d item) = None.
Proof.
  intros H Hin Hq.
  pose proof (applyNavigationIcons_grows ro d) as [S _]. rewrite H in S. simpl in S.
  pose proof (forEach_navItem_items_settled ro _ d d1 H item Hin) as Hs.
  revert Hs. unfold navItem.
  rewrite <- (same_querySelector d d1 S) by reflexivity. rewrite Hq.
  rewrite <- (same_getAttribute_at d d1 S) by discriminate.
  rewrite <- (same_textContent_at d d1 S).
  destruct (hasAttribute_at "data-lucide" d1 iconElement) eqn:A; [now left|]. simpl.
  destruct (getAttribute_at "href" d item) as [h|]; [|discriminate].
  rewrite navIconName_first_match.
  destruct (first_match (Some h) (textContent_at d item)) as [c|] eqn:F;
    [|intros _; right; now exists h].
  destruct (first_match_category _ _ _ F) as (mapped & Hk & Hi).
  rewrite (get_known _ _ Hk), (table_values_truthy _ (table_value _ _ Hk)).
  intros [= E _]. exfalso.
  destruct (querySelector_element _ _ _ _ Hq) as (t & a & ks & Hl).
  assert (El : option_map skeleton (lookup iconElement d)
               = option_map skeleton (lookup iconElement d1))
    by (rewrite <- !lookup_skeleton; now rewrite S).
  rewrite Hl in El. destruct (lookup iconElement d1) as [[t' a' ks'|s']|] eqn:Hl1;
    try discriminate.
  unfold hasAttribute_at in A. rewrite <- E in A.
  now rewrite (getAttribute_at_setAttribute_at iconElement _ _ t' a' ks' d1 Hl1) in A.
Qed.

Lemma navigation_pass_outcome_witness :
  hasAttribute_at "data-lucide" (fst (applyNavigationIcons false two_links_page)) [1; 1; 0]
    = true
  \/ exists h, getAttribute_at "href" two_links_page [1; 1] = Some h
               /\ first_match (Some h) (textContent_at two_links_page [1; 1]) = None.
Proof.
  apply (navigation_pass_outcome false two_links_page
           (fst (applyNavigationIcons false two_links_page)) [1; 1] [1; 1; 0]);
    first [reflexivity | simpl; tauto].
Defined.

Lemma forEach_navItem_read_only (l : list path) (d : node) :
  fst (forEach (navItem true) l d) = d
  \/ (snd (forEach (navItem true) l d) = Throw TypeError
      /\ exists iconElement v,
           In v table_values
           /\ hasAttribute_at "data-lucide" d iconElement = false
           /\ fst (forEach (navItem true) l d)
              = setAttribute_at iconElement "data-lucide" v d).
Proof.
  induction l as [|x l IH]; simpl; [now left|].
  unfold navItem at 1 3 5. destruct (querySelector _ d x) as [ic|]; [|exact IH].
  destruct (hasAttribute_at "data-lucide" d ic) eqn:A; simpl; [exact IH|].
  destruct (navIconName _ _) as [name|e] eqn:N; [|now left].
  destruct (truthy name) eqn:T; [|exact IH]. simpl. right. split; [reflexivity|].
  exists ic, (ToString name). repeat split; trivial.
  eapply navIconName_table; eassumption.
Qed.

(** X8.  On a host whose [Element.tagName] is read-only, as the DOM
    standard has it, a navigation pass labels at most one element: either
    it leaves the document as it was, or it has set the [data-lucide]
    attribute of exactly one element that had none, to a value of the
    table, and has then ended with the [TypeError] of line 95; a pass that
    completes has changed nothing. *)
Theorem navigation_pass_read_only (d : node) :
  (fst (applyNavigationIcons true d) = d
   \/ (snd (applyNavigationIcons true d) = Throw TypeError
       /\ exists iconElement v,
            In v table_values
            /\ hasAttribute_at "data-lucide" d iconElement = false
            /\ fst (applyNavigationIcons true d)
               = setAttribute_at iconElement "data-lucide" v d))
  /\ (snd (applyNavigationIcons true d) = Normal tt ->
      fst (applyNavigationIcons true d) = d).
Proof.
  pose proof (forEach_navItem_read_only (querySelectorAll sel_nav_item d) d) as H.
  unfold applyNavigationIcons. split; [exact H|].
  intros Hn. destruct H as [H|[H _]]; [exact H | congruence].
Qed.

(** X9.  On a host that accepts the write of line 95 the navigation pass,
    and with it [applyIcons], completes whenever every navigation item
    either has an [href], or has no icon placeholder, or has a placeholder
    that is already labelled: the read of [href] that can fail is behind
    the guard of line 74. *)
Theorem applyIcons_completes_when (lc : string -> string) (sr : bool) (w : world) :
  (forall item, In item (querySelectorAll sel_nav_item (document w)) ->
     getAttribute_at "href" (document w) item <> None
     \/ querySelector sel_nav_item_icon (document w) item = None
     \/ exists iconElement,
          querySelector sel_nav_item_icon (document w) item = Some iconElement
          /\ hasAttribute_at "data-lucide" (document w) iconElement = true) ->
  snd (applyNavigationIcons false (document w)) = Normal tt
  /\ snd (applyIcons lc false sr w) = Normal tt.
Proof.
  intros Hh.
  assert (E : forall l d',
             (forall item, In item l -> In item (querySelectorAll sel_nav_item (document w))) ->
             grows (document w) d' ->
             snd (forEach (navItem false) l d') = Normal tt).
  { induction l as [|x l IH]; intros d' Hl G; simpl; [reflexivity|].
    assert (Hx : exists dx, navItem false x d' = (dx, Normal tt)).
    { destruct G as [S K]. unfold navItem.
      rewrite <- (same_getAttribute_at _ d' S) by discriminate.
      rewrite <- (same_querySelector _ d' S) by reflexivity.
      destruct (Hh x (Hl x (or_introl eq_refl))) as [H|[H|(ic & H & A)]].
      - destruct (getAttribute_at "href" (document w) x) as [h|]; [|congruence].
        destruct (querySelector _ (document w) x); [|now eexists].
        destruct (negb _); [|now eexists].
        rewrite navIconName_first_match. destruct (truthy _); now eexists.
      - rewrite H. now eexists.
      - rewrite H, (grows_hasAttribute_at _ d' ic (conj S K) A). now eexists. }
    destruct Hx as [dx Hx]. rewrite Hx. apply IH.
    - intros item Hin. apply Hl. now right.
    - eapply grows_trans; [exact G|]. pose proof (navItem_grows false x d') as Gx.
      now rewrite Hx in Gx. }
  specialize (E (querySelectorAll sel_nav_item (document w)) (document w)
                (fun _ H => H) (grows_refl _)).
  split; [exact E|]. unfold applyIcons. unfold applyNavigationIcons in E.
  unfold applyNavigationIcons.
  destruct (forEach (navItem false) _ (document w)) as [d1 [[]|e]];
    [reflexivity | discriminate].
Qed.

Lemma applyIcons_completes_when_witness :
  snd (applyNavigationIcons false labelled_button_page) = Normal tt
  /\ snd (applyIcons lower false false (World labelled_button_page complete [] None))
     = Normal tt.
Proof.
  apply (applyIcons_completes_when lower false (World labelled_button_page complete [] None)).
  intros item Hin. right. right. exists [1; 0; 0].
  simpl in Hin. destruct Hin as [<-|[]]. split; reflexivity.
Defined.

(** ** [addIcon] called more than once *)

Lemma setAttribute_setAttribute (k v1 v2 : string) (a : attrs) :
  setAttribute k v2 (setAttribute k v1 a) = setAttribute k v2 a.
Proof.
  induction a as [|[k' v'] a IH]; simpl.
  - now rewrite String.eqb_refl.
  - destruct (k' =? k) eqn:E; simpl; rewrite E; [reflexivity | now rewrite IH].
Qed.

Lemma alter_alter {A} (f g : A -> A) (i : nat) (l : list A) :
  alter f i (alter g i l) = alter (fun x => f (g x)) i l.
Proof.
  revert i. induction l as [|x l IH]; intros [|i]; simpl; try reflexivity.
  now rewrite IH.
Qed.

Lemma alter_ext {A} (f g : A -> A) (i : nat) (l : list A) :
  (forall x, f x = g x) -> alter f i l = alter g i l.
Proof.
  intros H. revert i. induction l as [|x l IH]; intros [|i]; simpl; try reflexivity.
  - now rewrite H.
  - now rewrite IH.
Qed.

Lemma update_update (p : path) (f g : node -> node) (d : node) :
  update p f (update p g d) = update p (fun n => f (g n)) d.
Proof.
  revert d. induction p as [|i p IH]; intros d; simpl; [reflexivity|].
  destruct d as [t a ks|s]; simpl; [|reflexivity].
  rewrite alter_alter. f_equal. apply alter_ext. intros x. apply IH.
Qed.

Lemma update_ext (p : path) (f g : node -> node) (d : node) :
  (forall n, f n = g n) -> update p f d = update p g d.
Proof.
  intros H. revert d. induction p as [|i p IH]; intros d; simpl; [apply H|].
  destruct d as [t a ks|s]; [|reflexivity]. f_equal. apply alter_ext. intros x. apply IH.
Qed.

Lemma setAttribute_at_twice (p : path) (k v1 v2 : string) (d : node) :
  setAttribute_at p k v2 (setAttribute_at p k v1 d) = setAttribute_at p k v2 d.
Proof.
  unfold setAttribute_at. rewrite update_update. apply update_ext.
  intros [t a ks|s]; simpl; [|reflexivity]. now rewrite setAttribute_setAttribute.
Qed.

(** X10.  Two calls of [addIcon] on the same element with names that are
    keys of the table: the second call decides.  The document is the one a
    single call with the second name gives, the attribute holds the second
    identifier, and nothing of the first call is left in the document; the
    rendering library, when present, has been called twice. *)
Theorem addIcon_last_call_wins (element : path) (name1 name2 mapped1 mapped2 t : string)
    (a : attrs) (ks : list node) (w : world) :
  getAttribute name1 iconMap = Some mapped1 ->
  getAttribute name2 iconMap = Some mapped2 ->
  lookup element (document w) = Some (Elem t a ks) ->
  let w1 := fst (addIcon element name1 w) in
  let w2 := fst (addIcon element name2 w1) in
  snd (addIcon element name2 w1) = Normal tt
  /\ document w2 = document (fst (addIcon element name2 w))
  /\ getAttribute_at "data-lucide" (document w2) element = Some mapped2
  /\ lucide w2 = option_map (fun calls => S (S calls)) (lucide w).
Proof.
  intros H1 H2 Hl. simpl.
  rewrite (addIcon_known element name1 mapped1 t a ks w H1 Hl). simpl.
  assert (Hl1 : lookup element
                  (document (createIcons (with_document w
                     (setAttribute_at element "data-lucide" mapped1 (document w)))))
                = Some (Elem t (setAttribute "data-lucide" mapped1 a) ks)).
  { rewrite createIcons_document. simpl. now rewrite lookup_setAttribute_at, Hl. }
  rewrite (addIcon_known element name2 mapped2 t _ ks _ H2 Hl1).
  rewrite (addIcon_known element name2 mapped2 t a ks w H2 Hl). simpl.
  rewrite !createIcons_document, !createIcons_lucide. simpl.
  rewrite createIcons_lucide. simpl.
  rewrite setAttribute_at_twice. repeat split.
  - eapply getAttribute_at_setAttribute_at; eassumption.
  - now destruct (lucide w).
Qed.

Lemma addIcon_last_call_wins_witness :
  let w := World teacher_page complete [] (Some 0) in
  let w1 := fst (addIcon [1; 0; 0] "info" w) in
  let w2 := fst (addIcon [1; 0; 0] "warning" w1) in
  snd (addIcon [1; 0; 0] "warning" w1) = Normal tt
  /\ document w2 = document (fst (addIcon [1; 0; 0] "warning" w))
  /\ getAttribute_at "data-lucide" (document w2) [1; 0; 0] = Some "alert-triangle"
  /\ lucide w2 = option_map (fun calls => S (S calls)) (lucide w).
Proof.
  apply (addIcon_last_call_wins [1; 0; 0] "info" "warning" "info" "alert-triangle" "span"
           [("class", "nav-item-icon")] [] (World teacher_page complete [] (Some 0)));
    reflexivity.
Defined.

(** ** The script as loaded *)

(** X11.  The statements after the class (lines 196 to 200).  While the
    document is loading, loading the script leaves the document as it is,
    registers the one listener and publishes [window.IconManager].  Once
    the document is no longer loading, [applyIcons] runs inside [init]:
    when it completes the class is published, and when it throws the
    script ends there, and line 200 is not reached:
    [window.IconManager] is as it was. *)
Theorem load_publishes_unless_init_throws (lc : string -> string) (ro sr : bool)
    (b : browser) :
  (readyState (page_world b) = loading ->
     load lc ro sr b
     = (Browser (World (document (page_world b)) loading
                   (listeners (page_world b) ++ [("DOMContentLoaded", run_applyIcons)])
                   (lucide (page_world b))) true,
        Normal tt))
  /\ (readyState (page_world b) <> loading ->
      snd (load lc ro sr b) = snd (applyIcons lc ro sr (page_world b))
      /\ page_world (fst (load lc ro sr b)) = fst (applyIcons lc ro sr (page_world b))
      /\ exported (fst (load lc ro sr b))
         = match snd (applyIcons lc ro sr (page_world b)) with
           | Normal _ => true
           | Throw _ => exported b
           end).
Proof.
  split; intros Hr; unfold load.
  - unfold init. now rewrite Hr.
  - assert (E : init lc ro sr (page_world b) = applyIcons lc ro sr (page_world b)).
    { unfold init. destruct (readyState (page_world b)); congruence. }
    rewrite E. destruct (applyIcons lc ro sr (page_world b)) as [w [[]|e]]; now repeat split.
Qed.

Lemma load_publishes_unless_init_throws_witness :
  load lower false false (Browser (World tutor_page loading [] None) false)
  = (Browser (World tutor_page loading [("DOMContentLoaded", run_applyIcons)] None) true,
     Normal tt)
  /\ (snd (load lower false false (Browser (World tutor_page complete [] None) false))
      = Throw TypeError
      /\ exported (fst (load lower false false (Browser (World tutor_page complete [] None) false)))
         = false).
Proof.
  split.
  - apply (load_publishes_unless_init_throws lower false false
             (Browser (World tutor_page loading [] None) false)). reflexivity.
  - destruct (load_publishes_unless_init_throws lower false false
                (Browser (World tutor_page complete [] None) false)) as [_ H].
    destruct H as (H1 & _ & H3); [discriminate|]. split; [exact H1 | exact H3].
Defined.

(** ** Paths and subtrees *)

Lemma is_prefix_spec (p q : path) : is_prefix p q = true <-> exists r, q = p ++ r.
Proof.
  revert q. induction p as [|i p IH]; intros q; simpl.
  - split; [intros _; now exists q | reflexivity].
  - destruct q as [|j q]; [split; [discriminate | intros [r H]; discriminate]|].
    rewrite andb_true_iff, Nat.eqb_eq, IH. split.
    + intros [-> [r ->]]. now exists r.
    + intros [r H]. injection H as -> ->. split; [reflexivity | now exists r].
Qed.

Lemma is_prefix_refl (p : path) : is_prefix p p = true.
Proof. apply is_prefix_spec. exists []. now rewrite app_nil_r. Qed.

Lemma strictly_inside_spec (p q : path) :
  strictly_inside p q = true <-> exists r, r <> [] /\ q = p ++ r.
Proof.
  unfold strictly_inside. rewrite andb_true_iff, negb_true_iff. split.
  - intros [H1 H2]. apply is_prefix_spec in H1. destruct H1 as [r ->].
    exists r. split; [|reflexivity]. intros ->. rewrite app_nil_r in H2.
    now rewrite is_prefix_refl in H2.
  - intros (r & Hr & ->). split; [apply is_prefix_spec; now exists r|].
    destruct (is_prefix (p ++ r) p) eqn:E; [|reflexivity]. exfalso.
    apply is_prefix_spec in E. destruct E as [r' E].
    rewrite <- app_assoc in E. rewrite <- (app_nil_r p) in E at 1.
    apply app_inv_head in E. symmetry in E. apply app_eq_nil in E. now destruct E.
Qed.

(** An ancestor of a node below [T] is an ancestor of [T], or lies below
    [T] itself. *)
Lemma is_prefix_app_cases (s T r : path) :
  is_prefix s (T ++ r) = true ->
  is_prefix s T = true \/ exists r', r' <> [] /\ s = T ++ r'.
Proof.
  revert s. induction T as [|i T IH]; intros s H.
  - destruct s as [|j s]; [now left|]. right. exists (j :: s). now split.
  - destruct s as [|j s]; [now left|]. simpl in H.
    apply andb_true_iff in H. destruct H as [E H]. apply Nat.eqb_eq in E. subst j.
    destruct (IH s H) as [H'|(r' & Hr & ->)].
    + left. simpl. now rewrite Nat.eqb_refl.
    + right. now exists r'.
Qed.

Lemma strictly_inside_app_cases (g p r : path) :
  strictly_inside g (p ++ r) = true ->
  strictly_inside g p = true \/ exists r', g = p ++ r'.
Proof.
  intros H. unfold strictly_inside in H. apply andb_true_iff in H. destruct H as [H _].
  destruct (is_prefix_app_cases _ _ _ H) as [Hp|(r' & _ & ->)]; [|right; now exists r'].
  destruct (is_prefix p g) eqn:E.
  - right. apply is_prefix_spec in E. destruct E as [r' ->]. now exists r'.
  - left. unfold strictly_inside. now rewrite Hp, E.
Qed.

Lemma ancestors_is_prefix (g q : path) : is_prefix g q = true -> In g (ancestors q).
Proof.
  revert g. induction q as [|i q IH]; intros g H.
  - destruct g; [now left | discriminate].
  - simpl. apply in_or_app. destruct g as [|j g]; [right; now left|]. left.
    simpl in H. apply andb_true_iff in H. destruct H as [E H].
    apply Nat.eqb_eq in E. subst j. apply in_map. now apply IH.
Qed.

Lemma ancestors_head (q : path) : ancestors q = q :: tl (ancestors q).
Proof.
  induction q as [|i q IH]; [reflexivity|]. simpl. rewrite IH. reflexivity.
Qed.

Lemma ancestors_strictly_inside (g q : path) :
  strictly_inside g q = true -> In g (tl (ancestors q)).
Proof.
  intros H. pose proof H as H'. unfold strictly_inside in H.
  apply andb_true_iff in H. destruct H as [H1 H2].
  apply ancestors_is_prefix in H1. rewrite ancestors_head in H1.
  destruct H1 as [<-|H1]; [|exact H1].
  rewrite is_prefix_refl in H2. discriminate.
Qed.

Lemma ancestors_In_prefix (h g : path) : In h (ancestors g) -> is_prefix h g = true.
Proof.
  revert h. induction g as [|i g IH]; intros h H.
  - destruct H as [<-|[]]. reflexivity.
  - simpl in H. apply in_app_or in H. destruct H as [H|[<-|[]]]; [|reflexivity].
    apply in_map_iff in H. destruct H as (h' & <- & H). simpl.
    now rewrite Nat.eqb_refl, IH.
Qed.

Lemma tl_ancestors_shorter (h g : path) :
  In h (tl (ancestors g)) -> length h < length g.
Proof.
  revert h. induction g as [|i g IH]; intros h H; [contradiction|].
  simpl in H. rewrite ancestors_head in H. simpl in H.
  apply in_app_or in H. destruct H as [H|[<-|[]]]; [|simpl; lia].
  apply in_map_iff in H. destruct H as (h' & <- & H). simpl.
  apply IH in H. lia.
Qed.

Lemma tl_ancestors_strictly_inside (h g : path) :
  In h (tl (ancestors g)) -> strictly_inside h g = true.
Proof.
  intros H. unfold strictly_inside. apply andb_true_iff. split.
  - apply ancestors_In_prefix. rewrite ancestors_head. now right.
  - apply negb_true_iff. destruct (is_prefix g h) eqn:E; [|reflexivity].
    apply is_prefix_spec in E. destruct E as [r ->].
    apply tl_ancestors_shorter in H. rewrite length_app in H. lia.
Qed.

Lemma strictly_inside_prefix (h g q : path) :
  strictly_inside h g = true -> is_prefix g q = true -> strictly_inside h q = true.
Proof.
  rewrite !strictly_inside_spec, is_prefix_spec.
  intros (r & Hr & ->) [r' ->]. exists (r ++ r'). split.
  - intros E. apply app_eq_nil in E. now destruct E.
  - now rewrite app_assoc.
Qed.

Lemma not_inside (sel : selector) (d : node) (q g : path) :
  inside sel d q = false -> strictly_inside g q = true -> matches_at sel d g = false.
Proof.
  intros H Hg. unfold inside in H.
  destruct (matches_at sel d g) eqn:E; [|reflexivity].
  assert (X : existsb (matches_at sel d) (tl (ancestors q)) = true)
    by (apply existsb_exists; exists g; split;
        [now apply ancestors_strictly_inside | exact E]).
  congruence.
Qed.

Lemma not_at_or_inside (sel : selector) (d : node) (q g : path) :
  at_or_inside sel d q = false -> is_prefix g q = true -> matches_at sel d g = false.
Proof.
  intros H Hg. unfold at_or_inside in H.
  destruct (matches_at sel d g) eqn:E; [|reflexivity].
  assert (X : existsb (matches_at sel d) (ancestors q) = true)
    by (apply existsb_exists; exists g; split;
        [now apply ancestors_is_prefix | exact E]).
  congruence.
Qed.

Lemma inside_prefix (sel : selector) (d : node) (g q : path) :
  inside sel d q = false -> is_prefix g q = true -> inside sel d g = false.
Proof.
  intros Hq Hp. destruct (inside sel d g) eqn:E; [|reflexivity].
  unfold inside in E. apply existsb_exists in E. destruct E as (h & Hin & Hm).
  apply tl_ancestors_strictly_inside in Hin.
  rewrite (not_inside sel d q h Hq (strictly_inside_prefix _ _ _ Hin Hp)) in Hm.
  discriminate.
Qed.

Lemma matches_own (sel : selector) (n : node) : matches sel (own n) = matches sel n.
Proof. now destruct n. Qed.

Lemma matches_at_own (sel : selector) (d : node) (p : path) :
  matches_at sel d p = match own_at d p with
                       | Some n => matches sel n
                       | None => false
                       end.
Proof.
  unfold matches_at, own_at. destruct (lookup p d); simpl;
    [now rewrite matches_own | reflexivity].
Qed.

Lemma matches_at_same_own (sel : selector) (d d' : node) (p : path) :
  own_at d' p = own_at d p -> matches_at sel d' p = matches_at sel d p.
Proof. intros H. now rewrite !matches_at_own, H. Qed.

Lemma localName_at_own (d : node) (p : path) :
  localName_at d p = match own_at d p with Some n => localName n | None => "" end.
Proof. unfold localName_at, own_at. now destruct (lookup p d) as [[t a ks|s]|]. Qed.

Lemma hasAttribute_at_own (k : string) (d d' : node) (p : path) :
  own_at d' p = own_at d p -> hasAttribute_at k d' p = hasAttribute_at k d p.
Proof. intros H. unfold hasAttribute_at. now rewrite !getAttribute_at_own, H. Qed.

Lemma own_at_skeleton (d : node) (q : path) :
  own_at (skeleton d) q = option_map skeleton (own_at d q).
Proof.
  unfold own_at. rewrite lookup_skeleton. now destruct (lookup q d) as [[t a ks|s]|].
Qed.

(** A tree is what its nodes are, place by place. *)
Lemma node_ext (n : node) : forall n', (forall r, own_at n r = own_at n' r) -> n = n'.
Proof.
  induction n as [s|t a ks IH] using node_ind'; intros n' H.
  - specialize (H []). destruct n'; [discriminate | now injection H as ->].
  - pose proof (H []) as H0. destruct n' as [t' a' ks'|s']; [|discriminate].
    injection H0 as -> ->. f_equal. apply nth_error_ext. intros i.
    pose proof (H [i]) as Hi. unfold own_at in Hi. simpl in Hi.
    destruct (nth_error ks i) as [k|] eqn:Ek, (nth_error ks' i) as [k'|] eqn:Ek';
      try discriminate; [|reflexivity].
    f_equal. rewrite Forall_forall in IH. apply (IH k (nth_error_In _ _ Ek)).
    intros r. specialize (H (i :: r)). unfold own_at in H. simpl in H.
    now rewrite Ek, Ek' in H.
Qed.

Lemma lookup_ext (p : path) (d d' : node) :
  (forall r, own_at d (p ++ r) = own_at d' (p ++ r)) -> lookup p d = lookup p d'.
Proof.
  intros H. pose proof (H []) as H0. unfold own_at in H0. rewrite app_nil_r in H0.
  destruct (lookup p d) as [n|] eqn:E, (lookup p d') as [n'|] eqn:E'; try discriminate;
    [|reflexivity].
  f_equal. apply node_ext. intros r. specialize (H r). unfold own_at in *.
  now rewrite !lookup_app, E, E' in H.
Qed.

(** Below an element that holds text only, nothing matches a selector. *)
Lemma plain_no_element_below (sel : selector) (d : node) (T r : path) (kids : list node) :
  children_at d T = Some kids -> plain kids = true -> r <> [] ->
  matches_at sel d (T ++ r) = false.
Proof.
  unfold children_at, matches_at. rewrite lookup_app.
  destruct (lookup T d) as [[t a ks|s]|]; simpl; try discriminate.
  - intros [= ->] Hp Hr. destruct r as [|i r]; [congruence|]. simpl.
    destruct (nth_error kids i) as [k|] eqn:Ek; [|reflexivity].
    unfold plain in Hp. rewrite forallb_forall in Hp.
    specialize (Hp k (nth_error_In _ _ Ek)). destruct k as [t' a' ks'|s']; [discriminate|].
    now destruct r.
  - intros [= <-] _ Hr. destruct r; [congruence | reflexivity].
Qed.

Lemma plain_skeleton_eq (ks ks' : list node) :
  plain ks = true -> map skeleton ks' = map skeleton ks -> ks' = ks.
Proof.
  revert ks'. induction ks as [|k ks IH]; intros [|k' ks'] Hp H; try discriminate;
    [reflexivity|].
  simpl in Hp. apply andb_true_iff in Hp. destruct Hp as [Hk Hp].
  injection H as Hk' H. f_equal; [|now apply IH].
  destruct k as [t a c|s]; [discriminate|]. destruct k'; [discriminate | exact Hk'].
Qed.

Lemma querySelector_None_iff (sel : selector) (d : node) (p : path) :
  querySelector sel d p = None
  <-> forall r, r <> [] -> matches_at sel d (p ++ r) = false.
Proof.
  split.
  - intros H r Hr. unfold matches_at. rewrite lookup_app.
    destruct (lookup p d) as [n|] eqn:Hn; [|reflexivity].
    exact (querySelector_None sel d n p r H Hn Hr).
  - intros H. destruct (querySelector sel d p) as [q|] eqn:E; [|reflexivity].
    destruct (querySelector_Some _ _ _ _ E) as (r & -> & Hr & Hm).
    now rewrite (H r Hr) in Hm.
Qed.

Lemma querySelector_data_lucide_iff (d : node) (T : path) :
  querySelector sel_data_lucide d T <> None
  <-> exists r, r <> [] /\ hasAttribute_at "data-lucide" d (T ++ r) = true.
Proof.
  split.
  - destruct (querySelector sel_data_lucide d T) as [q|] eqn:E; [|congruence].
    intros _. destruct (querySelector_Some _ _ _ _ E) as (r & -> & Hr & Hm).
    exists r. split; [exact Hr|]. now rewrite <- matches_at_data_lucide.
  - intros (r & Hr & Ha) Hq.
    pose proof (proj1 (querySelector_None_iff _ _ _) Hq r Hr) as Hm.
    rewrite matches_at_data_lucide in Hm. congruence.
Qed.

Lemma keeps_hasAttribute_at (d d' : node) (p : path) :
  keeps d d' -> hasAttribute_at "data-lucide" d p = true ->
  hasAttribute_at "data-lucide" d' p = true.
Proof.
  intros K H. unfold hasAttribute_at in *.
  destruct (getAttribute_at "data-lucide" d p) as [v|] eqn:E; [|discriminate].
  now rewrite (K _ _ E).
Qed.

Lemma markup_blind_spec (sel : selector) (n : node) :
  markup_blind sel = true -> In n (send_markup :: fragment_nodes) -> matches sel n = false.
Proof.
  unfold markup_blind. rewrite forallb_forall. intros H Hin.
  apply negb_true_iff. now apply H.
Qed.

(** ** The menu step *)

Lemma own_at_set_innerHTML_outside (p q : path) (kids : list node) (d : node) :
  strictly_inside p q = false -> own_at (set_innerHTML p kids d) q = own_at d q.
Proof.
  intros H. apply own_at_set_innerHTML. intros r Hr ->.
  assert (E : strictly_inside p (p ++ r) = true)
    by (apply strictly_inside_spec; now exists r).
  congruence.
Qed.

(** The four shapes the markup of line 109 can parse to. *)
Lemma menu_fragment_cases (sr : bool) (t : string) (kids : list node) :
  menu_fragment sr t = Some kids ->
  kids = [Text menu_text] \/ kids = []
  \/ kids = [Elem "head" [] []; Elem "body" [] [menu_markup]] \/ kids = [menu_markup].
Proof.
  unfold menu_fragment. destruct (t =? "template"); [discriminate|].
  destruct (mem t text_contexts); [intros [= <-]; auto|].
  destruct (_ || _); [intros [= <-]; auto|].
  destruct (t =? "html"); intros [= <-]; auto.
Qed.

(** What the markup has brought in matches none of the selectors of the
    script that look at classes, ids or the [svg] tag. *)
Lemma no_match_in_fragment (sr : bool) (sel : selector) (t : string) (a : attrs)
    (kids : list node) (r : path) :
  markup_blind sel = true -> menu_fragment sr t = Some kids -> r <> [] ->
  match lookup r (Elem t a kids) with Some n => matches sel n | None => false end = false.
Proof.
  intros Hb F Hr.
  pose proof (markup_blind_spec sel menu_markup Hb) as B1.
  pose proof (markup_blind_spec sel (Elem "head" [] []) Hb) as B2.
  pose proof (markup_blind_spec sel (Elem "body" [] [menu_markup]) Hb) as B3.
  destruct r as [|i r]; [congruence|].
  destruct (menu_fragment_cases sr t kids F) as [-> | [-> | [-> | ->]]].
  - destruct i as [|i]; simpl; [now destruct r | now destruct i].
  - now destruct i.
  - destruct i as [|[|i]]; simpl.
    + destruct r as [|j r]; [apply B2; simpl; tauto | now destruct j].
    + destruct r as [|[|j] r]; simpl; [apply B3; simpl; tauto | | now destruct j].
      destruct r as [|k r]; [apply B1; simpl; tauto | now destruct k].
    + now destruct i.
  - destruct i as [|i]; simpl; [|now destruct i].
    destruct r as [|j r]; [apply B1; simpl; tauto | now destruct j].
Qed.

Lemma no_match_in_new_content (sr : bool) (sel : selector) (p q : path)
    (kids : list node) (d : node) :
  markup_blind sel = true -> menu_fragment sr (localName_at d p) = Some kids ->
  strictly_inside p q = true -> matches_at sel (set_innerHTML p kids d) q = false.
Proof.
  intros Hb F H. apply strictly_inside_spec in H. destruct H as (r & Hr & ->).
  unfold matches_at, set_innerHTML. rewrite lookup_app, lookup_update.
  unfold localName_at in F. destruct (lookup p d) as [[t a ks|s]|]; simpl in *.
  - now apply (no_match_in_fragment sr sel t a kids r).
  - destruct r; [congruence | reflexivity].
  - reflexivity.
Qed.

(** A toggle whose content has just been replaced is done. *)
Lemma new_content_done (sr : bool) (btn : path) (t : string) (a : attrs)
    (ks kids : list node) (d : node) :
  lookup btn d = Some (Elem t a ks) -> menu_fragment sr t = Some kids ->
  menu_done sr (set_innerHTML btn kids d) btn.
Proof.
  intros Hl F.
  assert (Hl' : lookup btn (set_innerHTML btn kids d) = Some (Elem t a kids))
    by (unfold set_innerHTML; now rewrite lookup_update, Hl).
  assert (Hh : forall r, hasAttribute_at "data-lucide" (Elem t a kids) r = true -> r <> [] ->
                         menu_done sr (set_innerHTML btn kids d) btn).
  { intros r Ha Hr. left. apply querySelector_data_lucide_iff. exists r.
    split; [exact Hr|]. now rewrite (hasAttribute_at_app _ _ _ btn r Hl'). }
  assert (Hp : plain kids = true -> menu_done sr (set_innerHTML btn kids d) btn).
  { intros Hp. right. unfold localName_at, children_at. rewrite Hl'. simpl.
    now rewrite F. }
  destruct (menu_fragment_cases sr t kids F) as [-> | [-> | [-> | ->]]].
  - now apply Hp.
  - now apply Hp.
  - now apply (Hh [1; 0]).
  - now apply (Hh [0]).
Qed.

(** The invariants of the loop.  [gone] holds toggles of the document the
    loop started on; outside them every node is as it was; inside them
    there is only what the markup has brought in; and a toggle of the
    document as it stands is still to be visited, or is done. *)
Lemma menuButtons_regions (sr : bool) (d : node) (l : list path) :
  (forall btn, In btn l -> matches_at sel_menu_toggle d btn = true) ->
  forall (gone : list path) (d' : node),
    (forall g, In g gone -> bare_toggle d g = true) ->
    (forall q, (forall g, In g gone -> strictly_inside g q = false) ->
               own_at d' q = own_at d q) ->
    (forall sel g q, markup_blind sel = true -> In g gone ->
                     strictly_inside g q = true -> matches_at sel d' q = false) ->
    (forall T, matches_at sel_menu_toggle d' T = true ->
               (In T l /\ forall g, In g gone -> strictly_inside g T = false)
               \/ menu_done sr d' T) ->
    keeps d d' ->
    exists gone',
      (forall g, In g gone' -> bare_toggle d g = true)
      /\ (forall q, (forall g, In g gone' -> strictly_inside g q = false) ->
                    own_at (menuButtons sr gone l d') q = own_at d q)
      /\ (forall sel g q, markup_blind sel = true -> In g gone' ->
                          strictly_inside g q = true ->
                          matches_at sel (menuButtons sr gone l d') q = false)
      /\ (forall T, matches_at sel_menu_toggle (menuButtons sr gone l d') T = true ->
                    menu_done sr (menuButtons sr gone l d') T).
Proof.
  induction l as [|btn l IH]; intros Hl gone d' J1 J2 J3 J5 J6; simpl.
  - exists gone. repeat split; trivial.
    intros T HT. destruct (J5 T HT) as [[[] _]|H]; exact H.
  - assert (Hl' : forall b, In b l -> matches_at sel_menu_toggle d b = true)
      by (intros; apply Hl; now right).
    destruct (existsb (fun g => strictly_inside g btn) gone) eqn:Eg.
    { apply IH; trivial. intros T HT.
      destruct (J5 T HT) as [[[<-|Hin] Hg]|H]; [|left; now split|now right].
      exfalso. apply existsb_exists in Eg. destruct Eg as (g & Hig & Hs).
      rewrite (Hg g Hig) in Hs. discriminate. }
    assert (Hout : forall g, In g gone -> strictly_inside g btn = false).
    { intros g Hin. destruct (strictly_inside g btn) eqn:E; [|reflexivity].
      assert (X : existsb (fun g => strictly_inside g btn) gone = true)
        by (apply existsb_exists; now exists g).
      congruence. }
    assert (Hb : matches_at sel_menu_toggle d' btn = true).
    { rewrite (matches_at_same_own _ d d' btn (J2 btn Hout)). apply Hl. now left. }
    destruct (matches_at_element _ _ _ Hb) as (t & a & ks & Hlb & _).
    destruct (querySelector sel_data_lucide d' btn) as [x|] eqn:Eq.
    { apply IH; trivial. intros T HT.
      destruct (J5 T HT) as [[[<-|Hin] Hg]|H]; [|left; now split|now right].
      right. left. congruence. }
    destruct (menu_fragment sr (localName_at d' btn)) as [kids|] eqn:F.
    2:{ apply IH; trivial. intros T HT.
        destruct (J5 T HT) as [[[<-|Hin] Hg]|H]; [|left; now split|now right].
        right. right. now rewrite F. }
    assert (Hbare : bare_toggle d btn = true).
    { unfold bare_toggle. rewrite (Hl btn (or_introl eq_refl)). simpl.
      destruct (querySelector sel_data_lucide d btn) as [y|] eqn:Ed; [|reflexivity].
      exfalso. assert (Hy : querySelector sel_data_lucide d btn <> None) by congruence.
      apply querySelector_data_lucide_iff in Hy. destruct Hy as (r & Hr & Ha).
      assert (Hy' : querySelector sel_data_lucide d' btn <> None).
      { apply querySelector_data_lucide_iff. exists r. split; [exact Hr|].
        exact (keeps_hasAttribute_at d d' _ J6 Ha). }
      congruence. }
    apply IH; trivial.
    5:{ intros q v Hq. apply (keeps_set_innerHTML btn kids d' Eq). now apply J6. }
    + intros g [<-|Hin]; [exact Hbare | now apply J1].
    + intros q Hq. rewrite own_at_set_innerHTML_outside by (apply Hq; now left).
      apply J2. intros g Hin. apply Hq. now right.
    + intros sel g q Hbl Hin Hs.
      destruct (strictly_inside btn q) eqn:Eb;
        [now apply (no_match_in_new_content sr)|].
      rewrite (matches_at_same_own _ d' _ q (own_at_set_innerHTML_outside _ _ _ _ Eb)).
      destruct Hin as [<-|Hin]; [congruence | now apply (J3 sel g q)].
    + intros T HT.
      destruct (strictly_inside btn T) eqn:Eb;
        [now rewrite (no_match_in_new_content sr sel_menu_toggle btn T kids d' eq_refl F Eb)
           in HT|].
      destruct (list_eq_dec Nat.eq_dec T btn) as [->|Hne].
      { right. unfold localName_at in F. rewrite Hlb in F.
        now apply (new_content_done sr btn t a ks kids d'). }
      pose proof (own_at_set_innerHTML_outside btn T kids d' Eb) as Eo.
      rewrite (matches_at_same_own _ d' _ T Eo) in HT.
      destruct (J5 T HT) as [[[E|Hin] Hg]|[H|H]]; [congruence| | |].
      * left. split; [exact Hin|]. intros g [<-|Hig]; [exact Eb | now apply Hg].
      * right. left. apply querySelector_data_lucide_iff.
        apply querySelector_data_lucide_iff in H. destruct H as (r & Hr & Ha).
        exists r. split; [exact Hr|].
        apply (keeps_hasAttribute_at d' _ _ (keeps_set_innerHTML btn _ d' Eq) Ha).
      * right. right. rewrite localName_at_own, Eo, <- localName_at_own.
        destruct (menu_fragment sr (localName_at d' T)) as [kidsT|]; [|exact I].
        destruct H as [Hc Hp]. split; [|exact Hp].
        unfold children_at in *. rewrite (lookup_ext T _ d'); [exact Hc|].
        intros r. apply own_at_set_innerHTML_outside.
        destruct (strictly_inside btn (T ++ r)) eqn:E; [|reflexivity]. exfalso.
        destruct (strictly_inside_app_cases _ _ _ E) as [E'|[r' E']]; [congruence|].
        destruct r' as [|i r']; [rewrite app_nil_r in E'; congruence|].
        pose proof (plain_no_element_below sel_menu_toggle d' T (i :: r') kidsT Hc Hp)
          as Hm.
        rewrite <- E', Hb in Hm. now discriminate Hm.
Qed.

(** The menu step as a whole. *)
Lemma menu_step_regions (sr : bool) (d : node) :
  exists gone',
    (forall g, In g gone' -> bare_toggle d g = true)
    /\ (forall q, (forall g, In g gone' -> strictly_inside g q = false) ->
                  own_at (menuButtons sr [] (querySelectorAll sel_menu_toggle d) d) q
                  = own_at d q)
    /\ (forall sel g q, markup_blind sel = true -> In g gone' ->
                        strictly_inside g q = true ->
                        matches_at sel
                          (menuButtons sr [] (querySelectorAll sel_menu_toggle d) d) q
                        = false)
    /\ (forall T, matches_at sel_menu_toggle
                    (menuButtons sr [] (querySelectorAll sel_menu_toggle d) d) T = true ->
                  menu_done sr (menuButtons sr [] (querySelectorAll sel_menu_toggle d) d) T).
Proof.
  apply (menuButtons_regions sr d).
  - intros btn H. now apply querySelectorAll_spec.
  - intros g [].
  - reflexivity.
  - intros sel g q _ [].
  - intros T HT. left. split; [now apply querySelectorAll_spec | intros g []].
  - apply keeps_refl.
Qed.

Lemma menuButtons_frame (sr : bool) (d : node) (q : path) :
  inside sel_menu_toggle d q = false ->
  own_at (menuButtons sr [] (querySelectorAll sel_menu_toggle d) d) q = own_at d q.
Proof.
  intros Hq. destruct (menu_step_regions sr d) as (gone' & Hg & Ho & _).
  apply Ho. intros g Hin. destruct (strictly_inside g q) eqn:E; [|reflexivity].
  pose proof (Hg g Hin) as M. unfold bare_toggle in M.
  rewrite (not_inside _ _ _ _ Hq E) in M. discriminate.
Qed.

(** An element the menu step leaves with a class, an id or the [svg] tag
    the script looks for had it before, and is as it was. *)
Lemma menu_step_old (sr : bool) (sel : selector) (d : node) (q : path) :
  markup_blind sel = true ->
  matches_at sel (menuButtons sr [] (querySelectorAll sel_menu_toggle d) d) q = true ->
  own_at (menuButtons sr [] (querySelectorAll sel_menu_toggle d) d) q = own_at d q.
Proof.
  intros Hb Hm. destruct (menu_step_regions sr d) as (gone' & _ & Ho & Hn & _).
  apply Ho. intros g Hin. destruct (strictly_inside g q) eqn:E; [|reflexivity].
  rewrite (Hn sel g q Hb Hin E) in Hm. discriminate.
Qed.

(** Such an element that neither is nor holds a toggle without icon is as
    it was with all it holds. *)
Lemma menu_step_whole (sr : bool) (sel : selector) (d : node) (p : path) :
  markup_blind sel = true ->
  matches_at sel (menuButtons sr [] (querySelectorAll sel_menu_toggle d) d) p = true ->
  (forall r, bare_toggle d (p ++ r) = false) ->
  forall r, own_at (menuButtons sr [] (querySelectorAll sel_menu_toggle d) d) (p ++ r)
            = own_at d (p ++ r).
Proof.
  intros Hb Hm Hno r. destruct (menu_step_regions sr d) as (gone' & Hg & Ho & Hn & _).
  apply Ho. intros g Hin. destruct (strictly_inside g (p ++ r)) eqn:E; [|reflexivity].
  exfalso. destruct (strictly_inside_app_cases _ _ _ E) as [E'|[r' ->]].
  - rewrite (Hn sel g p Hb Hin E') in Hm. discriminate.
  - pose proof (Hg _ Hin) as M. rewrite Hno in M. discriminate.
Qed.

(** On toggles that are all done the loop changes nothing. *)
Lemma menuButtons_fixed (sr : bool) (l gone : list path) (d : node) :
  (forall btn, In btn l -> menu_done sr d btn) -> menuButtons sr gone l d = d.
Proof.
  revert gone. induction l as [|btn l IH]; intros gone H; simpl; [reflexivity|].
  assert (H' : forall b, In b l -> menu_done sr d b) by (intros; apply H; now right).
  destruct (existsb _ gone); [now apply IH|].
  destruct (querySelector sel_data_lucide d btn) eqn:E; [now apply IH|].
  destruct (H btn (or_introl eq_refl)) as [Hd|Hd]; [congruence|].
  destruct (menu_fragment sr (localName_at d btn)) as [kids|]; [|now apply IH].
  destruct Hd as [Hc _].
  assert (Ef : set_innerHTML btn kids d = d).
  { apply update_fixed. intros n Hn. unfold children_at in Hc. rewrite Hn in Hc.
    destruct n as [t a ks|s]; [|reflexivity]. simpl in Hc. now injection Hc as ->. }
  rewrite Ef. now apply IH.
Qed.

(** X12.  The menu step (lines 106 to 111) touches nothing outside the
    menu toggles: every node of the document that is not inside a
    [.mobile-menu-toggle] element keeps its place, its tag, all its
    attributes or its text; so does each such toggle that is not nested in
    another one, whose children alone may be replaced. *)
Theorem menu_step_frame (sr : bool) (d : node) (q : path) :
  inside sel_menu_toggle d q = false ->
  own_at (menuButtons sr [] (querySelectorAll sel_menu_toggle d) d) q = own_at d q.
Proof. apply menuButtons_frame. Qed.

Lemma menu_step_frame_witness :
  own_at (menuButtons false [] (querySelectorAll sel_menu_toggle toolbar_page) toolbar_page)
    [1; 1; 0]
  = own_at toolbar_page [1; 1; 0].
Proof. apply (menu_step_frame false toolbar_page [1; 1; 0]). reflexivity. Defined.

(** The elements to which the markup gives no icon element. *)
Lemma takes_icon_spec (sr : bool) (t : string) :
  takes_icon sr t
  = negb ((t =? "template") || mem t text_contexts || mem t dropping_contexts
          || ((t =? "select") && negb sr)).
Proof.
  unfold takes_icon, menu_fragment. destruct (t =? "template"); [reflexivity|].
  destruct (mem t text_contexts); [reflexivity|].
  destruct (mem t dropping_contexts); [reflexivity|].
  destruct ((t =? "select") && negb sr); [reflexivity|].
  now destruct (t =? "html").
Qed.

(** In a [textarea] the markup stays text: the toggle holds no icon after
    the step. *)
Example textarea_toggle_holds_text :
  let d1 := menuButtons false [] (querySelectorAll sel_menu_toggle textarea_toggle_page)
              textarea_toggle_page in
  children_at d1 [1; 0] = Some [Text menu_text]
  /\ querySelector sel_data_lucide d1 [1; 0] = None.
Proof. split; reflexivity. Qed.

(** X13.  After the menu step every [.mobile-menu-toggle] element to which
    the markup of line 109 gives an icon element holds a descendant with a
    [data-lucide] attribute, the one it had or the [menu] icon put in.
    That is every toggle but a [template], an element that reads its
    content as text ([textarea], [title], [style], [script], ...), a
    [colgroup] or [frameset], and a [select] where the parser drops the
    tag: such a toggle that holds no icon holds just what the markup
    parses to for it, the text of the markup or nothing.  In every case
    the step, run again on its result, changes nothing. *)
Theorem menu_step_settles (sr : bool) (d : node) :
  let d1 := menuButtons sr [] (querySelectorAll sel_menu_toggle d) d in
  (forall T, In T (querySelectorAll sel_menu_toggle d1) ->
             takes_icon sr (localName_at d1 T) = true ->
             querySelector sel_data_lucide d1 T <> None)
  /\ (forall T kids, In T (querySelectorAll sel_menu_toggle d1) ->
                     querySelector sel_data_lucide d1 T = None ->
                     menu_fragment sr (localName_at d1 T) = Some kids ->
                     children_at d1 T = Some kids /\ plain kids = true)
  /\ (forall t, takes_icon sr t = false <->
                t = "template" \/ In t text_contexts \/ In t dropping_contexts
                \/ (t = "select" /\ sr = false))
  /\ menuButtons sr [] (querySelectorAll sel_menu_toggle d1) d1 = d1.
Proof.
  cbv zeta. destruct (menu_step_regions sr d) as (gone' & _ & _ & _ & Hd).
  split; [|split; [|split]].
  - intros T HT Ht. apply querySelectorAll_spec in HT.
    destruct (Hd T HT) as [H|H]; [exact H|]. unfold takes_icon in Ht.
    destruct (menu_fragment sr _) as [kids|]; [|discriminate].
    destruct H as [_ Hp]. rewrite Hp in Ht. discriminate.
  - intros T kids HT Hq F. apply querySelectorAll_spec in HT.
    destruct (Hd T HT) as [H|H]; [congruence|]. now rewrite F in H.
  - intros t. rewrite takes_icon_spec, negb_false_iff, !orb_true_iff, andb_true_iff,
      negb_true_iff, !String.eqb_eq, !mem_In. tauto.
  - apply menuButtons_fixed. intros T HT. apply querySelectorAll_spec in HT.
    now apply Hd.
Qed.

(** ** The send step *)

Lemma own_at_set_outerHTML_outside (p q : path) (new d : node) :
  is_prefix p q = false -> own_at (set_outerHTML p new d) q = own_at d q.
Proof.
  unfold own_at, set_outerHTML. revert q d.
  induction p as [|i p IH]; intros q d H; simpl; [discriminate|].
  destruct d as [t a ks|s]; [|reflexivity].
  destruct q as [|j q]; [reflexivity|]. simpl in *.
  rewrite nth_error_alter. destruct (Nat.eqb i j); [|reflexivity].
  destruct (nth_error ks j) as [k|]; simpl; [now apply IH | reflexivity].
Qed.

Lemma no_match_under_send_markup (sel : selector) (p q : path) (d : node) :
  matches sel send_markup = false ->
  lookup p d <> None ->
  is_prefix p q = true ->
  matches_at sel (set_outerHTML p send_markup d) q = false.
Proof.
  intros Hm Hp H. apply is_prefix_spec in H. destruct H as [r ->].
  unfold matches_at, set_outerHTML. rewrite lookup_app, lookup_update.
  destruct (lookup p d); [|congruence]. simpl.
  destruct r as [|i r]; [exact Hm|]. simpl. now destruct i.
Qed.

Lemma markup_blind_send (sel : selector) :
  markup_blind sel = true -> matches sel send_markup = false.
Proof. intros H. apply (markup_blind_spec sel send_markup H). now left. Qed.

(** An element that holds an icon holds one after an [svg] beside or below
    it has given way to the markup of line 118. *)
Lemma holds_after_set_outerHTML (s T : path) (d : node) :
  lookup s d <> None -> is_prefix s T = false ->
  querySelector sel_data_lucide d T <> None ->
  querySelector sel_data_lucide (set_outerHTML s send_markup d) T <> None.
Proof.
  intros Hs Hp H. apply querySelector_data_lucide_iff in H. destruct H as (r & Hr & Ha).
  apply querySelector_data_lucide_iff.
  destruct (is_prefix s (T ++ r)) eqn:E.
  - destruct (is_prefix_app_cases _ _ _ E) as [E'|(r' & Hr' & ->)]; [congruence|].
    exists r'. split; [exact Hr'|].
    unfold hasAttribute_at, getAttribute_at, set_outerHTML. rewrite lookup_update.
    destruct (lookup (T ++ r') d); [reflexivity | congruence].
  - exists r. split; [exact Hr|].
    now rewrite (hasAttribute_at_own "data-lucide" d _ (T ++ r)
                   (own_at_set_outerHTML_outside s (T ++ r) send_markup d E)).
Qed.

(** The invariants of the loop.  [gone] holds the places of [svg.send-icon]
    elements of the document the loop started on; outside them every node
    is as it was; at and below them there is only the markup of line 118;
    an element outside them that held an icon holds one; and, where no
    button has two of them, a send button of the document as it stands is
    still to be visited, or holds no [svg.send-icon]. *)
Lemma sendButtons_regions (d : node) (l : list path) :
  (forall btn, In btn l -> matches_at sel_send_button d btn = true) ->
  forall (gone : list path) (d' : node),
    (forall g, In g gone -> send_svg d g = true) ->
    (forall q, (forall g, In g gone -> is_prefix g q = false) ->
               own_at d' q = own_at d q) ->
    (forall sel g q, markup_blind sel = true -> In g gone -> is_prefix g q = true ->
                     matches_at sel d' q = false) ->
    (forall T, (forall g, In g gone -> is_prefix g T = false) ->
               querySelector sel_data_lucide d T <> None ->
               querySelector sel_data_lucide d' T <> None) ->
    (one_svg_below d ->
     forall B, matches_at sel_send_button d' B = true ->
               In B l \/ querySelector sel_send_svg d' B = None) ->
    exists gone',
      (forall g, In g gone' -> send_svg d g = true)
      /\ (forall q, (forall g, In g gone' -> is_prefix g q = false) ->
                    own_at (sendButtons gone l d') q = own_at d q)
      /\ (forall sel g q, markup_blind sel = true -> In g gone' -> is_prefix g q = true ->
                          matches_at sel (sendButtons gone l d') q = false)
      /\ (forall T, (forall g, In g gone' -> is_prefix g T = false) ->
                    querySelector sel_data_lucide d T <> None ->
                    querySelector sel_data_lucide (sendButtons gone l d') T <> None)
      /\ (one_svg_below d ->
          forall B, matches_at sel_send_button (sendButtons gone l d') B = true ->
                    querySelector sel_send_svg (sendButtons gone l d') B = None).
Proof.
  induction l as [|btn l IH]; intros Hl gone d' I1 I2 I3 I4 I5; simpl.
  - exists gone. repeat split; trivial.
    intros O B HB. destruct (I5 O B HB) as [[]|H]; exact H.
  - assert (Hl' : forall b, In b l -> matches_at sel_send_button d b = true)
      by (intros; apply Hl; now right).
    assert (Hclear : forall sel q, markup_blind sel = true -> matches_at sel d' q = true ->
                                   forall g, In g gone -> is_prefix g q = false).
    { intros sel q Hb Hm g Hin. destruct (is_prefix g q) eqn:E; [|reflexivity].
      rewrite (I3 sel g q Hb Hin E) in Hm. discriminate. }
    destruct (existsb (fun g => is_prefix g btn) gone) eqn:Eg.
    { apply IH; trivial. intros O B HB.
      destruct (I5 O B HB) as [[<-|Hin]|H]; [|now left|now right].
      exfalso. apply existsb_exists in Eg. destruct Eg as (g & Hig & Hs).
      rewrite (Hclear sel_send_button btn eq_refl HB g Hig) in Hs. discriminate. }
    destruct (querySelector sel_send_svg d' btn) as [svg|] eqn:Eq.
    2:{ apply IH; trivial. intros O B HB.
        destruct (I5 O B HB) as [[<-|Hin]|H]; [now right|now left|now right]. }
    destruct (querySelector_Some _ _ _ _ Eq) as (rs & Ers & Hrs & Hm).
    pose proof (Hclear sel_send_svg svg eq_refl Hm) as Hout.
    assert (Hsvg : lookup svg d' <> None).
    { unfold matches_at in Hm. now destruct (lookup svg d'). }
    assert (Hsd : matches_at sel_send_svg d svg = true)
      by now rewrite <- (matches_at_same_own _ d d' svg (I2 svg Hout)).
    assert (Hss : send_svg d svg = true).
    { unfold send_svg. rewrite Hsd. simpl. apply existsb_exists. exists btn.
      split; [|apply Hl; now left].
      apply ancestors_strictly_inside, strictly_inside_spec. now exists rs. }
    assert (Hnew : forall sel q, markup_blind sel = true -> is_prefix svg q = true ->
                                 matches_at sel (set_outerHTML svg send_markup d') q = false).
    { intros sel q Hb Hp. apply no_match_under_send_markup; trivial.
      now apply markup_blind_send. }
    apply IH; [exact Hl'| | | | |].
    + intros g [<-|Hin]; [exact Hss | now apply I1].
    + intros q Hq. rewrite own_at_set_outerHTML_outside by (apply Hq; now left).
      apply I2. intros g Hin. apply Hq. now right.
    + intros sel g q Hb Hin Hp.
      destruct (is_prefix svg q) eqn:Es; [now apply Hnew|].
      rewrite (matches_at_same_own _ d' _ q (own_at_set_outerHTML_outside _ _ _ _ Es)).
      destruct Hin as [<-|Hin]; [congruence | now apply (I3 sel g q)].
    + intros T HT H. apply holds_after_set_outerHTML; [exact Hsvg | apply HT; now left|].
      apply I4; [|exact H]. intros g Hin. apply HT. now right.
    + intros O B HB.
      destruct (is_prefix svg B) eqn:Es;
        [now rewrite (Hnew sel_send_button B eq_refl Es) in HB|].
      rewrite (matches_at_same_own _ d' _ B (own_at_set_outerHTML_outside _ _ _ _ Es))
        in HB.
      assert (Hkeep : forall r, querySelector sel_send_svg d' B = None ->
                                r <> [] ->
                                matches_at sel_send_svg
                                  (set_outerHTML svg send_markup d') (B ++ r) = false).
      { intros r Hn Hr. destruct (is_prefix svg (B ++ r)) eqn:E; [now apply Hnew|].
        rewrite (matches_at_same_own _ d' _ _ (own_at_set_outerHTML_outside _ _ _ _ E)).
        now apply (proj1 (querySelector_None_iff _ _ _) Hn). }
      destruct (I5 O B HB) as [[<-|Hin]|H].
      * right. apply querySelector_None_iff. intros r2 Hr2.
        destruct (is_prefix svg (btn ++ r2)) eqn:E; [now apply Hnew|].
        rewrite (matches_at_same_own _ d' _ _ (own_at_set_outerHTML_outside _ _ _ _ E)).
        destruct (matches_at sel_send_svg d' (btn ++ r2)) eqn:M; [exfalso|reflexivity].
        assert (Md : matches_at sel_send_svg d (btn ++ r2) = true).
        { rewrite <- (matches_at_same_own _ d d' _
                        (I2 _ (Hclear sel_send_svg _ eq_refl M))). exact M. }
        assert (Bd : matches_at sel_send_button d btn = true).
        { rewrite <- (matches_at_same_own _ d d' _
                        (I2 _ (Hclear sel_send_button _ eq_refl HB))). exact HB. }
        rewrite Ers in Hsd. pose proof (O btn rs r2 Bd Hrs Hr2 Hsd Md) as Er.
        rewrite <- Er, <- Ers, is_prefix_refl in E. discriminate.
      * now left.
      * right. apply querySelector_None_iff. intros r Hr. now apply Hkeep.
Qed.

(** The send step as a whole. *)
Lemma send_step_regions (d : node) :
  exists gone',
    (forall g, In g gone' -> send_svg d g = true)
    /\ (forall q, (forall g, In g gone' -> is_prefix g q = false) ->
                  own_at (sendButtons [] (querySelectorAll sel_send_button d) d) q
                  = own_at d q)
    /\ (forall sel g q, markup_blind sel = true -> In g gone' -> is_prefix g q = true ->
                        matches_at sel
                          (sendButtons [] (querySelectorAll sel_send_button d) d) q = false)
    /\ (forall T, (forall g, In g gone' -> is_prefix g T = false) ->
                  querySelector sel_data_lucide d T <> None ->
                  querySelector sel_data_lucide
                    (sendButtons [] (querySelectorAll sel_send_button d) d) T <> None)
    /\ (one_svg_below d ->
        forall B, matches_at sel_send_button
                    (sendButtons [] (querySelectorAll sel_send_button d) d) B = true ->
                  querySelector sel_send_svg
                    (sendButtons [] (querySelectorAll sel_send_button d) d) B = None).
Proof.
  apply (sendButtons_regions d).
  - intros btn H. now apply querySelectorAll_spec.
  - intros g [].
  - reflexivity.
  - intros sel g q _ [].
  - intros T _ H. exact H.
  - intros _ B HB. left. now apply querySelectorAll_spec.
Qed.

Lemma sendButtons_frame (d : node) (q : path) :
  at_or_inside sel_send_svg d q = false ->
  own_at (sendButtons [] (querySelectorAll sel_send_button d) d) q = own_at d q.
Proof.
  intros Hq. destruct (send_step_regions d) as (gone' & Hg & Ho & _).
  apply Ho. intros g Hin. destruct (is_prefix g q) eqn:E; [|reflexivity].
  pose proof (Hg g Hin) as M. unfold send_svg in M.
  rewrite (not_at_or_inside _ _ _ _ Hq E) in M. discriminate.
Qed.

(** An element the send step leaves with a class or an id the script
    looks for had it before, and is as it was; if it held an icon, it
    holds one; and if it held no [svg.send-icon] of a send button, it is
    as it was with all it holds. *)
Lemma send_step_old (sel : selector) (d : node) (q : path) :
  markup_blind sel = true ->
  matches_at sel (sendButtons [] (querySelectorAll sel_send_button d) d) q = true ->
  own_at (sendButtons [] (querySelectorAll sel_send_button d) d) q = own_at d q
  /\ (querySelector sel_data_lucide d q <> None ->
      querySelector sel_data_lucide
        (sendButtons [] (querySelectorAll sel_send_button d) d) q <> None)
  /\ ((forall r, r <> [] -> send_svg d (q ++ r) = false) ->
      forall r, own_at (sendButtons [] (querySelectorAll sel_send_button d) d) (q ++ r)
                = own_at d (q ++ r)).
Proof.
  intros Hb Hm. destruct (send_step_regions d) as (gone' & Hg & Ho & Hn & Hh & _).
  assert (Hq : forall g, In g gone' -> is_prefix g q = false).
  { intros g Hin. destruct (is_prefix g q) eqn:E; [|reflexivity].
    rewrite (Hn sel g q Hb Hin E) in Hm. discriminate. }
  split; [now apply Ho|]. split; [now apply Hh|].
  intros Hno r. apply Ho. intros g Hin.
  destruct (is_prefix g (q ++ r)) eqn:E; [|reflexivity]. exfalso.
  destruct (is_prefix_app_cases _ _ _ E) as [E'|(r' & Hr' & ->)].
  - rewrite (Hq g Hin) in E'. discriminate.
  - pose proof (Hg _ Hin) as M. rewrite (Hno r' Hr') in M. discriminate.
Qed.

(** X14.  The send step (lines 114 to 120) touches nothing outside the
    [svg.send-icon] elements: every node of the document that is neither
    such an element nor inside one keeps its place, its tag, all its
    attributes or its text.  In particular the send buttons themselves,
    and whatever else they hold, stay as they are. *)
Theorem send_step_frame (d : node) (q : path) :
  at_or_inside sel_send_svg d q = false ->
  own_at (sendButtons [] (querySelectorAll sel_send_button d) d) q = own_at d q.
Proof. apply sendButtons_frame. Qed.

Lemma send_step_frame_witness :
  own_at (sendButtons [] (querySelectorAll sel_send_button toolbar_page) toolbar_page)
    [1; 1; 1]
  = own_at toolbar_page [1; 1; 1].
Proof. apply (send_step_frame toolbar_page [1; 1; 1]). reflexivity. Defined.

(** ** The interface pass as a whole *)

(** X15.  The interface pass as a whole (lines 104 to 163) changes, of a
    node that is neither inside a [.mobile-menu-toggle] element nor an
    [svg.send-icon] element or inside one, nothing but the [data-lucide]
    attribute: the node keeps its place, its tag, its text and every other
    attribute. *)
Theorem interface_pass_frame (lc : string -> string) (sr : bool) (d : node) (q : path) :
  inside sel_menu_toggle d q = false ->
  at_or_inside sel_send_svg d q = false ->
  own_at (skeleton (applyInterfaceIcons lc sr d)) q = own_at (skeleton d) q.
Proof.
  intros Hm Hs. unfold applyInterfaceIcons.
  set (d1 := menuButtons sr [] (querySelectorAll sel_menu_toggle d) d).
  set (d2 := sendButtons [] (querySelectorAll sel_send_button d1) d1).
  pose proof (fileIcons_grows lc d2) as [S3 _].
  pose proof (metricIcons_grows lc (fileIcons lc d2)) as [S4 _].
  rewrite <- S4, <- S3, !own_at_skeleton. f_equal.
  assert (Hs1 : at_or_inside sel_send_svg d1 q = false).
  { destruct (at_or_inside sel_send_svg d1 q) eqn:E; [|reflexivity].
    unfold at_or_inside in E. apply existsb_exists in E. destruct E as (g & Hin & Hg).
    apply ancestors_In_prefix in Hin.
    unfold d1 in Hg.
    rewrite (matches_at_same_own _ d _ g
               (menuButtons_frame sr d g (inside_prefix _ _ _ _ Hm Hin))) in Hg.
    rewrite (not_at_or_inside _ _ _ _ Hs Hin) in Hg. discriminate. }
  unfold d2. rewrite (sendButtons_frame d1 q Hs1). now apply menuButtons_frame.
Qed.

Lemma interface_pass_frame_witness :
  own_at (skeleton (applyInterfaceIcons lower false toolbar_page)) [1; 1]
  = own_at (skeleton toolbar_page) [1; 1].
Proof. apply (interface_pass_frame lower false toolbar_page [1; 1]); reflexivity. Defined.

(** ** The table and [init] *)

(** X16.  The table of the constructor (lines 7 to 45) has thirty entries
    with pairwise distinct keys, so the order of the literal plays no part
    in a lookup, no key is a property name of [Object.prototype], and
    every value is a non-empty string: for each key, [addIcon] finds a
    truthy entry and writes exactly the value the literal gives. *)
Theorem iconMap_well_formed :
  length iconMap = 30
  /\ NoDup (map fst iconMap)
  /\ (forall k v, In (k, v) iconMap ->
        getAttribute k iconMap = Some v
        /\ mem k Object_prototype = false
        /\ get iconMap k = Str v
        /\ truthy (get iconMap k) = true).
Proof.
  assert (N : NoDup (map fst iconMap)).
  { unfold iconMap. simpl. repeat (constructor; [simpl; intuition discriminate|]).
    constructor. }
  split; [reflexivity|]. split; [exact N|].
  intros k v Hin. unfold iconMap in Hin. simpl in Hin.
  repeat (destruct Hin as [Hin|Hin]; [injection Hin as <- <-; now repeat split|]).
  contradiction.
Qed.

(** X17.  [init] has no memory of earlier calls: called twice while the
    document is loading it registers two [DOMContentLoaded] listeners,
    each of which will run [applyIcons], and leaves the document alone. *)
Theorem init_twice_while_loading (lc : string -> string) (ro sr : bool) (w : world) :
  readyState w = loading ->
  let w2 := fst (init lc ro sr (fst (init lc ro sr w))) in
  listeners w2
  = listeners w ++ [("DOMContentLoaded", run_applyIcons);
                    ("DOMContentLoaded", run_applyIcons)]
  /\ document w2 = document w
  /\ lucide w2 = lucide w
  /\ snd (init lc ro sr (fst (init lc ro sr w))) = Normal tt.
Proof.
  intros Hr. unfold init. rewrite Hr. simpl. now rewrite <- app_assoc.
Qed.

Lemma init_twice_while_loading_witness :
  let w := World teacher_page loading [] (Some 0) in
  let w2 := fst (init lower true false (fst (init lower true false w))) in
  listeners w2
  = listeners w ++ [("DOMContentLoaded", run_applyIcons);
                    ("DOMContentLoaded", run_applyIcons)]
  /\ document w2 = document w
  /\ lucide w2 = lucide w
  /\ snd (init lower true false (fst (init lower true false w))) = Normal tt.
Proof.
  apply (init_twice_while_loading lower true false (World teacher_page loading [] (Some 0))).
  reflexivity.
Defined.

(** ** Which elements the loops write to *)

Lemma contextIcon_own_other (lc : string -> string) (parents : selector)
    (name : string -> string) (x q : path) (d : node) :
  q <> x -> own_at (contextIcon lc parents name x d) q = own_at d q.
Proof.
  intros Hne. unfold contextIcon.
  destruct (_ && _); [|reflexivity].
  destruct (closest parents d x); [|reflexivity].
  now apply own_at_setAttribute_at.
Qed.

Lemma each_contextIcon_own (lc : string -> string) (parents : selector)
    (name : string -> string) (q : path) (l : list path) (d : node) :
  ~ In q l -> own_at (each (contextIcon lc parents name) l d) q = own_at d q.
Proof.
  unfold each. revert d. induction l as [|x l IH]; intros d Hn; simpl; [reflexivity|].
  rewrite IH by (intros H; apply Hn; now right).
  apply contextIcon_own_other. intros ->. apply Hn. now left.
Qed.

Lemma navItem_own_other (ro : bool) (item q : path) (d : node) :
  matches_at sel_nav_item_icon d q = false ->
  own_at (fst (navItem ro item d)) q = own_at d q.
Proof.
  intros Hq. unfold navItem.
  destruct (querySelector sel_nav_item_icon d item) as [ic|] eqn:E; [|reflexivity].
  destruct (negb _); [|reflexivity].
  destruct (navIconName _ _) as [name|e]; [|reflexivity].
  destruct (truthy name); [|reflexivity]. simpl.
  apply own_at_setAttribute_at. intros ->.
  destruct (querySelector_Some _ _ _ _ E) as (r & _ & _ & Hm). congruence.
Qed.

Lemma forEach_navItem_own (ro : bool) (q : path) (l : list path) (d : node) :
  matches_at sel_nav_item_icon d q = false ->
  own_at (fst (forEach (navItem ro) l d)) q = own_at d q.
Proof.
  revert d. induction l as [|x l IH]; intros d Hq; simpl; [reflexivity|].
  pose proof (navItem_own_other ro x q d Hq) as Hx.
  destruct (navItem ro x d) as [dx [[]|e]]; simpl in *; [|exact Hx].
  rewrite IH; [exact Hx|]. now rewrite (matches_at_same_own _ d dx q Hx).
Qed.

(** X18.  Each attribute-setting loop writes to its own placeholders only.
    A node that is not a [.nav-item-icon] element is, after the navigation
    pass, exactly as before (tag, every attribute, text), however the pass
    ends; likewise a node that is not a [.file-icon] element after the
    file-icon loop, and a node that is not a [.metric-icon] element after
    the metric-icon loop. *)
Theorem loops_write_placeholders_only (lc : string -> string) (ro : bool) (d : node)
    (q : path) :
  (matches_at sel_nav_item_icon d q = false ->
     own_at (fst (applyNavigationIcons ro d)) q = own_at d q)
  /\ (matches_at sel_file_icon d q = false ->
      own_at (fileIcons lc d) q = own_at d q)
  /\ (matches_at sel_metric_icon d q = false ->
      own_at (metricIcons lc d) q = own_at d q).
Proof.
  repeat split; intros H.
  - now apply forEach_navItem_own.
  - apply each_contextIcon_own. intros Hin. apply querySelectorAll_spec in Hin. congruence.
  - apply each_contextIcon_own. intros Hin. apply querySelectorAll_spec in Hin. congruence.
Qed.

Lemma loops_write_placeholders_only_witness :
  own_at (fst (applyNavigationIcons true sample_page)) [1; 0] = own_at sample_page [1; 0]
  /\ own_at (fileIcons lower sample_page) [1; 1] = own_at sample_page [1; 1]
  /\ own_at (metricIcons lower sample_page) [1; 3] = own_at sample_page [1; 3].
Proof.
  split; [|split].
  - apply (loops_write_placeholders_only lower true sample_page [1; 0]). reflexivity.
  - apply (loops_write_placeholders_only lower true sample_page [1; 1]). reflexivity.
  - apply (loops_write_placeholders_only lower true sample_page [1; 3]). reflexivity.
Defined.

(** * Running the passes again *)

(** ** What the navigation callback reads *)

(** The callback completes without a change exactly when its guards say
    so. *)
Lemma navItem_settled_iff (ro : bool) (item : path) (d : node) :
  navItem ro item d = (d, Normal tt) <-> nav_settled d item = true.
Proof.
  unfold navItem, nav_settled.
  destruct (querySelector sel_nav_item_icon d item) as [ic|] eqn:Hq; [|now split].
  destruct (hasAttribute_at "data-lucide" d ic) eqn:A; simpl; [now split|].
  destruct (navIconName _ _) as [name|e]; [|split; discriminate].
  destruct (truthy name); simpl; [|now split].
  split; [|discriminate]. intros [= E _]. exfalso.
  destruct (querySelector_element _ _ _ _ Hq) as (t & a & ks & Hl).
  pose proof (getAttribute_at_setAttribute_at ic "data-lucide" (ToString name) t a ks d Hl)
    as Hs.
  rewrite E in Hs. unfold hasAttribute_at in A. now rewrite Hs in A.
Qed.

(** The guards look at the item and at what it holds, nowhere else. *)
Lemma nav_settled_sub (d n : node) (item : path) :
  lookup item d = Some n -> nav_settled d item = nav_settled n [].
Proof.
  intros Hn. unfold nav_settled, querySelector, getAttribute_at, textContent_at.
  rewrite Hn. cbn [lookup]. destruct (filter _ (tl (elements n))) as [|q l]; [reflexivity|].
  cbn [app]. now rewrite (hasAttribute_at_app _ d n item q Hn).
Qed.

Lemma grows_lookup (d d' n : node) (p : path) :
  grows d d' -> lookup p d = Some n -> exists n', lookup p d' = Some n' /\ grows n n'.
Proof.
  intros [S K] Hn.
  assert (E : option_map skeleton (lookup p d) = option_map skeleton (lookup p d'))
    by (rewrite <- !lookup_skeleton; now rewrite S).
  rewrite Hn in E. destruct (lookup p d') as [n'|] eqn:Hn'; [|discriminate].
  exists n'. split; [reflexivity|]. split; [now injection E|].
  intros q v Hq. specialize (K (p ++ q) v). unfold getAttribute_at in *.
  rewrite !lookup_app, Hn, Hn' in K. now apply K.
Qed.

(** An item that is settled stays so when icons are added inside it. *)
Lemma nav_settled_grows (d d' n n' : node) (item : path) :
  lookup item d = Some n -> lookup item d' = Some n' -> grows n n' ->
  nav_settled d item = true -> nav_settled d' item = true.
Proof.
  intros Hn Hn' G. rewrite (nav_settled_sub d n item Hn), (nav_settled_sub d' n' item Hn').
  intros H. apply (navItem_settled_iff false). apply (navItem_settled_iff false) in H.
  exact (navItem_settled false [] n n n' H G).
Qed.

Lemma forEach_fixed (f : path -> node -> node * completion unit) (l : list path)
    (d : node) :
  (forall x, In x l -> f x d = (d, Normal tt)) -> forEach f l d = (d, Normal tt).
Proof.
  induction l as [|x l IH]; intros H; simpl; [reflexivity|].
  rewrite (H x (or_introl eq_refl)). apply IH. intros y Hy. apply H. now right.
Qed.

(** ** What the hypotheses say *)

Lemma nav_items_whole_spec (d : node) (N : path) :
  nav_items_whole d = true -> matches_at sel_nav_item d N = true ->
  forall r, bare_toggle d (N ++ r) = false /\ send_svg d (N ++ r) = false.
Proof.
  intros H HN r. unfold nav_items_whole in H. rewrite forallb_forall in H.
  specialize (H N (proj2 (querySelectorAll_spec _ _ _) HN)).
  rewrite forallb_forall in H.
  destruct (matches_at_element _ _ _ HN) as (t & a & ks & Hl & _).
  assert (Hin : forall sel, matches_at sel d (N ++ r) = true -> In (N ++ r) (subtree d N)).
  { intros sel M. unfold subtree. rewrite Hl. apply in_map.
    destruct (matches_at_element _ _ _ M) as (t' & a' & ks' & Hl' & _).
    rewrite lookup_app, Hl in Hl'. exact (elements_complete _ r t' a' ks' Hl'). }
  destruct (bare_toggle d (N ++ r)) eqn:Eb.
  { pose proof Eb as Eb'. unfold bare_toggle in Eb'. apply andb_true_iff in Eb'.
    specialize (H _ (Hin _ (proj1 Eb'))). rewrite Eb in H. discriminate. }
  destruct (send_svg d (N ++ r)) eqn:Es; [|now split].
  pose proof Es as Es'. unfold send_svg in Es'. apply andb_true_iff in Es'.
  specialize (H _ (Hin _ (proj1 Es'))). rewrite Eb, Es in H. discriminate.
Qed.

Lemma bare_toggle_grows (d d' : node) (q : path) :
  grows d d' -> bare_toggle d' q = true -> bare_toggle d q = true.
Proof.
  intros G H. unfold bare_toggle in *. apply andb_true_iff in H. destruct H as [Hm Hq].
  destruct G as [S K].
  rewrite <- (matches_at_skeleton sel_menu_toggle d q eq_refl), S,
    (matches_at_skeleton sel_menu_toggle d' q eq_refl), Hm. simpl.
  destruct (querySelector sel_data_lucide d q) as [x|] eqn:E; [|reflexivity].
  assert (Hx : querySelector sel_data_lucide d q <> None) by congruence.
  apply (querySelector_data_lucide_grows d d' q (conj S K)) in Hx.
  now destruct (querySelector sel_data_lucide d' q).
Qed.

Lemma send_svg_same (d d' : node) (q : path) :
  skeleton d = skeleton d' -> send_svg d' q = send_svg d q.
Proof.
  intros S. unfold send_svg.
  rewrite <- (matches_at_skeleton sel_send_svg d' q eq_refl), <- S,
    (matches_at_skeleton sel_send_svg d q eq_refl). f_equal.
  induction (tl (ancestors q)) as [|g l IH]; [reflexivity|]. simpl. rewrite IH. f_equal.
  now rewrite <- (matches_at_skeleton sel_send_button d' g eq_refl), <- S,
    (matches_at_skeleton sel_send_button d g eq_refl).
Qed.

Lemma one_svg_each_spec (d : node) : one_svg_each d = true -> one_svg_below d.
Proof.
  intros H B r1 r2 HB Hr1 Hr2 M1 M2. unfold one_svg_each in H.
  rewrite forallb_forall in H.
  specialize (H B (proj2 (querySelectorAll_spec _ _ _) HB)). apply Nat.leb_le in H.
  destruct (matches_at_element _ _ _ HB) as (t & a & ks & Hl & _).
  unfold querySelectorAll_in in H. rewrite Hl, length_map in H.
  assert (Hin : forall r, r <> [] -> matches_at sel_send_svg d (B ++ r) = true ->
                          In r (filter (fun q => matches_at sel_send_svg (Elem t a ks) q)
                                  (tl (elements (Elem t a ks))))).
  { intros r Hr M. unfold matches_at in M. rewrite lookup_app, Hl in M.
    apply filter_In. split; [|exact M].
    destruct (lookup r (Elem t a ks)) as [n|] eqn:En; [|discriminate].
    destruct (matches_element _ _ M) as (t' & a' & ks' & ->).
    pose proof (elements_complete _ r t' a' ks' En) as Hc. cbn [elements tl] in *.
    destruct Hc as [E|Hc]; [congruence | exact Hc]. }
  pose proof (Hin r1 Hr1 M1) as I1. pose proof (Hin r2 Hr2 M2) as I2.
  destruct (filter _ _) as [|x [|y l]]; simpl in *; [contradiction| |lia].
  destruct I1 as [<-|[]], I2 as [<-|[]]. reflexivity.
Qed.

Lemma one_svg_below_sub (d d' : node) :
  (forall sel q, markup_blind sel = true -> icon_blind sel = true ->
                 matches_at sel d' q = true -> matches_at sel d q = true) ->
  one_svg_below d -> one_svg_below d'.
Proof.
  intros H O B r1 r2 HB Hr1 Hr2 M1 M2.
  apply (O B r1 r2); trivial; now apply H.
Qed.

Lemma localName_at_same (d d' : node) (p : path) :
  skeleton d = skeleton d' -> localName_at d' p = localName_at d p.
Proof.
  intros S.
  assert (E : option_map skeleton (lookup p d) = option_map skeleton (lookup p d'))
    by (rewrite <- !lookup_skeleton; now rewrite S).
  unfold localName_at.
  destruct (lookup p d) as [[t a ks|s]|], (lookup p d') as [[t' a' ks'|s']|];
    try discriminate; try reflexivity.
  now injection E as ->.
Qed.

Lemma matches_at_same (sel : selector) (d d' : node) (p : path) :
  skeleton d = skeleton d' -> icon_blind sel = true ->
  matches_at sel d' p = matches_at sel d p.
Proof.
  intros S Hb. now rewrite <- (matches_at_skeleton sel d' p Hb), <- S, matches_at_skeleton.
Qed.

(** X19.  Where no send button holds more than one [svg.send-icon], the
    send step (lines 114 to 120) leaves none in any send button, nested or
    not, and so, run again on its result, changes nothing. *)
Theorem send_step_settles (d : node) :
  one_svg_each d = true ->
  let d1 := sendButtons [] (querySelectorAll sel_send_button d) d in
  (forall B, In B (querySelectorAll sel_send_button d1) ->
             querySelector sel_send_svg d1 B = None)
  /\ sendButtons [] (querySelectorAll sel_send_button d1) d1 = d1.
Proof.
  intros H. cbv zeta. destruct (send_step_regions d) as (gs & _ & _ & _ & _ & Hn).
  assert (Hs : forall B,
             In B (querySelectorAll sel_send_button
                     (sendButtons [] (querySelectorAll sel_send_button d) d)) ->
             querySelector sel_send_svg
               (sendButtons [] (querySelectorAll sel_send_button d) d) B = None).
  { intros B HB. apply querySelectorAll_spec in HB.
    apply Hn; [now apply one_svg_each_spec | exact HB]. }
  split; [exact Hs | now apply sendButtons_nothing].
Qed.

Lemma send_step_settles_witness :
  let d1 := sendButtons [] (querySelectorAll sel_send_button toolbar_page) toolbar_page in
  (forall B, In B (querySelectorAll sel_send_button d1) ->
             querySelector sel_send_svg d1 B = None)
  /\ sendButtons [] (querySelectorAll sel_send_button d1) d1 = d1.
Proof. apply (send_step_settles toolbar_page). reflexivity. Defined.

(** ** The second run *)

(** After a navigation pass that has completed and the interface pass, on
    a document whose send buttons hold at most one [svg.send-icon] each and
    whose navigation items hold none of the markup that is replaced, both
    passes find every guard satisfied. *)
Lemma passes_again (lc : string -> string) (ro sr : bool) (d0 d1 : node) :
  applyNavigationIcons ro d0 = (d1, Normal tt) ->
  one_svg_each d0 = true ->
  nav_items_whole d0 = true ->
  applyNavigationIcons ro (applyInterfaceIcons lc sr d1)
  = (applyInterfaceIcons lc sr d1, Normal tt)
  /\ applyInterfaceIcons lc sr (applyInterfaceIcons lc sr d1) = applyInterfaceIcons lc sr d1.
Proof.
  intros Hnav H1 H2.
  pose proof (applyNavigationIcons_grows ro d0) as G01. rewrite Hnav in G01.
  cbn [fst] in G01. destruct G01 as [S01 K01].
  unfold applyInterfaceIcons at 1 2 4.
  set (d2 := menuButtons sr [] (querySelectorAll sel_menu_toggle d1) d1).
  set (d3 := sendButtons [] (querySelectorAll sel_send_button d2) d2).
  set (d5 := metricIcons lc (fileIcons lc d3)).
  assert (G35 : grows d3 d5)
    by (eapply grows_trans; [apply fileIcons_grows | apply metricIcons_grows]).
  pose proof G35 as [S35 K35].
  (* an element with a class or id of the script after the replacements
     was there before, and is as it was *)
  assert (Old : forall sel q, markup_blind sel = true -> icon_blind sel = true ->
                              matches_at sel d3 q = true ->
                              own_at d3 q = own_at d2 q /\ own_at d2 q = own_at d1 q
                              /\ matches_at sel d2 q = true /\ matches_at sel d1 q = true
                              /\ matches_at sel d0 q = true).
  { intros sel q Hm Hi H3.
    destruct (send_step_old sel d2 q Hm H3) as (O32 & _).
    pose proof H3 as H2'. rewrite (matches_at_same_own _ d2 d3 q O32) in H2'.
    pose proof (menu_step_old sr sel d1 q Hm H2') as O21.
    pose proof H2' as H1'. rewrite (matches_at_same_own _ d1 d2 q O21) in H1'.
    repeat split; trivial. now rewrite <- (matches_at_same sel d0 d1 q S01 Hi). }
  split.
  - (* the navigation pass *)
    unfold applyNavigationIcons. apply forEach_fixed. intros N HN.
    apply querySelectorAll_spec in HN.
    rewrite (matches_at_same sel_nav_item d3 d5 N S35 eq_refl) in HN.
    destruct (Old sel_nav_item N eq_refl eq_refl HN) as (O32 & O21 & HN2 & HN1 & HN0).
    pose proof (nav_items_whole_spec d0 N H2 HN0) as Hw0.
    assert (Hw1 : forall r, bare_toggle d1 (N ++ r) = false).
    { intros r. destruct (bare_toggle d1 (N ++ r)) eqn:E; [|reflexivity].
      apply (bare_toggle_grows d0 d1 _ (conj S01 K01)) in E.
      now rewrite (proj1 (Hw0 r)) in E. }
    pose proof (menu_step_whole sr sel_nav_item d1 N eq_refl HN2 Hw1) as W21.
    fold d2 in W21.
    assert (Hs2 : forall r, r <> [] -> send_svg d2 (N ++ r) = false).
    { intros r _. destruct (send_svg d2 (N ++ r)) eqn:E; [exfalso|reflexivity].
      unfold send_svg in E. apply andb_true_iff in E. destruct E as [Em Eb].
      apply existsb_exists in Eb. destruct Eb as (B & HB & MB).
      rewrite (matches_at_same_own _ d1 d2 _ (W21 r)) in Em.
      pose proof (menu_step_old sr sel_send_button d1 B eq_refl MB) as OB.
      rewrite (matches_at_same_own _ d1 d2 B OB) in MB.
      assert (E1 : send_svg d1 (N ++ r) = true).
      { unfold send_svg. rewrite Em. simpl. apply existsb_exists. now exists B. }
      rewrite (send_svg_same d0 d1 _ S01), (proj2 (Hw0 r)) in E1. discriminate. }
    destruct (send_step_old sel_nav_item d2 N eq_refl HN) as (_ & _ & W32).
    specialize (W32 Hs2). fold d3 in W32.
    assert (L31 : lookup N d3 = lookup N d1).
    { apply lookup_ext. intros r. now rewrite W32, W21. }
    destruct (matches_at_element _ _ _ HN1) as (t & a & ks & Hl1 & _).
    rewrite Hl1 in L31.
    destruct (grows_lookup d3 d5 _ N G35 L31) as (n5 & Hl5 & Gn).
    apply (navItem_settled_iff ro N d5).
    apply (nav_settled_grows d1 d5 _ n5 N Hl1 Hl5 Gn).
    apply (navItem_settled_iff ro N d1).
    apply (forEach_navItem_items_settled ro _ d0 d1 Hnav N).
    now apply querySelectorAll_spec.
  - (* the interface pass *)
    assert (Hmenu : menuButtons sr [] (querySelectorAll sel_menu_toggle d5) d5 = d5).
    { apply menuButtons_fixed. intros T HT. apply querySelectorAll_spec in HT.
      rewrite (matches_at_same sel_menu_toggle d3 d5 T S35 eq_refl) in HT.
      destruct (Old sel_menu_toggle T eq_refl eq_refl HT) as (O32 & _ & HT2 & _).
      destruct (send_step_old sel_menu_toggle d2 T eq_refl HT) as (_ & H32 & W32).
      destruct (menu_step_regions sr d1) as (gm & _ & _ & _ & Hd).
      assert (En : localName_at d5 T = localName_at d2 T).
      { rewrite (localName_at_same d3 d5 T S35).
        now rewrite (localName_at_own d3), O32, <- localName_at_own. }
      destruct (Hd T HT2) as [Hh|Hf].
      - left. apply (querySelector_data_lucide_grows d3 d5 T G35). now apply H32.
      - right. rewrite En. fold d2 in Hf.
        destruct (menu_fragment sr (localName_at d2 T)) as [kids|]; [|exact I].
        destruct Hf as [Hc Hp]. split; [|exact Hp].
        assert (Ns2 : forall r, r <> [] -> send_svg d2 (T ++ r) = false).
        { intros r Hr. unfold send_svg.
          now rewrite (plain_no_element_below sel_send_svg d2 T r kids Hc Hp Hr). }
        assert (L32 : lookup T d3 = lookup T d2)
          by (apply lookup_ext; intros r; now apply W32).
        destruct (matches_at_element _ _ _ HT2) as (t & a & ks & Hl2 & _).
        unfold children_at in Hc. rewrite Hl2 in Hc. simpl in Hc. injection Hc as ->.
        rewrite Hl2 in L32.
        destruct (grows_lookup d3 d5 _ T G35 L32) as (n5 & Hl5 & [Sn _]).
        unfold children_at. rewrite Hl5. destruct n5 as [t5 a5 ks5|s5]; [|discriminate].
        simpl in Sn. injection Sn as _ _ Sk. simpl. f_equal.
        apply plain_skeleton_eq; [exact Hp | now symmetry]. }
    assert (Hsend : sendButtons [] (querySelectorAll sel_send_button d5) d5 = d5).
    { apply sendButtons_nothing. intros B HB. apply querySelectorAll_spec in HB.
      rewrite (matches_at_same sel_send_button d3 d5 B S35 eq_refl) in HB.
      rewrite <- (same_querySelector d3 d5 S35) by reflexivity.
      destruct (send_step_regions d2) as (gs & _ & _ & _ & _ & Hn).
      apply Hn; [|exact HB].
      apply (one_svg_below_sub d0 d2); [|now apply one_svg_each_spec].
      intros sel q Hm Hi Hq.
      pose proof (menu_step_old sr sel d1 q Hm Hq) as O21.
      rewrite (matches_at_same_own _ d1 d2 q O21) in Hq.
      now rewrite <- (matches_at_same sel d0 d1 q S01 Hi). }
    unfold applyInterfaceIcons. rewrite Hmenu, Hsend.
    apply (inference_settled lc d3 d5). apply grows_refl.
Qed.

(** C9, as the code has it.  Take a run of [applyIcons] that completes, on
    a document in which every send button holds at most one
    [svg.send-icon] and no navigation item is, or holds, a menu toggle or
    an [svg.send-icon].  A second run, on the page as the first left it,
    completes as well and leaves the document as it is: every guard of the
    two passes is satisfied, whatever markup the first run has replaced.
    Only the rendering library is called once more.  (Nothing is stated
    for a first run that ends with an exception, the subject of C2: the
    second run then goes on where the first one stopped,
    [applyIcons_again_after_throw].) *)
Theorem applyIcons_twice (lc : string -> string) (ro sr : bool) (w : world) :
  snd (applyIcons lc ro sr w) = Normal tt ->
  one_svg_each (document w) = true ->
  nav_items_whole (document w) = true ->
  snd (applyIconsTwice lc ro sr w) = Normal tt
  /\ document (fst (applyIconsTwice lc ro sr w)) = document (fst (applyIcons lc ro sr w))
  /\ fst (applyIconsTwice lc ro sr w) = createIcons (fst (applyIcons lc ro sr w)).
Proof.
  intros Hc H1 H2. unfold applyIconsTwice.
  destruct (applyNavigationIcons ro (document w)) as [d1 [[]|e]] eqn:Hnav.
  2:{ exfalso. unfold applyIcons in Hc. rewrite Hnav in Hc. discriminate. }
  destruct (passes_again lc ro sr (document w) d1 Hnav H1 H2) as [Hn Hi].
  assert (E1 : applyIcons lc ro sr w
               = (createIcons (with_document w (applyInterfaceIcons lc sr d1)), Normal tt))
    by (unfold applyIcons; now rewrite Hnav).
  assert (E2 : applyIcons lc ro sr
                 (createIcons (with_document w (applyInterfaceIcons lc sr d1)))
               = (createIcons
                    (createIcons (with_document w (applyInterfaceIcons lc sr d1))),
                  Normal tt)).
  { unfold applyIcons. rewrite createIcons_document. cbn [document with_document].
    rewrite Hn, Hi. do 2 f_equal. destruct w as [d r l [c|]]; reflexivity. }
  rewrite E1. cbn [fst snd]. rewrite E2. cbn [fst snd].
  split; [reflexivity|]. split; [now rewrite createIcons_document | reflexivity].
Qed.

Lemma applyIcons_twice_witness :
  (snd (applyIconsTwice lower true false (World chat_page complete [] (Some 0))) = Normal tt
   /\ document (fst (applyIconsTwice lower true false (World chat_page complete [] (Some 0))))
      = document (fst (applyIcons lower true false (World chat_page complete [] (Some 0))))
   /\ fst (applyIconsTwice lower true false (World chat_page complete [] (Some 0)))
      = createIcons (fst (applyIcons lower true false
                            (World chat_page complete [] (Some 0)))))
  /\ document (fst (applyIconsTwice lower false true
                      (World teacher_chat_page complete [] None)))
     = document (fst (applyIcons lower false true
                        (World teacher_chat_page complete [] None))).
Proof.
  split.
  - apply (applyIcons_twice lower true false (World chat_page complete [] (Some 0)));
      reflexivity.
  - apply (applyIcons_twice lower false true (World teacher_chat_page complete [] None));
      reflexivity.
Defined.

(** On the page of the witness the first run does replace markup and infer
    icons, on the host with the read-only [tagName]. *)
Example chat_page_is_changed :
  let d := document (fst (applyIcons lower true false
                            (World chat_page complete [] (Some 0)))) in
  own_at d [1; 2; 0] = Some menu_markup
  /\ own_at d [1; 3; 0] = Some send_markup
  /\ getAttribute_at "data-lucide" d [1; 4; 0] = Some "user"
  /\ getAttribute_at "data-lucide" d [1; 5; 0] = Some "message-circle".
Proof. repeat split. Qed.

(** C9, as the specification words it, fails, on either host.  A send
    button that holds two [svg.send-icon] elements has the first replaced
    by the first run and the second by the second run.  And a menu toggle
    inside a navigation entry: once its content is replaced, the text of
    the entry reads [Tutor IA], and the second run labels the entry, which
    the first run, completing, had left without icon. *)
Lemma applyIcons_not_idempotent :
  (snd (applyIcons lower true false (World two_svg_page complete [] (Some 0))) = Normal tt
   /\ document (fst (applyIconsTwice lower true false
                       (World two_svg_page complete [] (Some 0))))
      <> document (fst (applyIcons lower true false
                          (World two_svg_page complete [] (Some 0))))
   /\ document (fst (applyIconsTwice lower false false
                       (World two_svg_page complete [] (Some 0))))
      <> document (fst (applyIcons lower false false
                          (World two_svg_page complete [] (Some 0)))))
  /\ (snd (applyIcons lower true false (World split_label_page complete [] None))
      = Normal tt
      /\ getAttribute_at "data-lucide"
           (document (fst (applyIcons lower true false
                             (World split_label_page complete [] None)))) [1; 0; 0]
         = None
      /\ getAttribute_at "data-lucide"
           (document (fst (applyIconsTwice lower true false
                             (World split_label_page complete [] None)))) [1; 0; 0]
         = Some "bot"
      /\ getAttribute_at "data-lucide"
           (document (fst (applyIcons lower false false
                             (World split_label_page complete [] None)))) [1; 0; 0]
         = None
      /\ getAttribute_at "data-lucide"
           (document (fst (applyIconsTwice lower false false
                             (World split_label_page complete [] None)))) [1; 0; 0]
         = Some "bot").
Proof.
  split; [split; [reflexivity | split; vm_compute; discriminate] | repeat split].
Qed.

(** After a first run that has ended with an exception the second run goes
    on: here the first, on the host with the read-only [tagName], stops at
    line 95 before the interface pass, and the second labels the file
    icon. *)
Example applyIcons_again_after_throw :
  snd (applyIcons lower true false (World sample_page complete [] (Some 0)))
  = Throw TypeError
  /\ getAttribute_at "data-lucide"
       (document (fst (applyIcons lower true false
                         (World sample_page complete [] (Some 0))))) [1; 1; 0] = None
  /\ getAttribute_at "data-lucide"
       (document (fst (applyIconsTwice lower true false
                         (World sample_page complete [] (Some 0))))) [1; 1; 0]
     = Some "user".
Proof. repeat split. Qed.
